(** * log2json: the format recognizers and their registry

    A shallow embedding of package [parser] of log2json: the [Entry]
    record, type inference on tokens, the six recognizers (JSON,
    key=value, syslog, Apache combined, generic, user pattern) and the
    [Registry] that orders, selects and caches them.

    Go strings are byte strings: a [string] here is the list of its
    bytes.  The functions of the Go standard library that the package
    calls ([strings], [strconv], [regexp]) are modelled in the modules
    [strings], [strconv] and [regexp] below; [encoding/json] is a
    parameter of the development. *)

From Stdlib Require Import ZArith NArith Ascii String List Bool Lia.
From Stdlib Require Import Floats.SpecFloat.
From stdpp Require Import base option list strings gmap.

Set Warnings "-register-all".
Open Scope Z_scope.

(** ** Bytes *)

Definition byte_val (c : ascii) : N := N_of_ascii c.

Definition byte_in (lo hi : N) (c : ascii) : bool :=
  ((lo <=? byte_val c) && (byte_val c <=? hi))%N.

Definition byte_is (n : N) (c : ascii) : bool := (byte_val c =? n)%N.

Definition is_digit (c : ascii) : bool := byte_in 48 57 c.
Definition is_upper (c : ascii) : bool := byte_in 65 90 c.
Definition is_lower (c : ascii) : bool := byte_in 97 122 c.

(** The double quote, which the patterns and the sample lines contain. *)
Definition dquote : ascii := ascii_of_N 34.

(** [strings]: the functions of Go's package [strings] that the parsers
    call. *)
Module strings.

(** The six ASCII bytes of [unicode.IsSpace]: tab, line feed, vertical
    tab, form feed, carriage return, space. *)
Definition asciiSpace (c : ascii) : bool := byte_in 9 13 c || byte_is 32 c.

(** [TrimLeft s] drops the leading white space of [s], rune by rune.
    Besides the ASCII bytes, the white space runes are U+0085 and
    U+00A0 (C2 85, C2 A0), U+1680 (E1 9A 80), U+2000..U+200A, U+2028,
    U+2029, U+202F (E2 80 80..8A, A8, A9, AF), U+205F (E2 81 9F) and
    U+3000 (E3 80 80), in their UTF-8 encodings. *)
Fixpoint TrimLeft (s : string) : string :=
  match s with
  | EmptyString => EmptyString
  | String c1 s1 =>
      if asciiSpace c1 then TrimLeft s1
      else
        match s1 with
        | String c2 s2 =>
            if byte_is 194 c1 && (byte_is 133 c2 || byte_is 160 c2)
            then TrimLeft s2
            else
              match s2 with
              | String c3 s3 =>
                  if (byte_is 225 c1 && byte_is 154 c2 && byte_is 128 c3)
                     || (byte_is 226 c1 && byte_is 128 c2 &&
                         (byte_in 128 138 c3 || byte_in 168 169 c3
                          || byte_is 175 c3))
                     || (byte_is 226 c1 && byte_is 129 c2 && byte_is 159 c3)
                     || (byte_is 227 c1 && byte_is 128 c2 && byte_is 128 c3)
                  then TrimLeft s3
                  else s
              | EmptyString => s
              end
        | EmptyString => s
        end
  end.

(** A string is blank when it is a sequence of white space runes. *)
Definition blank (s : string) : bool :=
  match TrimLeft s with EmptyString => true | _ => false end.

(** [TrimRight s] drops the trailing white space of [s]: the longest
    suffix that is a sequence of white space runes. *)
Fixpoint TrimRight (s : string) : string :=
  match s with
  | EmptyString => EmptyString
  | String c s' => if blank s then EmptyString else String c (TrimRight s')
  end.

(** [strings.TrimSpace]. *)
Definition TrimSpace (s : string) : string := TrimRight (TrimLeft s).

Definition lower_byte (c : ascii) : ascii :=
  if is_upper c then ascii_of_N (byte_val c + 32) else c.

Definition upper_byte (c : ascii) : ascii :=
  if is_lower c then ascii_of_N (byte_val c - 32) else c.

Fixpoint map_bytes (f : ascii -> ascii) (s : string) : string :=
  match s with
  | EmptyString => EmptyString
  | String c s' => String (f c) (map_bytes f s')
  end.

(** [strings.ToLower] and [strings.ToUpper] on the ASCII letters; the
    bytes from 128 on are kept as they are.  Go also maps the letters
    outside ASCII; of these only U+0130 and U+212A have an ASCII letter
    as their lower case (i and k), and only U+0131 and U+017F as their
    upper case (I and S).  So a text is true or false after [ToLower]
    here exactly when it is in Go, and the statements on the name of a
    parser, which the caller chooses, are made for ASCII names
    ([is_ascii] below). *)
Definition ToLower (s : string) : string := map_bytes lower_byte s.
Definition ToUpper (s : string) : string := map_bytes upper_byte s.

End strings.

(** [strconv]: the conversions of Go's package [strconv] that the
    parsers call.  A conversion that fails in Go, with a syntax or a
    range error, is [None]: the callers only test [err == nil]. *)
Module strconv.

Definition digit_val (c : ascii) : Z := Z.of_N (byte_val c) - 48.

(** The digit loop of [ParseUint], base 10: every byte must be a
    decimal digit. *)
Fixpoint parse_digits (s : string) (acc : Z) : option Z :=
  match s with
  | EmptyString => Some acc
  | String c s' =>
      if is_digit c then parse_digits s' (10 * acc + digit_val c) else None
  end.

Definition ParseUint10 (s : string) : option Z :=
  match s with
  | EmptyString => None
  | _ => parse_digits s 0
  end.

(** [strconv.ParseInt(s, 10, bitSize)]: an optional sign, then at least
    one decimal digit and nothing else, and the value must fit the
    signed [bitSize]-bit range. *)
Definition ParseInt (s : string) (bitSize : Z) : option Z :=
  match s with
  | EmptyString => None
  | String c s' =>
      let neg := byte_is 45 c in
      let ds := if byte_is 43 c || byte_is 45 c then s' else s in
      match ParseUint10 ds with
      | None => None
      | Some un =>
          let cutoff := 2 ^ (bitSize - 1) in
          if neg then (if un <=? cutoff then Some (- un) else None)
          else (if un <? cutoff then Some un else None)
      end
  end.

(** [strconv.Atoi]: [ParseInt(s, 10, 0)] narrowed to [int], which is
    64 bits wide on the platforms the tool is built for. *)
Definition Atoi (s : string) : option Z := ParseInt s 64.

Definition digit_byte (d : Z) : ascii := ascii_of_N (Z.to_N (48 + d)).

(** The decimal digits of [n], most significant first, in front of
    [acc]. *)
Fixpoint format_digits (fuel : nat) (n : Z) (acc : string) : string :=
  match fuel with
  | O => acc
  | S fuel' =>
      let acc' := String (digit_byte (n mod 10)) acc in
      if n <? 10 then acc' else format_digits fuel' (n / 10) acc'
  end.

(** [strconv.FormatInt(i, 10)], the text that [%d] and [%v] print for
    an integer. *)
Definition FormatInt (i : Z) : string :=
  let digits := format_digits (S (Z.to_nat (Z.log2 (Z.abs i)))) (Z.abs i) "" in
  if i <? 0 then String "-" digits else digits.

(** [strconv.FormatBool]. *)
Definition FormatBool (b : bool) : string := if b then "true" else "false".

(** *** Floating point

    A [float64] is an IEEE 754 binary64 value: 53 bits of precision,
    exponent of the infinities 1024. *)
Definition float64 : Type := spec_float.

(** The binary64 nearest to [n / d] (ties to even), for [0 <= n] and
    [0 < d].  The finite numbers of binary64 are the multiples
    [m * 2 ^ (g - 1074)] with [m < 2 ^ 53] and [0 <= g <= 2045]; [g] is
    read off the binade of [n / d], and the quotient of [n / d] by
    [2 ^ (g - 1074)] is rounded on what is left of the division. *)
Definition round_ratio (neg : bool) (n d : Z) : float64 :=
  if n =? 0 then S754_zero neg
  else
    let g := Z.max (Z.log2 (n * 2 ^ 1126 / d)) 104 - 104 in
    let num := n * 2 ^ 1074 in
    let den := d * 2 ^ g in
    let q := num / den in
    let r := num mod den in
    let m :=
      match 2 * r ?= den with
      | Lt => q
      | Gt => q + 1
      | Eq => if Z.even q then q else q + 1
      end in
    let '(m, g) := if m =? 2 ^ 53 then (2 ^ 52, g + 1) else (m, g) in
    match m with
    | Zpos p =>
        if g <=? 2045 then S754_finite neg p (g - 1074)
        else S754_infinity neg
    | _ => S754_zero neg
    end.

(** [mant * base ^ e], rounded. *)
Definition scale (neg : bool) (base mant e : Z) : float64 :=
  if 0 <=? e then round_ratio neg (mant * base ^ e) 1
  else round_ratio neg mant (base ^ (- e)).

(** [lower(c)] of atoi.go: [c | ('x' - 'X')]. *)
Definition lower (c : ascii) : ascii := ascii_of_N (N.lor (byte_val c) 32).

Definition is_hex_letter (c : ascii) : bool := byte_in 97 102 (lower c).

(** [special]: the text, after an optional sign, is inf or infinity,
    or the text is nan, in any case of the letters. *)
Definition special (s : string) : option float64 :=
  match s with
  | EmptyString => None
  | String c s' =>
      if byte_is 43 c || byte_is 45 c then
        if bool_decide (strings.ToLower s' = "inf")
           || bool_decide (strings.ToLower s' = "infinity")
        then Some (S754_infinity (byte_is 45 c)) else None
      else if bool_decide (strings.ToLower s = "inf")
              || bool_decide (strings.ToLower s = "infinity")
      then Some (S754_infinity false)
      else if bool_decide (strings.ToLower s = "nan") then Some S754_nan
      else None
  end.

(** What the digit loop of [readFloat] has seen: the digits read as
    one integer, how many of them came after the point, whether a
    point and whether a digit was seen. *)
Record mantissa := {
  m_val : Z;
  m_frac : Z;
  m_dot : bool;
  m_digits : bool
}.

(** The digit loop of [readFloat]: digits, underscores and one point;
    it stops at a second point and at any other byte, and returns what
    is left of the text. *)
Fixpoint read_mantissa (hex : bool) (s : string) (st : mantissa)
  : mantissa * string :=
  match s with
  | EmptyString => (st, s)
  | String c s' =>
      let push base d :=
        read_mantissa hex s'
          {| m_val := base * m_val st + d;
             m_frac := if m_dot st then m_frac st + 1 else m_frac st;
             m_dot := m_dot st;
             m_digits := true |} in
      if byte_is 95 c then read_mantissa hex s' st
      else if byte_is 46 c then
        if m_dot st then (st, s)
        else read_mantissa hex s'
               {| m_val := m_val st; m_frac := m_frac st;
                  m_dot := true; m_digits := m_digits st |}
      else if is_digit c then push (if hex then 16 else 10) (digit_val c)
      else if hex && is_hex_letter c
      then push 16 (Z.of_N (byte_val (lower c)) - 87)
      else (st, s)
  end.

(** The digits of the exponent, to the end of the text; the value
    stops growing once it has reached 10000. *)
Fixpoint read_exp (s : string) (e : Z) : option Z :=
  match s with
  | EmptyString => Some e
  | String c s' =>
      if byte_is 95 c then read_exp s' e
      else if is_digit c
      then read_exp s' (if e <? 10000 then e * 10 + digit_val c else e)
      else None
  end.

(** The exponent part: the exponent byte, an optional sign, a digit,
    then digits and underscores to the end of the text. *)
Definition read_exponent (s : string) : option Z :=
  let digits (neg : bool) (t : string) :=
    match t with
    | String d _ =>
        if is_digit d
        then (fun e => if neg then - e else e) <$> read_exp t 0
        else None
    | EmptyString => None
    end in
  match s with
  | String c t =>
      if byte_is 43 c then digits false t
      else if byte_is 45 c then digits true t
      else digits false s
  | EmptyString => None
  end.

Inductive seen := SeenStart | SeenDigit | SeenUnderscore | SeenOther.

Fixpoint underscore_scan (hex : bool) (s : string) (saw : seen) : bool :=
  match s with
  | EmptyString => match saw with SeenUnderscore => false | _ => true end
  | String c s' =>
      if is_digit c || (hex && is_hex_letter c)
      then underscore_scan hex s' SeenDigit
      else if byte_is 95 c then
        match saw with
        | SeenDigit => underscore_scan hex s' SeenUnderscore
        | _ => false
        end
      else
        match saw with
        | SeenUnderscore => false
        | _ => underscore_scan hex s' SeenOther
        end
  end.

(** [underscoreOK]: an underscore only between digits, or between a
    base prefix and a digit. *)
Definition underscoreOK (s : string) : bool :=
  let s :=
    match s with
    | String c s' => if byte_is 43 c || byte_is 45 c then s' else s
    | EmptyString => s
    end in
  match s with
  | String c0 (String c1 rest) =>
      if byte_is 48 c0 &&
         (byte_is 98 (lower c1) || byte_is 111 (lower c1)
          || byte_is 120 (lower c1))
      then underscore_scan (byte_is 120 (lower c1)) rest SeenDigit
      else underscore_scan false s SeenStart
  | _ => underscore_scan false s SeenStart
  end.

(** [readFloat], for a text that must be read to its end: the sign,
    whether the number is hexadecimal, the digits as an integer and
    the exponent of the base (10, or 2 for a hexadecimal number). *)
Definition readFloat (s : string) : option (bool * bool * Z * Z) :=
  match s with
  | EmptyString => None
  | String c s' =>
      let neg := byte_is 45 c in
      let body := if byte_is 43 c || byte_is 45 c then s' else s in
      let '(hex, body) :=
        match body with
        | String c0 (String c1 (String c2 t)) =>
            if byte_is 48 c0 && byte_is 120 (lower c1)
            then (true, String c2 t) else (false, body)
        | _ => (false, body)
        end in
      let '(st, rest) :=
        read_mantissa hex body
          {| m_val := 0; m_frac := 0; m_dot := false; m_digits := false |} in
      if negb (m_digits st) then None
      else
        let frac := if hex then 4 * m_frac st else m_frac st in
        let exponent :=
          match rest with
          | EmptyString => if hex then None else Some 0
          | String x t =>
              if byte_is (if hex then 112 else 101) (lower x)
              then read_exponent t else None
          end in
        match exponent with
        | None => None
        | Some e =>
            if underscoreOK s then Some (neg, hex, m_val st, e - frac)
            else None
        end
  end.

(** [strconv.ParseFloat(s, 64)]: the special values, or a decimal or
    hexadecimal literal of Go, rounded to the nearest binary64; a value
    too large for a binary64 is a range error. *)
Definition ParseFloat (s : string) : option float64 :=
  match special s with
  | Some f => Some f
  | None =>
      match readFloat s with
      | None => None
      | Some (neg, hex, mant, e) =>
          match scale neg (if hex then 2 else 10) mant e with
          | S754_infinity _ => None
          | f => Some f
          end
      end
  end.

(** *** Formatting a float

    [strconv.FormatFloat(f, 'g', -1, 64)], the text that [%v] prints for
    a [float64]: the shortest decimal that [ParseFloat] reads back as
    [f], after [roundShortest] of ftoa.go.

    The numbers below are in units of [2 ^ (- 1076)], a quarter of the
    least positive binary64: the value [m * 2 ^ e] of a finite binary64,
    and the bounds of the numbers that round to it, half way to its
    neighbours (the neighbour below is half as far when the mantissa is
    the least of a binade). *)
Definition units (m : positive) (e : Z) : Z := 4 * Zpos m * 2 ^ (e + 1074).

Definition upper_bound (m : positive) (e : Z) : Z :=
  (4 * Zpos m + 2) * 2 ^ (e + 1074).

Definition lower_bound (m : positive) (e : Z) : Z :=
  if (Zpos m =? 2 ^ 52) && negb (e =? - 1074)
  then (4 * Zpos m - 1) * 2 ^ (e + 1074)
  else (4 * Zpos m - 2) * 2 ^ (e + 1074).

(** The decimal [t * 10 ^ j] against [c] units. *)
Definition dec_cmp (t j c : Z) : comparison :=
  if 0 <=? j then t * 10 ^ j * 2 ^ 1076 ?= c
  else t * 2 ^ 1076 ?= c * 10 ^ (- j).

(** [c] units cut at the digit of weight [10 ^ j]: the digits kept, as
    an integer, what is left, and the weight of one more. *)
Definition truncate (c j : Z) : Z * Z * Z :=
  if 0 <=? j
  then (c / (10 ^ j * 2 ^ 1076), c mod (10 ^ j * 2 ^ 1076),
        10 ^ j * 2 ^ 1076)
  else (c * 10 ^ (- j) / 2 ^ 1076, c * 10 ^ (- j) mod 2 ^ 1076, 2 ^ 1076).

(** The loop of [roundShortest], from the digit of weight [10 ^ j] on:
    the value is cut after that digit as soon as the cut, rounded down
    or up, stays within the bounds (the bounds themselves are allowed
    when the mantissa is even, as ties go to even); when both do, it is
    rounded to the nearest.  The result is the decimal [t * 10 ^ j] as
    the pair [(t, j)].  When the digits run out, the value is left as
    it is. *)
Fixpoint roundShortest (fuel : nat) (m : positive) (e : Z) (j : Z)
  : Z * Z :=
  match fuel with
  | O => if 0 <=? e then (Zpos m * 2 ^ e, 0) else (Zpos m * 5 ^ (- e), e)
  | S fuel' =>
      let '(t, r, d) := truncate (units m e) j in
      let inclusive := Z.even (Zpos m) in
      let okdown :=
        match dec_cmp t j (lower_bound m e) with
        | Gt => true
        | Eq => inclusive
        | Lt => false
        end in
      let okup :=
        match dec_cmp (t + 1) j (upper_bound m e) with
        | Lt => true
        | Eq => inclusive
        | Gt => false
        end in
      if okdown && okup then
        match 2 * r ?= d with
        | Lt => (t, j)
        | Gt => (t + 1, j)
        | Eq => if Z.even t then (t, j) else (t + 1, j)
        end
      else if okdown then (t, j)
      else if okup then (t + 1, j)
      else roundShortest fuel' m e (j - 1)
  end.

(** The decimal digits of [n], most significant first. *)
Definition digits (n : Z) : string :=
  format_digits (S (Z.to_nat (Z.log2 n))) n "".

(** The decimal point of [c] units: the [p] with
    [10 ^ (p - 1) <= c / 2 ^ 1076 < 10 ^ p]. *)
Definition decimal_point (c : Z) : Z :=
  if 2 ^ 1076 <=? c
  then Z.of_nat (String.length (digits (c / 2 ^ 1076)))
  else
    let dg := Z.of_nat (String.length (digits (2 ^ 1076 / c))) in
    if 2 ^ 1076 <=? c * 10 ^ (dg - 1) then 2 - dg else 1 - dg.

(** [trim]: the zeros at the end of the digits are dropped. *)
Fixpoint trim (fuel : nat) (t j : Z) : Z * Z :=
  match fuel with
  | O => (t, j)
  | S fuel' =>
      if (t mod 10 =? 0) && negb (t =? 0) then trim fuel' (t / 10) (j + 1)
      else (t, j)
  end.

(** The shortest digits of [m * 2 ^ e], as an integer, and the weight
    of the last of them. *)
Definition shortest (m : positive) (e : Z) : Z * Z :=
  let p := decimal_point (upper_bound m e) in
  let '(t, j) := roundShortest (Z.to_nat (p - Z.min e 0)) m e (p - 1) in
  trim (S (Z.to_nat (Z.log2 t))) t j.

Fixpoint zeros (n : nat) : string :=
  match n with
  | O => EmptyString
  | S n' => String "0" (zeros n')
  end.

Fixpoint take (n : nat) (s : string) : string :=
  match n, s with
  | S n', String c s' => String c (take n' s')
  | _, _ => EmptyString
  end.

Fixpoint drop (n : nat) (s : string) : string :=
  match n, s with
  | S n', String _ s' => drop n' s'
  | _, _ => s
  end.

(** [fmtE], with all the digits: the first digit, a point before the
    others if there are any, and the exponent with its sign and two
    digits at least.  The digits [ds] stand for [0.ds * 10 ^ dp]. *)
Definition fmtE (ds : string) (dp : Z) : string :=
  let exp := dp - 1 in
  let sign := if exp <? 0 then "-" else "+" in
  let pad := if Z.abs exp <? 10 then "0" else "" in
  let tail := ("e" ++ sign ++ pad ++ digits (Z.abs exp))%string in
  match ds with
  | EmptyString => "0e+00"
  | String d0 EmptyString => String d0 tail
  | String d0 rest => (String d0 (String "." rest) ++ tail)%string
  end.

(** [fmtF], with all the digits: the digits before the point, filled
    with zeros, or one zero; then the point and the digits after it, if
    there are any. *)
Definition fmtF (ds : string) (dp : Z) : string :=
  let nd := Z.of_nat (String.length ds) in
  let integer :=
    if 0 <? dp
    then (take (Z.to_nat dp) ds ++ zeros (Z.to_nat (dp - nd)))%string
    else "0" in
  let fraction :=
    if dp <? nd
    then ("." ++ zeros (Z.to_nat (- dp)) ++ drop (Z.to_nat dp) ds)%string
    else "" in
  (integer ++ fraction)%string.

(** [%e] is used if the exponent is less than -4 or at least 6. *)
Definition FormatFloat (f : float64) : string :=
  match f with
  | S754_nan => "NaN"
  | S754_infinity neg => if neg then "-Inf" else "+Inf"
  | S754_zero neg => if neg then "-0" else "0"
  | S754_finite neg m e =>
      let '(t, j) := shortest m e in
      let ds := digits t in
      let dp := Z.of_nat (String.length ds) + j in
      let body :=
        if (dp - 1 <? - 4) || (6 <=? dp - 1) then fmtE ds dp
        else fmtF ds dp in
      if neg then String "-" body else body
  end.

End strconv.

(** [regexp]: the part of Go's package [regexp] that the parsers use.  A
    compiled expression is its syntax tree; matching is leftmost-first:
    an alternation prefers its left branch, a repetition takes as much
    as it can, and the first position of the text at which the whole
    expression matches wins.  The classes of the patterns of this
    package hold either ASCII bytes only or every byte from 128 on, so
    matching byte by byte gives the captures that Go, which matches rune
    by rune, gives. *)
Module regexp.

Inductive Regexp : Type :=
| Empty                                  (* matches the empty text *)
| Class (p : ascii -> bool)              (* one byte of a class *)
| Cat (r1 r2 : Regexp)                   (* r1 r2 *)
| Alt (r1 r2 : Regexp)                   (* r1|r2 *)
| Star (r : Regexp)                      (* r* *)
| Plus (r : Regexp)                      (* r+ *)
| Group (name : string) (r : Regexp)     (* (r) and (?P<name>r) *)
| Bol                                    (* ^ *)
| Eol.                                   (* $ *)

(** (?:r)? *)
Definition Opt (r : Regexp) : Regexp := Alt r Empty.

(** One given byte. *)
Definition Chr (c : ascii) : Regexp := Class (fun x => bool_decide (x = c)).

(** A literal text. *)
Fixpoint Lit (s : string) : Regexp :=
  match s with
  | EmptyString => Empty
  | String c EmptyString => Chr c
  | String c s' => Cat (Chr c) (Lit s')
  end.

(** r{n} *)
Fixpoint Times (n : nat) (r : Regexp) : Regexp :=
  match n with
  | O => Empty
  | S O => r
  | S n' => Cat r (Times n' r)
  end.

(** r1 r2 ... rn *)
Fixpoint Seq (rs : list Regexp) : Regexp :=
  match rs with
  | [] => Empty
  | [r] => r
  | r :: rs' => Cat r (Seq rs')
  end.

(** r1|r2|...|rn *)
Fixpoint AnyOf (rs : list Regexp) : Regexp :=
  match rs with
  | [] => Empty
  | [r] => r
  | r :: rs' => Alt r (AnyOf rs')
  end.

(** The classes of RE2 that the patterns use. *)
Definition digit : ascii -> bool := is_digit.                       (* \d *)
Definition word (c : ascii) : bool :=                               (* \w *)
  is_digit c || is_upper c || is_lower c || byte_is 95 c.
Definition space (c : ascii) : bool :=                              (* \s *)
  byte_in 9 10 c || byte_in 12 13 c || byte_is 32 c.
Definition nonspace (c : ascii) : bool := negb (space c).           (* \S *)
Definition dot (c : ascii) : bool := negb (byte_is 10 c).           (* . *)
Definition one_of (s : string) (c : ascii) : bool :=                (* [..] *)
  bool_decide (c ∈ list_ascii_of_string s).
Definition none_of (s : string) (c : ascii) : bool := negb (one_of s c).

(** The number of capture groups of an expression. *)
Fixpoint NumSubexp (r : Regexp) : nat :=
  match r with
  | Cat r1 r2 | Alt r1 r2 => NumSubexp r1 + NumSubexp r2
  | Star r1 | Plus r1 => NumSubexp r1
  | Group _ r1 => S (NumSubexp r1)
  | _ => 0
  end%nat.

Fixpoint group_names (r : Regexp) : list string :=
  match r with
  | Cat r1 r2 | Alt r1 r2 => group_names r1 ++ group_names r2
  | Star r1 | Plus r1 => group_names r1
  | Group name r1 => name :: group_names r1
  | _ => []
  end.

(** [SubexpNames]: the names of the groups, in the order of their
    opening parentheses; index 0 is the whole expression and an
    unnamed group has the empty name. *)
Definition SubexpNames (r : Regexp) : list string := "" :: group_names r.

Section Match.
Context {A : Type}.
Variable text : string.

(** [run r base i caps k]: match [r] at byte [i] of the text; [base]
    is the index of the first group of [r], [caps] the captures so
    far and [k] what must match after [r].  A repetition goes on
    only as long as its body consumes text. *)
Fixpoint run (r : Regexp) (base : nat) (i : nat) (caps : list string)
  (k : nat -> list string -> option A) {struct r} : option A :=
  let repeat (r1 : Regexp) :=
    fix repeat (fuel : nat) (i : nat) (caps : list string) : option A :=
      match fuel with
      | O => k i caps
      | S fuel' =>
          match run r1 base i caps
                  (fun j caps' =>
                     if (i <? j)%nat then repeat fuel' j caps' else None)
          with
          | Some x => Some x
          | None => k i caps
          end
      end in
  match r with
  | Empty => k i caps
  | Class p =>
      match String.get i text with
      | Some c => if p c then k (S i) caps else None
      | None => None
      end
  | Cat r1 r2 =>
      run r1 base i caps
        (fun j caps' => run r2 (base + NumSubexp r1)%nat j caps' k)
  | Alt r1 r2 =>
      match run r1 base i caps k with
      | Some x => Some x
      | None => run r2 (base + NumSubexp r1)%nat i caps k
      end
  | Star r1 => repeat r1 (S (String.length text - i)) i caps
  | Plus r1 =>
      run r1 base i caps
        (fun j caps' => repeat r1 (S (String.length text - j)) j caps')
  | Group _ r1 =>
      run r1 (S base) i caps
        (fun j caps' => k j (<[base := substring i (j - i) text]> caps'))
  | Bol => if (i =? 0)%nat then k i caps else None
  | Eol => if (i =? String.length text)%nat then k i caps else None
  end.
End Match.

(** The match of [r] that starts at byte [i], if there is one: where it
    ends, and the text of the whole match and of every group (the
    empty text for a group that took no part). *)
Definition match_at (r : Regexp) (text : string) (i : nat)
  : option (nat * list string) :=
  run text r 1 i (replicate (S (NumSubexp r)) "")
    (fun j caps => Some (j, <[0%nat := substring i (j - i) text]> caps)).

(** The leftmost match that starts at byte [i] or at one of the [n]
    bytes after it. *)
Fixpoint find_from (r : Regexp) (text : string) (n : nat) (i : nat)
  : option (nat * list string) :=
  match match_at r text i with
  | Some m => Some m
  | None =>
      match n with
      | O => None
      | S n' => find_from r text n' (S i)
      end
  end.

(** [FindStringSubmatch]: [None] is Go's nil slice. *)
Definition FindStringSubmatch (r : Regexp) (text : string)
  : option (list string) :=
  snd <$> find_from r text (String.length text) 0.

(** [MatchString]. *)
Definition MatchString (r : Regexp) (text : string) : bool :=
  bool_decide (is_Some (FindStringSubmatch r text)).

(** The successive matches of [r] from byte [pos] on, as [allMatches]
    finds them.  A match that ends where the search for it began is
    empty: it is passed over when the match before it ended there too,
    and the search moves on by one byte. *)
Fixpoint all_matches (r : Regexp) (text : string) (fuel : nat)
  (pos : nat) (prevMatchEnd : option nat) : list (list string) :=
  match fuel with
  | O => []
  | S fuel' =>
      if (String.length text <? pos)%nat then []
      else
        match find_from r text (String.length text - pos) pos with
        | None => []
        | Some (j, caps) =>
            if (j =? pos)%nat then
              let rest := all_matches r text fuel' (S pos) (Some j) in
              if bool_decide (prevMatchEnd = Some pos) then rest
              else caps :: rest
            else caps :: all_matches r text fuel' j (Some j)
        end
  end.

(** [FindAllStringSubmatch(text, -1)]. *)
Definition FindAllStringSubmatch (r : Regexp) (text : string)
  : list (list string) :=
  all_matches r text (S (S (String.length text))) 0 None.

(** [FindAllString(text, -1)]: the text of every match. *)
Definition FindAllString (r : Regexp) (text : string) : list string :=
  (fun caps => default "" (caps !! 0%nat)) <$> FindAllStringSubmatch r text.

End regexp.

(** ** The data model *)

(** The values a field can hold: Go's [any], restricted to the dynamic
    types the parsers and the JSON decoder store. *)
Inductive value : Type :=
| VInt (i : Z)                          (* int *)
| VInt64 (i : Z)                        (* int64 *)
| VFloat64 (f : strconv.float64)        (* float64 *)
| VBool (b : bool)                      (* bool *)
| VString (s : string)                  (* string *)
| VNil                                  (* nil: JSON null *)
| VSlice (l : list value)               (* []any: a JSON array *)
| VMap (m : list (string * value)).     (* map[string]any: a JSON object *)

(** Go's [error] values that the package meets: its three sentinels,
    the errors of [encoding/json] and the errors made by [fmt.Errorf]. *)
Inductive error : Type :=
| ErrNoMatch
| ErrEmptyLine
| ErrInvalidData
| JSONError (msg : string)
| Errorf (msg : string).

Definition Error (e : error) : string :=
  match e with
  | ErrNoMatch => "line does not match parser pattern"
  | ErrEmptyLine => "empty line"
  | ErrInvalidData => "invalid data in line"
  | JSONError msg => msg
  | Errorf msg => msg
  end.

(** A parsed log line. *)
Record Entry : Type := {
  Fields : gmap string value;
  Raw : string;
  LineNum : Z;
  ParseError : option error
}.

Definition NewEntry (raw : string) : Entry :=
  {| Fields := ∅; Raw := raw; LineNum := 0; ParseError := None |}.

Definition set_field (name : string) (v : value) (entry : Entry) : Entry :=
  {| Fields := <[name := v]> (Fields entry); Raw := Raw entry;
     LineNum := LineNum entry; ParseError := ParseError entry |}.

Definition set_ParseError (err : error) (entry : Entry) : Entry :=
  {| Fields := Fields entry; Raw := Raw entry;
     LineNum := LineNum entry; ParseError := Some err |}.

(** The [Parser] interface.  [Parse] returns Go's pair of an entry and
    an error; every parser of the package returns an entry. *)
Record Parser : Type := {
  Name : string;
  Description : string;
  CanParse : string -> bool;
  Parse : string -> Entry * option error
}.

(** ** Type inference *)

Definition inferType (s : string) : value :=
  match strconv.ParseInt s 64 with
  | Some i => VInt64 i
  | None =>
      match strconv.ParseFloat s with
      | Some f => VFloat64 f
      | None =>
          let lower := strings.ToLower s in
          if bool_decide (lower = "true") then VBool true
          else if bool_decide (lower = "false") then VBool false
          else VString s
      end
  end.

(** ** The loop over a match

    [for i, match := range matches]: the body receives the index and the
    element, and the entry it has built so far. *)
Fixpoint range_from {A B : Type} (i : nat) (l : list A)
  (body : nat -> A -> B -> B) (acc : B) : B :=
  match l with
  | [] => acc
  | x :: l' => range_from (S i) l' body (body i x acc)
  end.

Definition range {A B : Type} (l : list A) (body : nat -> A -> B -> B)
  (acc : B) : B := range_from 0 l body acc.

(** [names[i]]: [SubexpNames] is as long as a match, so the index is
    always in range. *)
Definition name_at (names : list string) (i : nat) : string :=
  default "" (names !! i).

Definition no_match (line : string) : Entry * option error :=
  (set_field "raw" (VString line) (set_ParseError ErrNoMatch (NewEntry line)),
   None).

Import regexp.

(** ** The syslog parser *)
Module SyslogParser.

Record t : Type := { pattern : Regexp }.

Definition hms : Regexp :=
  Seq [Times 2 (Class digit); Chr ":"; Times 2 (Class digit); Chr ":";
       Times 2 (Class digit)].

Definition ymd : Regexp :=
  Seq [Times 4 (Class digit); Chr "-"; Times 2 (Class digit); Chr "-";
       Times 2 (Class digit)].

(** The pattern of [NewSyslogParser], its parts set apart by blanks:
    [^ (?P<timestamp> (?: \w{3} \s+ \d{1,2} \s+ \d{2}:\d{2}:\d{2} )
                    | (?: \d{4}-\d{2}-\d{2} T \d{2}:\d{2}:\d{2}
                          (?: \. \d+ )? (?: Z | [+-] \d{2}:\d{2} )? ) )
     \s+ (?P<host> \S+ ) \s+ (?P<program> [^\s\[:]+ )
     (?: \[ (?P<pid> \d+ ) \] )? : \s* (?P<message> .* ) $] *)
Definition New : t :=
  {| pattern :=
       Seq [Bol;
            Group "timestamp"
              (Alt
                 (Seq [Times 3 (Class word); Plus (Class space);
                       Class digit; Opt (Class digit); Plus (Class space);
                       hms])
                 (Seq [ymd; Chr "T"; hms;
                       Opt (Cat (Chr ".") (Plus (Class digit)));
                       Opt (Alt (Chr "Z")
                              (Seq [Class (one_of "+-");
                                    Times 2 (Class digit); Chr ":";
                                    Times 2 (Class digit)]))]));
            Plus (Class space);
            Group "host" (Plus (Class nonspace));
            Plus (Class space);
            Group "program"
              (Plus (Class (fun c => negb (space c || one_of "[:" c))));
            Opt (Seq [Chr "["; Group "pid" (Plus (Class digit)); Chr "]"]);
            Chr ":"; Star (Class space);
            Group "message" (Star (Class dot));
            Eol] |}.

Definition Name (p : t) : string := "syslog".

Definition Description (p : t) : string :=
  "Standard syslog format (RFC 3164/5424)".

Definition CanParse (p : t) (line : string) : bool :=
  MatchString (pattern p) line.

Definition Parse (p : t) (line : string) : Entry * option error :=
  let entry := NewEntry line in
  match FindStringSubmatch (pattern p) line with
  | None => no_match line
  | Some matches =>
      let names := SubexpNames (pattern p) in
      (range matches
         (fun i match_ entry =>
            if bool_decide (i = 0%nat) || bool_decide (name_at names i = "")
               || bool_decide (match_ = "")
            then entry
            else
              if bool_decide (name_at names i = "pid") then
                match strconv.Atoi match_ with
                | Some pid => set_field (name_at names i) (VInt pid) entry
                | None => set_field (name_at names i) (VString match_) entry
                end
              else set_field (name_at names i) (VString match_) entry)
         entry,
       None)
  end.

Definition as_Parser (p : t) : Parser :=
  Build_Parser (Name p) (Description p) (CanParse p) (Parse p).

End SyslogParser.

(** ** The Apache combined log parser *)
Module ApacheParser.

Record t : Type := { pattern : Regexp }.

(** The pattern of [NewApacheParser], its parts set apart by blanks
    and the double quote written \x22:
    [^ (?P<ip> \S+ ) \s+ (?P<ident> \S+ ) \s+ (?P<user> \S+ ) \s+
     \[ (?P<timestamp> [^\]]+ ) \] \s+
     \x22 (?P<method> \S+ ) \s+ (?P<path> \S+ ) \s+
          (?P<protocol> [^\x22]+ ) \x22 \s+
     (?P<status> \d+ ) \s+ (?P<size> \S+ )
     (?: \s+ \x22 (?P<referer> [^\x22]* ) \x22
         \s+ \x22 (?P<useragent> [^\x22]* ) \x22 )?] *)
Definition New : t :=
  let quoted name := Seq [Chr dquote;
                          Group name (Star (Class (fun c => negb (bool_decide (c = dquote)))));
                          Chr dquote] in
  {| pattern :=
       Seq [Bol;
            Group "ip" (Plus (Class nonspace)); Plus (Class space);
            Group "ident" (Plus (Class nonspace)); Plus (Class space);
            Group "user" (Plus (Class nonspace)); Plus (Class space);
            Chr "[";
            Group "timestamp" (Plus (Class (none_of "]")));
            Chr "]"; Plus (Class space);
            Chr dquote;
            Group "method" (Plus (Class nonspace)); Plus (Class space);
            Group "path" (Plus (Class nonspace)); Plus (Class space);
            Group "protocol"
              (Plus (Class (fun c => negb (bool_decide (c = dquote)))));
            Chr dquote; Plus (Class space);
            Group "status" (Plus (Class digit)); Plus (Class space);
            Group "size" (Plus (Class nonspace));
            Opt (Seq [Plus (Class space); quoted "referer";
                      Plus (Class space); quoted "useragent"])] |}.

Definition Name (p : t) : string := "apache".

Definition Description (p : t) : string :=
  "Apache/Nginx Combined Log Format".

Definition CanParse (p : t) (line : string) : bool :=
  MatchString (pattern p) line.

Definition Parse (p : t) (line : string) : Entry * option error :=
  let entry := NewEntry line in
  match FindStringSubmatch (pattern p) line with
  | None => no_match line
  | Some matches =>
      let names := SubexpNames (pattern p) in
      (range matches
         (fun i match_ entry =>
            if bool_decide (i = 0%nat) || bool_decide (name_at names i = "")
               || bool_decide (match_ = "") || bool_decide (match_ = "-")
            then entry
            else
              let name := name_at names i in
              let convert (n : option value) :=
                match n with
                | Some v => set_field name v entry
                | None => set_field name (VString match_) entry
                end in
              if bool_decide (name = "status")
              then convert (VInt <$> strconv.Atoi match_)
              else if bool_decide (name = "size")
              then convert (VInt64 <$> strconv.ParseInt match_ 64)
              else set_field name (VString match_) entry)
         entry,
       None)
  end.

Definition as_Parser (p : t) : Parser :=
  Build_Parser (Name p) (Description p) (CanParse p) (Parse p).

End ApacheParser.

(** ** The generic parser *)
Module GenericParser.

Record t : Type := { patterns : list Regexp }.

(** [DEBUG|INFO|WARN(?:ING)?|ERROR|FATAL|TRACE] *)
Definition level : Regexp :=
  AnyOf [Lit "DEBUG"; Lit "INFO"; Cat (Lit "WARN") (Opt (Lit "ING"));
         Lit "ERROR"; Lit "FATAL"; Lit "TRACE"].

(** [\d{4}-\d{2}-\d{2}[T\s]\d{2}:\d{2}:\d{2}(?:\.\d+)?] *)
Definition stamp : Regexp :=
  Seq [SyslogParser.ymd; Class (fun c => one_of "T" c || space c);
       SyslogParser.hms; Opt (Cat (Chr ".") (Plus (Class digit)))].

(** The four patterns of [NewGenericParser], in their order; the
    blanks set their parts apart.
    - [^ (?P<timestamp> stamp (?: Z | [+-]\d{2}:?\d{2} )? ) \s+
         (?P<level> level ) \s+ (?P<message> .+ ) $]
    - [^ (?P<level> level ) \s+ (?P<timestamp> stamp ) \s+
         (?P<message> .+ ) $]
    - [^ (?: (?P<timestamp> stamp ) \s+ )? \[ (?P<level> level ) \] \s+
         (?P<message> .+ ) $]
    - [^ (?P<level> level ) [:\-\s]+ (?P<message> .+ ) $] *)
Definition New : t :=
  let message := Group "message" (Plus (Class dot)) in
  {| patterns :=
       [ Seq [Bol;
              Group "timestamp"
                (Cat stamp
                   (Opt (Alt (Chr "Z")
                           (Seq [Class (one_of "+-"); Times 2 (Class digit);
                                 Opt (Chr ":"); Times 2 (Class digit)]))));
              Plus (Class space); Group "level" level; Plus (Class space);
              message; Eol];
         Seq [Bol; Group "level" level; Plus (Class space);
              Group "timestamp" stamp; Plus (Class space); message; Eol];
         Seq [Bol;
              Opt (Cat (Group "timestamp" stamp) (Plus (Class space)));
              Chr "["; Group "level" level; Chr "]"; Plus (Class space);
              message; Eol];
         Seq [Bol; Group "level" level;
              Plus (Class (fun c => one_of ":-" c || space c));
              message; Eol] ] |}.

Definition Name (p : t) : string := "generic".

Definition Description (p : t) : string :=
  "Generic timestamp/level patterns (fallback)".

Definition CanParse (p : t) (line : string) : bool := true.

(** The loop [for _, pattern := range p.patterns]: the fields of the
    first pattern that matches. *)
Fixpoint try_patterns (ps : list Regexp) (line : string) (entry : Entry)
  : option Entry :=
  match ps with
  | [] => None
  | pattern :: ps' =>
      match FindStringSubmatch pattern line with
      | Some matches =>
          let names := SubexpNames pattern in
          Some
            (range matches
               (fun i match_ entry =>
                  if bool_decide (i = 0%nat)
                     || bool_decide (name_at names i = "")
                     || bool_decide (match_ = "")
                  then entry
                  else
                    let match_ :=
                      if bool_decide (name_at names i = "level")
                      then strings.ToUpper match_ else match_ in
                    set_field (name_at names i) (VString match_) entry)
               entry)
      | None => try_patterns ps' line entry
      end
  end.

Definition Parse (p : t) (line : string) : Entry * option error :=
  let entry := NewEntry line in
  let trimmed := strings.TrimSpace line in
  if bool_decide (trimmed = "") then
    (set_ParseError ErrEmptyLine (set_field "message" (VString "") entry),
     None)
  else
    match try_patterns (patterns p) line entry with
    | Some entry => (entry, None)
    | None => (set_field "message" (VString trimmed) entry, None)
    end.

Definition as_Parser (p : t) : Parser :=
  Build_Parser (Name p) (Description p) (CanParse p) (Parse p).

End GenericParser.

(** ** The key=value parser *)
Module KeyValueParser.

Record t : Type := { pattern : Regexp }.

(** The pattern of [NewKeyValueParser], its parts set apart by blanks
    and the double quote written \x22:
    [( \w+ ) = (?: \x22 ( [^\x22]* ) \x22 | ' ( [^']* ) ' | ( \S+ ) )] *)
Definition New : t :=
  {| pattern :=
       Seq [Group "" (Plus (Class word)); Chr "=";
            AnyOf [Seq [Chr dquote;
                        Group "" (Star (Class (fun c => negb (bool_decide (c = dquote)))));
                        Chr dquote];
                   Seq [Chr "'"; Group "" (Star (Class (none_of "'")));
                        Chr "'"];
                   Group "" (Plus (Class nonspace))]] |}.

Definition Name (p : t) : string := "kv".

Definition Description (p : t) : string :=
  "Key=value format (logfmt style)".

Definition CanParse (p : t) (line : string) : bool :=
  bool_decide (2 <= length (FindAllString (pattern p) line))%nat.

(** [match[i]] *)
Definition sub (match_ : list string) (i : nat) : string :=
  default "" (match_ !! i).

(** The value of one pair: the double-quoted, the single-quoted or
    the bare text, whichever is the first not to be empty. *)
Definition pair_value (match_ : list string) : string :=
  if negb (bool_decide (sub match_ 2 = "")) then sub match_ 2
  else if negb (bool_decide (sub match_ 3 = "")) then sub match_ 3
  else sub match_ 4.

Definition Parse (p : t) (line : string) : Entry * option error :=
  let entry := NewEntry line in
  let matches := FindAllStringSubmatch (pattern p) line in
  if bool_decide (length matches = 0%nat) then no_match line
  else
    (foldl
       (fun entry match_ =>
          let key := sub match_ 1 in
          let value := pair_value match_ in
          set_field key (inferType value) entry)
       entry matches,
     None).

Definition as_Parser (p : t) : Parser :=
  Build_Parser (Name p) (Description p) (CanParse p) (Parse p).

End KeyValueParser.

(** ** The parser of a user pattern *)
Module RegexParser.

Record t : Type := { pattern : Regexp; patternText : string }.

(** [NewRegexParser], for a pattern text that [regexp.Compile] has
    compiled to [compiled]: the pattern must have a named group. *)
Definition New (patternText : string) (compiled : Regexp) : t + error :=
  let names := SubexpNames compiled in
  let hasNamedGroup :=
    existsb (fun name => negb (bool_decide (name = ""))) names in
  if negb hasNamedGroup
  then inr (Errorf "pattern must have at least one named group: (?P<name>...)")
  else inl {| pattern := compiled; patternText := patternText |}.

Definition Name (p : t) : string := "regex".

Definition Description (p : t) : string :=
  "Custom regex pattern: " ++ patternText p.

Definition CanParse (p : t) (line : string) : bool :=
  MatchString (pattern p) line.

Definition Parse (p : t) (line : string) : Entry * option error :=
  let entry := NewEntry line in
  match FindStringSubmatch (pattern p) line with
  | None => no_match line
  | Some matches =>
      let names := SubexpNames (pattern p) in
      (range matches
         (fun i match_ entry =>
            if bool_decide (i = 0%nat) || bool_decide (name_at names i = "")
            then entry
            else set_field (name_at names i) (inferType match_) entry)
         entry,
       None)
  end.

Definition as_Parser (p : t) : Parser :=
  Build_Parser (Name p) (Description p) (CanParse p) (Parse p).

(** [NewRegexParser]: [regexp_Compile] is [regexp.Compile], which
    returns the compiled pattern or an error. *)
Definition NewRegexParser (regexp_Compile : string -> Regexp + error)
  (patternText : string) : t + error :=
  match regexp_Compile patternText with
  | inr err => inr (Errorf ("invalid regex pattern: " ++ Error err))
  | inl compiled => New patternText compiled
  end.

End RegexParser.

(** ** The JSON parser

    [encoding/json] is a parameter: [json_Unmarshal line] is the map
    that [json.Unmarshal([]byte(line), &entry.Fields)] leaves in the
    fresh entry, and the error it returns. *)
Module JSONParser.
Section WithJSON.

Variable json_Unmarshal : string -> gmap string value * option error.

Definition Name : string := "json".

Definition Description : string :=
  "JSON formatted logs (already structured)".

Definition CanParse (line : string) : bool :=
  let trimmed := strings.TrimSpace line in
  bool_decide (2 <= String.length trimmed)%nat
  && bool_decide (String.get 0 trimmed = Some "{"%char)
  && bool_decide (String.get (String.length trimmed - 1) trimmed
                  = Some "}"%char).

Definition Parse (line : string) : Entry * option error :=
  let entry := NewEntry line in
  let '(fields, err) := json_Unmarshal line in
  let entry :=
    {| Fields := fields; Raw := Raw entry; LineNum := LineNum entry;
       ParseError := ParseError entry |} in
  match err with
  | Some err =>
      (set_field "_parseError" (VString (Error err))
         (set_field "raw" (VString line) (set_ParseError err entry)),
       None)
  | None => (entry, None)
  end.

Definition as_Parser : Parser :=
  Build_Parser Name Description CanParse Parse.

End WithJSON.
End JSONParser.

(** ** The registry *)
Module Registry.

Record t : Type := {
  parsers : list Parser;
  cached : option Parser;
  adaptive : bool;
  forcedFormat : string
}.

Definition Register (r : t) (p : Parser) : t :=
  {| parsers := parsers r ++ [p]; cached := cached r;
     adaptive := adaptive r; forcedFormat := forcedFormat r |}.

Definition set_cached (p : Parser) (r : t) : t :=
  {| parsers := parsers r; cached := Some p; adaptive := adaptive r;
     forcedFormat := forcedFormat r |}.

(** The loop of [GetParser]: the first parser of that lowered name. *)
Fixpoint lookup_name (ps : list Parser) (name : string) : option Parser :=
  match ps with
  | [] => None
  | p :: ps' =>
      if bool_decide (strings.ToLower (Name p) = name) then Some p
      else lookup_name ps' name
  end.

Definition GetParser (r : t) (name : string) : option Parser :=
  lookup_name (parsers r) (strings.ToLower name).

(** [ListParsers]: the name and the description of every registered
    parser, in the order of registration. *)
Definition ListParsers (r : t) : list (string * string) :=
  (fun p => (Name p, Description p)) <$> parsers r.

(** The loop of auto-detection: the first parser, in the order of
    registration, that can parse the line and parses it without an
    error and without a parse error; with it, its entry. *)
Fixpoint detect (ps : list Parser) (line : string)
  : option (Parser * Entry) :=
  match ps with
  | [] => None
  | p :: ps' =>
      if CanParse p line then
        match Parse p line with
        | (entry, None) =>
            match ParseError entry with
            | None => Some (p, entry)
            | Some _ => detect ps' line
            end
        | (_, Some _) => detect ps' line
        end
      else detect ps' line
  end.

(** What [Parse] returns: Go's pair of an entry, nil when the call
    fails, and an error. *)
Definition result : Type := option Entry * option error.

(** [return parser.Parse(line)] *)
Definition delegate (p : Parser) (line : string) : result :=
  (Some (fst (Parse p line)), snd (Parse p line)).

(** [Registry.Parse]: the registry after the call, and the result. *)
Definition Parse (r : t) (line : string) : t * result :=
  if bool_decide (strings.TrimSpace line = "") then
    (r, (Some (set_ParseError ErrEmptyLine (NewEntry line)), None))
  else if negb (bool_decide (forcedFormat r = "")) then
    match GetParser r (forcedFormat r) with
    | None =>
        (r, (None, Some (Errorf ("unknown format: " ++ forcedFormat r))))
    | Some parser => (r, delegate parser line)
    end
  else
    match negb (adaptive r), cached r with
    | true, Some c => (r, delegate c line)
    | _, _ =>
        match detect (parsers r) line with
        | Some (p, entry) =>
            (if negb (adaptive r)
                && bool_decide (cached r = None :> option Parser)
             then set_cached p r else r,
             (Some entry, None))
        | None =>
            match GetParser r "generic" with
            | Some generic => (r, delegate generic line)
            | None =>
                (r, (Some (set_field "raw" (VString line)
                             (set_ParseError ErrNoMatch (NewEntry line))),
                     None))
            end
        end
    end.

End Registry.

Definition RegistryOption : Type := Registry.t -> Registry.t.

Definition WithAdaptiveMode : RegistryOption :=
  fun r =>
    {| Registry.parsers := Registry.parsers r;
       Registry.cached := Registry.cached r;
       Registry.adaptive := true;
       Registry.forcedFormat := Registry.forcedFormat r |}.

Definition WithForcedFormat (format : string) : RegistryOption :=
  fun r =>
    {| Registry.parsers := Registry.parsers r;
       Registry.cached := Registry.cached r;
       Registry.adaptive := Registry.adaptive r;
       Registry.forcedFormat := strings.ToLower format |}.

(** [NewRegistry]: the options, then the five built-in parsers in their
    order of priority. *)
Definition NewRegistry
  (json_Unmarshal : string -> gmap string value * option error)
  (opts : list RegistryOption) : Registry.t :=
  let r := {| Registry.parsers := []; Registry.cached := None;
              Registry.adaptive := false; Registry.forcedFormat := "" |} in
  let r := foldl (fun r opt => opt r) r opts in
  let r := Registry.Register r (JSONParser.as_Parser json_Unmarshal) in
  let r := Registry.Register r (KeyValueParser.as_Parser KeyValueParser.New) in
  let r := Registry.Register r (SyslogParser.as_Parser SyslogParser.New) in
  let r := Registry.Register r (ApacheParser.as_Parser ApacheParser.New) in
  let r := Registry.Register r (GenericParser.as_Parser GenericParser.New) in
  r.

(** ** The emitter (package emitter) *)

Definition set_LineNum (n : Z) (entry : Entry) : Entry :=
  {| Fields := Fields entry; Raw := Raw entry; LineNum := n;
     ParseError := ParseError entry |}.

Module emitter.

(** [entry.Fields] *)
Definition entry_Fields (entry : Entry) : gmap string value := Fields entry.

Record Options : Type := {
  Pretty : bool;
  Fields : list string;
  AddTimestamp : bool;
  AddLineNumber : bool;
  AddRaw : bool;
  OmitEmpty : bool
}.

(** [buildOutput]; [now] is the text of
    [time.Now().UTC().Format(time.RFC3339Nano)]. *)
Definition buildOutput (options : Options) (now : string) (entry : Entry)
  : gmap string value :=
  let output :=
    if bool_decide (0 < length (Fields options))%nat then
      foldl
        (fun output field =>
           match entry_Fields entry !! field with
           | Some val => <[field := val]> output
           | None => output
           end)
        ∅ (Fields options)
    else entry_Fields entry in
  let output :=
    if AddTimestamp options
    then <["_ingestTime" := VString now]> output else output in
  let output :=
    if AddLineNumber options
    then <["_lineNumber" := VInt (LineNum entry)]> output else output in
  let output :=
    if AddRaw options
    then <["_raw" := VString (Raw entry)]> output else output in
  match ParseError entry with
  | Some err => <["_parseError" := VString (Error err)]> output
  | None => output
  end.

(** [Emit]: the object that is handed to the JSON encoder, if one is,
    and the error returned.  [Encode] stands for the encoder and the
    flush of the writer: the error of writing one object. *)
Definition Emit (options : Options)
  (Encode : gmap string value -> option error) (now : string)
  (entry : Entry) : option (gmap string value) * option error :=
  if OmitEmpty options && bool_decide (is_Some (ParseError entry))
  then (None, None)
  else
    let output := buildOutput options now entry in
    (Some output, Encode output).

End emitter.

(** ** The reader (package reader) *)
Module reader.

Record Line : Type := {
  Text : string;
  Number : Z;
  Err : option error
}.

(** A [StreamReader] over a [bufio.Scanner]: the scanner is what it
    will yield, the texts of its successive [Scan] calls and the error
    of [scanner.Err()] after the last one. *)
Record StreamReader : Type := {
  scanner : list string * option error;
  lineNumber : Z
}.

Definition New (scanner : list string * option error) : StreamReader :=
  {| scanner := scanner; lineNumber := 0 |}.

(** The loop [for r.scanner.Scan()]: the lines, and the line number
    after the loop. *)
Fixpoint scan_loop (texts : list string) (lineNumber : Z) : list Line * Z :=
  match texts with
  | [] => ([], lineNumber)
  | text :: texts' =>
      let lineNumber := lineNumber + 1 in
      let '(lines, last) := scan_loop texts' lineNumber in
      ({| Text := text; Number := lineNumber; Err := None |} :: lines, last)
  end.

(** [Lines]: the values sent on the channel, in their order. *)
Definition Lines (r : StreamReader) : list Line :=
  let '(lines, lineNumber) := scan_loop (fst (scanner r)) (lineNumber r) in
  match snd (scanner r) with
  | Some err =>
      lines ++ [{| Text := ""; Number := lineNumber + 1; Err := Some err |}]
  | None => lines
  end.

(** [ReadAll] *)
Definition ReadAll (r : StreamReader) : list Line * option error :=
  let '(lines, _) := scan_loop (fst (scanner r)) (lineNumber r) in
  (lines, snd (scanner r)).

End reader.

(** ** The pipeline (package main) *)
Module main.

Record Config : Type := {
  Format : string;
  Pattern : string;
  Adaptive : bool;
  Pretty : bool;
  Fields : list string;
  AddTimestamp : bool;
  AddLineNumber : bool;
  AddRaw : bool;
  OmitEmpty : bool;
  Quiet : bool;
  Verbose : bool;
  List : bool;
  Help : bool;
  Version : bool
}.

(** What a run leaves behind: the objects handed to the JSON encoder,
    the messages printed on the error output, and the error returned. *)
Record Run : Type := {
  written : list (gmap string value);
  messages : list string;
  returned : option error
}.

(** The state of the loop over the lines. *)
Record Loop : Type := {
  registry : Registry.t;
  lineCount : Z;
  errorCount : Z;
  out : list (gmap string value);
  err_out : list string
}.

Definition newline : string := String (ascii_of_N 10) "".

Section WithWorld.

(** The world around the pipeline: the JSON decoder, the pattern
    compiler, the quoting of [%q], the encoder with its writer, and the
    clock, read once for each line. *)
Variable json_Unmarshal : string -> gmap string value * option error.
Variable regexp_Compile : string -> Regexp + error.
Variable Quote : string -> string.
Variable Encode : gmap string value -> option error.
Variable clock : Z -> string.

(** The first part of [runPipeline]: the registry, or the error that
    ends the run before any line is read. *)
Definition pipeline_registry (cfg : Config) : Registry.t + error :=
  let regOpts := [] in
  let regOpts :=
    if negb (bool_decide (Format cfg = ""))
    then regOpts ++ [WithForcedFormat (Format cfg)] else regOpts in
  let regOpts :=
    if Adaptive cfg then regOpts ++ [WithAdaptiveMode] else regOpts in
  let registry := NewRegistry json_Unmarshal regOpts in
  if negb (bool_decide (Format cfg = "")) && bool_decide (Pattern cfg = "")
     && negb (bool_decide (is_Some (Registry.GetParser registry (Format cfg))))
  then
    inr (Errorf ("unknown format " ++ Quote (Format cfg)
                 ++ "; use --list to see available formats"))
  else if negb (bool_decide (Pattern cfg = "")) then
    match RegexParser.NewRegexParser regexp_Compile (Pattern cfg) with
    | inr err => inr (Errorf ("invalid pattern: " ++ Error err))
    | inl regexParser =>
        inl (Registry.Register
               (NewRegistry json_Unmarshal [WithForcedFormat "regex"])
               (RegexParser.as_Parser regexParser))
    end
  else inl registry.

Definition emitOpts (cfg : Config) : emitter.Options :=
  {| emitter.Pretty := Pretty cfg;
     emitter.Fields := Fields cfg;
     emitter.AddTimestamp := AddTimestamp cfg;
     emitter.AddLineNumber := AddLineNumber cfg;
     emitter.AddRaw := AddRaw cfg;
     emitter.OmitEmpty := OmitEmpty cfg |}.

(** A message on the error output, unless the run is quiet. *)
Definition warn (cfg : Config) (what : string) (number : Z) (err : error)
  (st : Loop) : list string :=
  if negb (Quiet cfg)
  then err_out st ++ [(what ++ " error at line " ++ strconv.FormatInt number
                       ++ ": " ++ Error err ++ newline)%string]
  else err_out st.

(** One turn of the loop [for line := range streamReader.Lines()]. *)
Definition step (cfg : Config) (st : Loop) (line : reader.Line) : Loop :=
  let lineCount := lineCount st + 1 in
  match reader.Err line with
  | Some err =>
      {| registry := registry st; lineCount := lineCount;
         errorCount := errorCount st + 1; out := out st;
         err_out := warn cfg "read" (reader.Number line) err st |}
  | None =>
      let '(registry, (entry, err)) :=
        Registry.Parse (registry st) (reader.Text line) in
      match err, entry with
      | Some err, _ =>
          {| registry := registry; lineCount := lineCount;
             errorCount := errorCount st + 1; out := out st;
             err_out := warn cfg "parse" (reader.Number line) err st |}
      | None, None =>
          (* no parser of the package returns neither an entry nor an
             error *)
          {| registry := registry; lineCount := lineCount;
             errorCount := errorCount st; out := out st;
             err_out := err_out st |}
      | None, Some entry =>
          let entry := set_LineNum (reader.Number line) entry in
          let '(object, err) :=
            emitter.Emit (emitOpts cfg) Encode (clock (reader.Number line))
              entry in
          let out :=
            match object with
            | Some object => out st ++ [object]
            | None => out st
            end in
          match err with
          | Some err =>
              {| registry := registry; lineCount := lineCount;
                 errorCount := errorCount st + 1; out := out;
                 err_out := warn cfg "output" (reader.Number line) err st |}
          | None =>
              {| registry := registry; lineCount := lineCount;
                 errorCount := errorCount st; out := out;
                 err_out := err_out st |}
          end
      end
  end.

(** [runPipeline], on the input as the scanner of the reader splits
    it. *)
Definition runPipeline (cfg : Config)
  (input : list string * option error) : Run :=
  match pipeline_registry cfg with
  | inr err => {| written := []; messages := []; returned := Some err |}
  | inl registry =>
      let st :=
        foldl (step cfg)
          {| registry := registry; lineCount := 0; errorCount := 0;
             out := []; err_out := [] |}
          (reader.Lines (reader.New input)) in
      {| written := out st;
         messages :=
           if Verbose cfg
           then err_out st ++ [("processed "
                                ++ strconv.FormatInt (lineCount st)
                                ++ " lines, "
                                ++ strconv.FormatInt (errorCount st)
                                ++ " errors" ++ newline)%string]
           else err_out st;
         returned := None |}
  end.

End WithWorld.
End main.

(** ** Notions used by the statements *)

Fixpoint all_digits (s : string) : bool :=
  match s with
  | EmptyString => true
  | String c s' => is_digit c && all_digits s'
  end.

(** A decimal numeral of 1 to 18 digits: the text of a status code or of
    a response size in a well-formed access log line. *)
Definition decimal (s : string) : bool :=
  bool_decide (1 <= String.length s <= 18)%nat && all_digits s.

(** The value that the loop of the syslog parser stores for the group
    [name] whose text is [text]. *)
Definition syslog_value (name text : string) : value :=
  if bool_decide (name = "pid") then
    match strconv.Atoi text with
    | Some pid => VInt pid
    | None => VString text
    end
  else VString text.

(** The value that the loop of the Apache parser stores for the group
    [name] whose text is [text]. *)
Definition apache_value (name text : string) : value :=
  if bool_decide (name = "status") then
    match strconv.Atoi text with
    | Some status => VInt status
    | None => VString text
    end
  else if bool_decide (name = "size") then
    match strconv.ParseInt text 64 with
    | Some size => VInt64 size
    | None => VString text
    end
  else VString text.

(** A parser that never returns a Go error and always keeps the line in
    [Raw]. *)
Definition nil_error (p : Parser) : Prop :=
  forall line, snd (Parse p line) = None /\ Raw (fst (Parse p line)) = line.

(** The options that the package offers. *)
Inductive known_option : RegistryOption -> Prop :=
| known_adaptive : known_option WithAdaptiveMode
| known_forced format : known_option (WithForcedFormat format).

(** The registries a program can reach: made by [NewRegistry] from the
    options of the package, extended by [Register] with parsers of user
    patterns, and used by [Parse]. *)
Inductive reachable
  (json_Unmarshal : string -> gmap string value * option error)
  : Registry.t -> Prop :=
| reach_new opts :
    Forall known_option opts -> reachable json_Unmarshal
                                  (NewRegistry json_Unmarshal opts)
| reach_register r p :
    reachable json_Unmarshal r ->
    reachable json_Unmarshal (Registry.Register r (RegexParser.as_Parser p))
| reach_parse r line :
    reachable json_Unmarshal r ->
    reachable json_Unmarshal (fst (Registry.Parse r line)).

(** The entry of the registry for a blank line. *)
Definition empty_line_entry (line : string) : Entry :=
  {| Fields := ∅; Raw := line; LineNum := 0; ParseError := Some ErrEmptyLine |}.

(** What auto-detection falls back on when no parser took the line: the
    generic parser if one is registered, else the line as [raw] with the
    no-match error. *)
Definition generic_fallback (r : Registry.t) (line : string)
  : Registry.result :=
  match Registry.GetParser r "generic" with
  | Some generic => Registry.delegate generic line
  | None =>
      (Some (set_field "raw" (VString line)
               (set_ParseError ErrNoMatch (NewEntry line))), None)
  end.

(** The name [name] is the name of group [i] and of no other group. *)
Definition names_once (names : list string) (i : nat) (name : string) : Prop :=
  names !! i = Some name /\ forall j, names !! j = Some name -> j = i.

(** An entry under construction for [line]: its raw text is the line
    and it carries no parse error. *)
Definition building (line : string) (entry : Entry) : Prop :=
  Raw entry = line /\ ParseError entry = None.

(** The parsers of a new registry: the five built-in parsers, in their
    order. *)
Definition builtin_parsers
  (json_Unmarshal : string -> gmap string value * option error)
  : list Parser :=
  [JSONParser.as_Parser json_Unmarshal;
   KeyValueParser.as_Parser KeyValueParser.New;
   SyslogParser.as_Parser SyslogParser.New;
   ApacheParser.as_Parser ApacheParser.New;
   GenericParser.as_Parser GenericParser.New].

(** The entry of the generic parser for a line that no pattern
    matches: the trimmed line as its message. *)
Definition message_entry (line : string) : Entry :=
  set_field "message" (VString (strings.TrimSpace line)) (NewEntry line).

(** A registry that serves every line: a registry a program can reach
    whose forced format, if one is forced, names a registered parser. *)
Definition serving
  (json_Unmarshal : string -> gmap string value * option error)
  (r : Registry.t) : Prop :=
  reachable json_Unmarshal r
  /\ (Registry.forcedFormat r = ""
      \/ is_Some (Registry.GetParser r (Registry.forcedFormat r))).

(** What one line leaves in the output: the object that the emitter
    builds, at the time of the line, from an entry for the text of the
    line that bears the number of the line. *)
Definition emitted (clock : Z -> string) (cfg : main.Config)
  (line : reader.Line) (object : gmap string value) : Prop :=
  exists entry,
    Raw entry = reader.Text line
    /\ object = emitter.buildOutput (main.emitOpts cfg)
                  (clock (reader.Number line))
                  (set_LineNum (reader.Number line) entry).

(** The bytes that can stand before the level in a line that a pattern
    of the generic parser matches: the bytes of a timestamp, white
    space and the opening bracket. *)
Definition lead (c : ascii) : bool :=
  is_digit c || space c || one_of "-:.+TZ[" c.

Fixpoint all_lead (s : string) : bool :=
  match s with
  | EmptyString => true
  | String c s' => lead c && all_lead s'
  end.

(** The level keywords of the generic patterns; WARNING begins with
    WARN. *)
Definition level_keywords : list string :=
  ["DEBUG"; "INFO"; "WARN"; "ERROR"; "FATAL"; "TRACE"].

(** [consumes P r]: every byte that [r] takes from a text is in the
    class [P]. *)
Fixpoint consumes (P : ascii -> bool) (r : Regexp) : Prop :=
  match r with
  | Class p => forall c, p c = true -> P c = true
  | Cat r1 r2 | Alt r1 r2 => consumes P r1 /\ consumes P r2
  | Star r1 | Plus r1 | Group _ r1 => consumes P r1
  | Empty | Bol | Eol => True
  end.

(** The bytes of [text] from [i] up to [j] are in the class [P]. *)
Definition between (P : ascii -> bool) (text : string) (i j : nat) : Prop :=
  forall p, (i <= p < j)%nat ->
            exists c, String.get p text = Some c /\ P c = true.

(** The text [word] stands at byte [j] of [text]. *)
Definition stands_at (word text : string) (j : nat) : Prop :=
  forall q c, String.get q word = Some c ->
              String.get (j + q) text = Some c.

(** A text of ASCII bytes.  On such a text [strings.ToLower] and
    [strings.ToUpper] above are Go's; on other texts Go also maps the
    letters of other scripts, which the model leaves as they are. *)
Fixpoint is_ascii (s : string) : bool :=
  match s with
  | EmptyString => true
  | String c s' => (byte_val c <? 128)%N && is_ascii s'
  end.

(** *** The text of a float *)

(** [n / d] is within the bounds of [m * 2 ^ e]; the bounds themselves
    are, when the mantissa is even. *)
Definition within (m : positive) (e : Z) (n d : Z) : bool :=
  let x := n * 2 ^ 1076 in
  if Z.even (Zpos m)
  then (strconv.lower_bound m e * d <=? x) && (x <=? strconv.upper_bound m e * d)
  else (strconv.lower_bound m e * d <? x) && (x <? strconv.upper_bound m e * d).

(** The decimal [t * 10 ^ j] as a ratio of integers, the way [scale]
    has it. *)
Definition dec_ratio (t j : Z) : Z * Z :=
  if 0 <=? j then (t * 10 ^ j, 1) else (t, 10 ^ (- j)).

(** The bytes of the text of a float: a digit, the point, the exponent
    byte or a sign. *)
Definition plain (c : ascii) : bool :=
  is_digit c || byte_is 46 c || byte_is 101 c || byte_is 43 c || byte_is 45 c.

Fixpoint all_plain (s : string) : bool :=
  match s with
  | EmptyString => true
  | String c s' => plain c && all_plain s'
  end.

(** The state of the digit loop of [readFloat] before the first byte. *)
Definition mantissa_start : strconv.mantissa :=
  {| strconv.m_val := 0; strconv.m_frac := 0;
     strconv.m_dot := false; strconv.m_digits := false |}.

(** ** Sample lines *)

Definition quote (s : string) : string := String dquote (s ++ String dquote "").

(** The JSON line and the two syslog lines of the registry tests. *)
Definition json_line : string :=
  "{" ++ quote "level" ++ ": " ++ quote "info" ++ "}".
Definition syslog_line : string :=
  "Jan 15 10:30:45 myhost sshd[1234]: message".
Definition syslog_line_nopid : string :=
  "Jan 15 10:30:45 myhost kernel: some kernel message".

(** An access log line whose ident and user are absent. *)
Definition apache_line : string :=
  "10.0.0.1 - - [15/Jan/2024:10:30:45 +0000] " ++ quote "POST /api HTTP/1.1"
  ++ " 201 56 " ++ quote "http://example.com" ++ " " ++ quote "curl/7.68".

(** What [encoding/json] answers on the sample lines: the JSON line
    decodes to its one field and the syslog line is rejected at its
    first byte; on any other text this decoder reports the error that
    [encoding/json] reports on a blank text. *)
Definition json_sample (s : string) : gmap string value * option error :=
  if bool_decide (s = json_line)
  then ({[ "level" := VString "info" ]}, None)
  else if bool_decide (s = syslog_line)
  then (∅, Some (JSONError "invalid character 'J' looking for beginning of value"))
  else (∅, Some (JSONError "unexpected end of JSON input")).

(** The registry of the default, strict mode; the same registry once a
    first JSON line has made the JSON parser its cache; and the registry
    of the adaptive mode. *)
Definition strict_registry : Registry.t := NewRegistry json_sample [].
Definition json_cached_registry : Registry.t :=
  Registry.set_cached (JSONParser.as_Parser json_sample) strict_registry.
Definition adaptive_registry : Registry.t :=
  NewRegistry json_sample [WithAdaptiveMode].

(** The entries of the two sample lines: the JSON line as the JSON
    parser decodes it, the syslog line as the JSON parser rejects it and
    as the syslog parser reads it. *)
Definition json_line_entry : Entry :=
  {| Fields := {[ "level" := VString "info" ]}; Raw := json_line;
     LineNum := 0; ParseError := None |}.
Definition syslog_line_rejected : Entry :=
  {| Fields :=
       <[ "_parseError" :=
            VString "invalid character 'J' looking for beginning of value" ]>
         {[ "raw" := VString syslog_line ]};
     Raw := syslog_line; LineNum := 0;
     ParseError :=
       Some (JSONError "invalid character 'J' looking for beginning of value") |}.
Definition syslog_line_entry : Entry :=
  {| Fields :=
       <[ "message" := VString "message" ]>
         (<[ "pid" := VInt 1234 ]>
            (<[ "program" := VString "sshd" ]>
               (<[ "host" := VString "myhost" ]>
                  {[ "timestamp" := VString "Jan 15 10:30:45" ]})));
     Raw := syslog_line; LineNum := 0; ParseError := None |}.

(** A user pattern whose first group can match the empty text:
    [(?P<a>x?)(?P<b>y)]. *)
Definition pattern_ab : Regexp :=
  Cat (Group "a" (Opt (Chr "x"))) (Group "b" (Chr "y")).

Definition parser_ab : RegexParser.t :=
  {| RegexParser.pattern := pattern_ab;
     RegexParser.patternText := "(?P<a>x?)(?P<b>y)" |}.

(** The binary64 number one. *)
Definition float_one : strconv.float64 :=
  S754_finite false 4503599627370496 (-52).

(** The float nearest to 0.1, [%v] prints it as 0.1; and the float
    that [%v] prints as 6.02214076e+23. *)
Definition float_tenth : strconv.float64 :=
  S754_finite false 7205759403792794 (- 56).

Definition float_large : strconv.float64 :=
  S754_finite false 8973689019680023 26.


(** The configuration of a run without flags, as [parseFlags] returns
    it; the same with a forced format; and a configuration with a
    pattern, a format and the adaptive mode at once. *)
Definition default_config : main.Config :=
  {| main.Format := ""; main.Pattern := ""; main.Adaptive := false;
     main.Pretty := false; main.Fields := []; main.AddTimestamp := false;
     main.AddLineNumber := false; main.AddRaw := false;
     main.OmitEmpty := false; main.Quiet := false; main.Verbose := false;
     main.List := false; main.Help := false; main.Version := false |}.
Definition apache_config : main.Config :=
  {| main.Format := "Apache"; main.Pattern := ""; main.Adaptive := false;
     main.Pretty := false; main.Fields := []; main.AddTimestamp := false;
     main.AddLineNumber := false; main.AddRaw := false;
     main.OmitEmpty := false; main.Quiet := false; main.Verbose := false;
     main.List := false; main.Help := false; main.Version := false |}.
Definition pattern_config : main.Config :=
  {| main.Format := "syslog"; main.Pattern := "(?P<a>x?)(?P<b>y)";
     main.Adaptive := true;
     main.Pretty := false; main.Fields := []; main.AddTimestamp := false;
     main.AddLineNumber := false; main.AddRaw := false;
     main.OmitEmpty := true; main.Quiet := false; main.Verbose := false;
     main.List := false; main.Help := false; main.Version := false |}.

(** A pattern compiler that knows the sample pattern, an encoder that
    never fails and a clock that stands still. *)
Definition compile_sample (patternText : string) : Regexp + error :=
  if bool_decide (patternText = "(?P<a>x?)(?P<b>y)") then inl pattern_ab
  else inr (Errorf "error parsing regexp").
Definition encode_sample (object : gmap string value) : option error := None.
Definition clock_sample (number : Z) : string := "2024-01-15T10:30:45Z".

(** The body of a loop over a match: split on its tests. *)
Ltac loop_body :=
  intros; repeat (case_bool_decide || case_match || simpl); auto.

(** * Properties *)

(** ** The registry: blank lines and forced formats *)

(** C2 (amended).  For every line that is empty or all white space,
    [Registry.Parse] returns, with a nil error, an entry whose parse
    error is the empty-line error, whose raw text is the line and whose
    field map is empty: the entry has no [message] field.  The registry
    is left as it was and no parser is consulted, whatever parsers,
    cache and forced format the registry holds. *)
Theorem Registry_Parse_blank (r : Registry.t) (line : string) :
  strings.TrimSpace line = "" ->
  Registry.Parse r line = (r, (Some (empty_line_entry line), None))
  /\ Fields (empty_line_entry line) = ∅.
Proof.
  intros Hblank. split; [|reflexivity]. unfold Registry.Parse.
  rewrite bool_decide_eq_true_2 by exact Hblank. reflexivity.
Qed.

Lemma Registry_Parse_blank_witness :
  strings.TrimSpace "   " = ""
  /\ Registry.Parse (NewRegistry json_sample []) "   " =
       (NewRegistry json_sample [], (Some (empty_line_entry "   "), None)).
Proof.
  split; [vm_compute; reflexivity|].
  apply (Registry_Parse_blank (NewRegistry json_sample []) "   ").
  vm_compute. reflexivity.
Defined.

(** C2, as stated, fails: on the empty line the entry that
    [Registry.Parse] returns has no [message] field at all, so the
    field is not the empty string. *)
Lemma Registry_Parse_blank_no_message :
  snd (Registry.Parse (NewRegistry json_sample []) "")
    = (Some (empty_line_entry ""), None)
  /\ Fields (empty_line_entry "") !! "message" = None
  /\ Fields (empty_line_entry "") !! "message" <> Some (VString "").
Proof.
  split; [vm_compute; reflexivity|]. split; [reflexivity|]. discriminate.
Qed.

(** C3 (amended).  When the forced format is set to a name that no
    registered parser has, [Registry.Parse] fails with the
    unknown-format error on every line that is not blank, whatever else
    the line contains; the registry is left as it was. *)
Theorem Registry_Parse_unknown_format (r : Registry.t) (line : string) :
  Registry.forcedFormat r <> "" ->
  Registry.GetParser r (Registry.forcedFormat r) = None ->
  strings.TrimSpace line <> "" ->
  Registry.Parse r line =
    (r, (None, Some (Errorf ("unknown format: " ++ Registry.forcedFormat r)))).
Proof.
  intros Hforced Hget Hline. unfold Registry.Parse.
  rewrite bool_decide_eq_false_2 by exact Hline.
  rewrite bool_decide_eq_false_2 by exact Hforced. simpl.
  rewrite Hget. reflexivity.
Qed.

Lemma Registry_Parse_unknown_format_witness :
  Registry.forcedFormat (NewRegistry json_sample [WithForcedFormat "Bogus"])
    = "bogus"
  /\ Registry.Parse (NewRegistry json_sample [WithForcedFormat "Bogus"])
       "some log line" =
       (NewRegistry json_sample [WithForcedFormat "Bogus"],
        (None, Some (Errorf "unknown format: bogus"))).
Proof.
  split; [vm_compute; reflexivity|].
  apply (Registry_Parse_unknown_format
           (NewRegistry json_sample [WithForcedFormat "Bogus"])
           "some log line").
  - vm_compute. discriminate.
  - vm_compute. reflexivity.
  - vm_compute. discriminate.
Defined.

(** C3, as stated, fails: with the unregistered format bogus forced, a
    blank line is answered by the empty-line entry and a nil error, not
    by the unknown-format error. *)
Lemma Registry_Parse_unknown_format_blank :
  Registry.GetParser (NewRegistry json_sample [WithForcedFormat "bogus"])
    "bogus" = None
  /\ snd (Registry.Parse (NewRegistry json_sample [WithForcedFormat "bogus"]) "  ")
     = (Some (empty_line_entry "  "), None).
Proof. split; vm_compute; reflexivity. Qed.

(** ** The registry: caching *)

Lemma detect_Some (ps : list Parser) (line : string) (p : Parser)
  (entry : Entry) :
  Registry.detect ps line = Some (p, entry) ->
  p ∈ ps /\ CanParse p line = true /\ Parse p line = (entry, None)
  /\ ParseError entry = None.
Proof.
  induction ps as [|p0 ps IH]; simpl; [discriminate|].
  destruct (CanParse p0 line) eqn:Hcan.
  - destruct (Parse p0 line) as [e [err|]] eqn:Hparse.
    + intros H. destruct (IH H) as (? & ? & ? & ?).
      split; [apply elem_of_cons; by right|done].
    + destruct (ParseError e) eqn:Herr.
      * intros H. destruct (IH H) as (? & ? & ? & ?).
        split; [apply elem_of_cons; by right|done].
      * intros [= <- <-]. split; [apply elem_of_cons; by left|done].
  - intros H. destruct (IH H) as (? & ? & ? & ?).
    split; [apply elem_of_cons; by right|done].
Qed.

(** C1 (amended).  With no format forced and a line that is not blank:
    in strict mode with a parser cached, [Registry.Parse] hands the line
    to the cached parser and returns what it returns, with no
    [CanParse] call and no change of the registry; in strict mode with
    nothing cached, the first parser of the list that can parse the
    line and parses it with no error and no parse error becomes the
    cache, and its entry is returned; in adaptive mode the detection is
    run on every line, whatever the cache holds, and the registry is
    never changed.  (A blank line is answered before any of this, by
    the empty-line entry.) *)
Theorem Registry_Parse_caching (r : Registry.t) (line : string) :
  Registry.forcedFormat r = "" ->
  strings.TrimSpace line <> "" ->
  (Registry.adaptive r = false ->
   forall c, Registry.cached r = Some c ->
   Registry.Parse r line = (r, Registry.delegate c line))
  /\ (Registry.adaptive r = false -> Registry.cached r = None ->
      forall p entry,
        Registry.detect (Registry.parsers r) line = Some (p, entry) ->
        Registry.Parse r line = (Registry.set_cached p r, (Some entry, None))
        /\ Registry.cached (fst (Registry.Parse r line)) = Some p)
  /\ (Registry.adaptive r = true ->
      Registry.Parse r line =
        (r, match Registry.detect (Registry.parsers r) line with
            | Some (_, entry) => (Some entry, None)
            | None => generic_fallback r line
            end)).
Proof.
  intros Hforced Hline. unfold Registry.Parse.
  rewrite bool_decide_eq_false_2 by exact Hline.
  rewrite bool_decide_eq_true_2 by exact Hforced. simpl.
  split; [|split].
  - intros -> c ->. reflexivity.
  - intros -> -> p entry ->. simpl. split; reflexivity.
  - intros ->. simpl.
    destruct (Registry.detect (Registry.parsers r) line) as [[p entry]|];
      [reflexivity|].
    unfold generic_fallback.
    destruct (Registry.GetParser r "generic"); reflexivity.
Qed.

Lemma detect_here (p : Parser) (ps : list Parser) (line : string)
  (entry : Entry) :
  CanParse p line = true -> Parse p line = (entry, None) ->
  ParseError entry = None ->
  Registry.detect (p :: ps) line = Some (p, entry).
Proof. intros Hcan Hparse Herr. simpl. by rewrite Hcan, Hparse, Herr. Qed.

Lemma detect_skip (p : Parser) (ps : list Parser) (line : string) :
  CanParse p line = false ->
  Registry.detect (p :: ps) line = Registry.detect ps line.
Proof. intros Hcan. simpl. by rewrite Hcan. Qed.

Lemma detect_json_line :
  Registry.detect (builtin_parsers json_sample) json_line
  = Some (JSONParser.as_Parser json_sample, json_line_entry).
Proof.
  apply detect_here; [vm_compute; reflexivity..|reflexivity].
Qed.

Lemma detect_syslog_line :
  Registry.detect (builtin_parsers json_sample) syslog_line
  = Some (SyslogParser.as_Parser SyslogParser.New, syslog_line_entry).
Proof.
  unfold builtin_parsers.
  rewrite detect_skip by (vm_compute; reflexivity).
  rewrite detect_skip by (vm_compute; reflexivity).
  apply detect_here; [vm_compute; reflexivity..|reflexivity].
Qed.

Lemma delegate_json_syslog_line :
  Registry.delegate (JSONParser.as_Parser json_sample) syslog_line
  = (Some syslog_line_rejected, None).
Proof. vm_compute. reflexivity. Qed.

Lemma Registry_Parse_caching_witness :
  Registry.Parse strict_registry json_line
    = (json_cached_registry, (Some json_line_entry, None))
  /\ Registry.Parse json_cached_registry syslog_line
     = (json_cached_registry, (Some syslog_line_rejected, None))
  /\ Registry.Parse adaptive_registry json_line
     = (adaptive_registry, (Some json_line_entry, None))
  /\ Registry.Parse adaptive_registry syslog_line
     = (adaptive_registry, (Some syslog_line_entry, None)).
Proof.
  assert (Hjson : strings.TrimSpace json_line <> "")
    by (vm_compute; discriminate).
  assert (Hsyslog : strings.TrimSpace syslog_line <> "")
    by (vm_compute; discriminate).
  split; [|split; [|split]].
  - destruct (Registry_Parse_caching strict_registry json_line eq_refl Hjson)
      as (_ & Hfirst & _).
    apply (Hfirst eq_refl eq_refl (JSONParser.as_Parser json_sample)
             json_line_entry).
    exact detect_json_line.
  - destruct (Registry_Parse_caching json_cached_registry syslog_line
                eq_refl Hsyslog) as (Hcached & _ & _).
    rewrite (Hcached eq_refl (JSONParser.as_Parser json_sample) eq_refl).
    by rewrite delegate_json_syslog_line.
  - destruct (Registry_Parse_caching adaptive_registry json_line
                eq_refl Hjson) as (_ & _ & Hadaptive).
    rewrite (Hadaptive eq_refl).
    change (Registry.parsers adaptive_registry)
      with (builtin_parsers json_sample).
    by rewrite detect_json_line.
  - destruct (Registry_Parse_caching adaptive_registry syslog_line
                eq_refl Hsyslog) as (_ & _ & Hadaptive).
    rewrite (Hadaptive eq_refl).
    change (Registry.parsers adaptive_registry)
      with (builtin_parsers json_sample).
    by rewrite detect_syslog_line.
Defined.

(** The strict registry after a first JSON line. *)
Lemma strict_after_json_line :
  fst (Registry.Parse strict_registry json_line) = json_cached_registry.
Proof.
  unfold Registry.Parse.
  rewrite bool_decide_eq_false_2 by (vm_compute; discriminate).
  change (Registry.forcedFormat strict_registry) with "".
  change (Registry.adaptive strict_registry) with false.
  change (Registry.cached strict_registry) with (@None Parser).
  change (Registry.parsers strict_registry) with (builtin_parsers json_sample).
  rewrite detect_json_line. reflexivity.
Qed.

(** C1, as stated, fails: once a first JSON line has made the JSON
    parser the cache, a later call on a blank line is not handed to the
    cached parser; the registry answers it with the empty-line entry,
    where the JSON parser would report a decoding error. *)
Lemma Registry_Parse_cached_blank :
  fst (Registry.Parse strict_registry json_line) = json_cached_registry
  /\ snd (Registry.Parse json_cached_registry "   ")
     = (Some (empty_line_entry "   "), None)
  /\ ParseError (fst (Parse (JSONParser.as_Parser json_sample) "   "))
     = Some (JSONError "unexpected end of JSON input")
  /\ snd (Registry.Parse json_cached_registry "   ")
     <> Registry.delegate (JSONParser.as_Parser json_sample) "   ".
Proof.
  split; [exact strict_after_json_line|].
  assert (Hblank : snd (Registry.Parse json_cached_registry "   ")
                   = (Some (empty_line_entry "   "), None))
    by (vm_compute; reflexivity).
  split; [exact Hblank|]. split; [vm_compute; reflexivity|].
  rewrite Hblank. intros H.
  assert (Herr : Some (ParseError (empty_line_entry "   "))
                 = ParseError <$> fst (Registry.delegate
                                         (JSONParser.as_Parser json_sample) "   "))
    by (rewrite <- H; reflexivity).
  vm_compute in Herr. discriminate Herr.
Qed.

(** ** No parser returns a Go error *)

Lemma range_from_preserve {A B : Type} (P : B -> Prop)
  (body : nat -> A -> B -> B) (l : list A) (i : nat) (acc : B) :
  P acc -> (forall i x acc, P acc -> P (body i x acc)) ->
  P (range_from i l body acc).
Proof.
  intros Hacc Hbody. revert i acc Hacc.
  induction l as [|x l IH]; intros i acc Hacc; simpl; [exact Hacc|].
  apply IH, Hbody, Hacc.
Qed.

Lemma building_NewEntry (line : string) : building line (NewEntry line).
Proof. split; reflexivity. Qed.

Lemma building_set_field (line name : string) (v : value) (entry : Entry) :
  building line entry -> building line (set_field name v entry).
Proof. intros [? ?]. split; assumption. Qed.

#[local] Hint Resolve building_NewEntry building_set_field : core.

Lemma SyslogParser_building (p : SyslogParser.t) (line : string)
  (matches : list string) :
  FindStringSubmatch (SyslogParser.pattern p) line = Some matches ->
  building line (fst (SyslogParser.Parse p line))
  /\ snd (SyslogParser.Parse p line) = None.
Proof.
  intros Hm. unfold SyslogParser.Parse. rewrite Hm. simpl.
  split; [|reflexivity]. unfold range; apply (range_from_preserve (building line)); [auto|loop_body].
Qed.

Lemma ApacheParser_building (p : ApacheParser.t) (line : string)
  (matches : list string) :
  FindStringSubmatch (ApacheParser.pattern p) line = Some matches ->
  building line (fst (ApacheParser.Parse p line))
  /\ snd (ApacheParser.Parse p line) = None.
Proof.
  intros Hm. unfold ApacheParser.Parse. rewrite Hm. simpl.
  split; [|reflexivity]. unfold range; apply (range_from_preserve (building line)); [auto|].
  intros i x acc Hacc.
  repeat (case_bool_decide || case_match || simpl); auto.
  all: destruct (strconv.Atoi x), (strconv.ParseInt x 64); simpl; auto.
Qed.

Lemma RegexParser_building (p : RegexParser.t) (line : string)
  (matches : list string) :
  FindStringSubmatch (RegexParser.pattern p) line = Some matches ->
  building line (fst (RegexParser.Parse p line))
  /\ snd (RegexParser.Parse p line) = None.
Proof.
  intros Hm. unfold RegexParser.Parse. rewrite Hm. simpl.
  split; [|reflexivity]. unfold range; apply (range_from_preserve (building line)); [auto|loop_body].
Qed.

Lemma try_patterns_building (ps : list Regexp) (line : string)
  (entry entry' : Entry) :
  building line entry ->
  GenericParser.try_patterns ps line entry = Some entry' ->
  building line entry'.
Proof.
  intros Hentry. induction ps as [|pattern ps IH]; simpl; [discriminate|].
  destruct (FindStringSubmatch pattern line) as [matches|]; [|exact IH].
  intros [= <-]. unfold range; apply (range_from_preserve (building line)); [auto|loop_body].
Qed.

Lemma KeyValueParser_building (matches : list (list string)) (line : string)
  (entry : Entry) :
  building line entry ->
  building line
    (foldl (fun entry match_ =>
              set_field (KeyValueParser.sub match_ 1)
                (inferType (KeyValueParser.pair_value match_)) entry)
       entry matches).
Proof.
  revert entry. induction matches as [|m matches IH]; intros entry Hentry;
    simpl; auto.
Qed.

Lemma nil_error_JSON json_Unmarshal :
  nil_error (JSONParser.as_Parser json_Unmarshal).
Proof.
  intros line. simpl. unfold JSONParser.Parse.
  destruct (json_Unmarshal line) as [fields [err|]]; split; reflexivity.
Qed.

Lemma nil_error_KeyValue (p : KeyValueParser.t) :
  nil_error (KeyValueParser.as_Parser p).
Proof.
  intros line. simpl. unfold KeyValueParser.Parse.
  case_bool_decide; [split; reflexivity|]. simpl. split; [reflexivity|].
  apply KeyValueParser_building. auto.
Qed.

Lemma nil_error_Syslog (p : SyslogParser.t) :
  nil_error (SyslogParser.as_Parser p).
Proof.
  intros line. simpl.
  destruct (FindStringSubmatch (SyslogParser.pattern p) line) as [ms|] eqn:Hm.
  - destruct (SyslogParser_building p line ms Hm) as [[? ?] ?]. done.
  - unfold SyslogParser.Parse. rewrite Hm. split; reflexivity.
Qed.

Lemma nil_error_Apache (p : ApacheParser.t) :
  nil_error (ApacheParser.as_Parser p).
Proof.
  intros line. simpl.
  destruct (FindStringSubmatch (ApacheParser.pattern p) line) as [ms|] eqn:Hm.
  - destruct (ApacheParser_building p line ms Hm) as [[? ?] ?]. done.
  - unfold ApacheParser.Parse. rewrite Hm. split; reflexivity.
Qed.

Lemma nil_error_Regex (p : RegexParser.t) :
  nil_error (RegexParser.as_Parser p).
Proof.
  intros line. simpl.
  destruct (FindStringSubmatch (RegexParser.pattern p) line) as [ms|] eqn:Hm.
  - destruct (RegexParser_building p line ms Hm) as [[? ?] ?]. done.
  - unfold RegexParser.Parse. rewrite Hm. split; reflexivity.
Qed.

Lemma nil_error_Generic (p : GenericParser.t) :
  nil_error (GenericParser.as_Parser p).
Proof.
  intros line. simpl. unfold GenericParser.Parse.
  case_bool_decide; [split; reflexivity|].
  destruct (GenericParser.try_patterns _ _ _) as [entry|] eqn:Htry;
    [|split; reflexivity].
  split; [reflexivity|].
  by destruct (try_patterns_building _ _ _ _ (building_NewEntry line) Htry).
Qed.

Lemma lookup_name_Some (ps : list Parser) (name : string) (p : Parser) :
  Registry.lookup_name ps name = Some p -> p ∈ ps.
Proof.
  induction ps as [|p0 ps IH]; simpl; [discriminate|].
  case_bool_decide.
  - intros [= <-]. apply elem_of_cons; by left.
  - intros Hps. apply elem_of_cons; right; auto.
Qed.

Lemma known_options_keep (opts : list RegistryOption) (r : Registry.t) :
  Forall known_option opts ->
  Registry.parsers (foldl (fun r opt => opt r) r opts) = Registry.parsers r
  /\ Registry.cached (foldl (fun r opt => opt r) r opts) = Registry.cached r.
Proof.
  intros Hopts. revert r.
  induction Hopts as [|opt opts Hopt _ IH]; intros r; simpl; [done|].
  destruct (IH (opt r)) as [-> ->]. by destruct Hopt.
Qed.

(** [Registry.Parse] leaves the registry as it was, or makes the parser
    that auto-detection found its cache. *)
Lemma Registry_Parse_state (r : Registry.t) (line : string) :
  fst (Registry.Parse r line) = r
  \/ exists p entry,
       Registry.detect (Registry.parsers r) line = Some (p, entry)
       /\ fst (Registry.Parse r line) = Registry.set_cached p r.
Proof.
  unfold Registry.Parse.
  case_bool_decide; [by left|].
  case_bool_decide; simpl.
  - destruct (negb (Registry.adaptive r)) eqn:Hstrict;
      destruct (Registry.cached r) as [c|] eqn:Hcached; simpl;
      try (by left);
      destruct (Registry.detect (Registry.parsers r) line)
        as [[p entry]|] eqn:Hdet; simpl;
      try (destruct (Registry.GetParser r "generic"); by left);
      try (by left).
    right. by exists p, entry.
  - destruct (Registry.GetParser r (Registry.forcedFormat r)); by left.
Qed.

(** Every parser of a reachable registry, and its cache, is one that
    never returns a Go error. *)
Lemma reachable_nil_error json_Unmarshal (r : Registry.t) :
  reachable json_Unmarshal r ->
  Forall nil_error (Registry.parsers r)
  /\ forall c, Registry.cached r = Some c -> nil_error c.
Proof.
  induction 1 as [opts Hopts|r p _ [IHps IHc]|r line _ [IHps IHc]].
  - unfold NewRegistry. simpl.
    destruct (known_options_keep opts
                {| Registry.parsers := []; Registry.cached := None;
                   Registry.adaptive := false; Registry.forcedFormat := "" |}
                Hopts) as [-> ->].
    split; [|discriminate]. simpl.
    repeat apply Forall_cons_2; [apply nil_error_JSON|apply nil_error_KeyValue
      |apply nil_error_Syslog|apply nil_error_Apache|apply nil_error_Generic
      |apply Forall_nil_2].
  - simpl. split; [|exact IHc].
    apply Forall_app_2; [exact IHps|].
    apply Forall_cons_2; [apply nil_error_Regex|apply Forall_nil_2].
  - destruct (Registry_Parse_state r line) as [-> | (p & entry & Hdet & ->)];
      [by split|].
    split; [exact IHps|]. intros c [= <-].
    apply detect_Some in Hdet as (Hin & _).
    rewrite Forall_forall in IHps. by apply IHps.
Qed.

(** C9.  Each of the six parsers of the package returns a nil Go error
    on every line and an entry whose raw text is the line, so that a
    failure on a line shows only in the parse error of the entry.
    Hence, for every registry a program can reach, [Registry.Parse]
    returns a Go error only when a format is forced and no registered
    parser has that name (it then returns no entry); and every entry it
    returns has the line as its raw text. *)
Theorem Parse_nil_error :
  (forall json_Unmarshal, nil_error (JSONParser.as_Parser json_Unmarshal))
  /\ (forall p, nil_error (KeyValueParser.as_Parser p))
  /\ (forall p, nil_error (SyslogParser.as_Parser p))
  /\ (forall p, nil_error (ApacheParser.as_Parser p))
  /\ (forall p, nil_error (GenericParser.as_Parser p))
  /\ (forall p, nil_error (RegexParser.as_Parser p))
  /\ (forall json_Unmarshal r line,
        reachable json_Unmarshal r ->
        (forall err,
           snd (snd (Registry.Parse r line)) = Some err ->
           Registry.forcedFormat r <> ""
           /\ Registry.GetParser r (Registry.forcedFormat r) = None
           /\ fst (snd (Registry.Parse r line)) = None)
        /\ (forall entry,
              fst (snd (Registry.Parse r line)) = Some entry ->
              Raw entry = line)).
Proof.
  split; [exact nil_error_JSON|]. split; [exact nil_error_KeyValue|].
  split; [exact nil_error_Syslog|]. split; [exact nil_error_Apache|].
  split; [exact nil_error_Generic|]. split; [exact nil_error_Regex|].
  intros json_Unmarshal r line Hreach.
  destruct (reachable_nil_error _ _ Hreach) as [Hps Hc].
  rewrite Forall_forall in Hps.
  assert (Hget : forall name p, Registry.GetParser r name = Some p -> nil_error p).
  { intros name p Hp. apply Hps. eapply lookup_name_Some, Hp. }
  unfold Registry.Parse.
  case_bool_decide as Hblank; [split; [discriminate|by intros ? [= <-]]|].
  case_bool_decide as Hforced; simpl.
  - destruct (negb (Registry.adaptive r)), (Registry.cached r) as [c|] eqn:Hcached.
    1: { destruct (Hc c eq_refl line) as [Herr Hraw]. simpl.
         rewrite Herr. split; [discriminate|by intros ? [= <-]]. }
    all: destruct (Registry.detect _ _) as [[p entry]|] eqn:Hdet; simpl.
    all: try (apply detect_Some in Hdet as (Hin & _ & Hparse & _);
              destruct (Hps p Hin line) as [_ Hraw]; rewrite Hparse in Hraw;
              split; [discriminate|by intros ? [= <-]]).
    all: destruct (Registry.GetParser r "generic") as [g|] eqn:Hg; simpl.
    all: try (destruct (Hget _ _ Hg line) as [Herr Hraw]; rewrite Herr;
              split; [discriminate|by intros ? [= <-]]).
    all: split; [discriminate|by intros ? [= <-]].
  - destruct (Registry.GetParser r (Registry.forcedFormat r)) as [p|] eqn:Hp;
      simpl.
    + destruct (Hget _ _ Hp line) as [Herr Hraw]. rewrite Herr.
      split; [discriminate|by intros ? [= <-]].
    + split; [|discriminate]. intros err _. done.
Qed.

Lemma Parse_nil_error_witness :
  reachable json_sample (NewRegistry json_sample [WithForcedFormat "bogus"])
  /\ snd (snd (Registry.Parse
                 (NewRegistry json_sample [WithForcedFormat "bogus"])
                 "some log line"))
     = Some (Errorf "unknown format: bogus")
  /\ Registry.GetParser (NewRegistry json_sample [WithForcedFormat "bogus"])
       "bogus" = None
  /\ Raw syslog_line_rejected = syslog_line.
Proof.
  assert (Hbogus : reachable json_sample
                     (NewRegistry json_sample [WithForcedFormat "bogus"])).
  { apply reach_new. apply Forall_cons_2; [constructor|apply Forall_nil_2]. }
  assert (Hcached : reachable json_sample json_cached_registry).
  { rewrite <- strict_after_json_line.
    apply reach_parse, reach_new, Forall_nil_2. }
  destruct Parse_nil_error as (_ & _ & _ & _ & _ & _ & Hregistry).
  split; [exact Hbogus|]. split; [vm_compute; reflexivity|]. split.
  - destruct (Hregistry json_sample _ "some log line" Hbogus) as [Herr _].
    apply (Herr (Errorf "unknown format: bogus")). vm_compute. reflexivity.
  - destruct (Hregistry json_sample _ syslog_line Hcached) as [_ Hraw].
    apply (Hraw syslog_line_rejected). vm_compute. reflexivity.
Defined.

(** ** The loop over the groups of a match *)

Lemma name_at_lookup (names : list string) (i : nat) (name : string) :
  names !! i = Some name -> name_at names i = name.
Proof. unfold name_at. intros ->. reflexivity. Qed.

Lemma name_at_other (names : list string) (i j : nat) (name : string) :
  name <> "" -> (forall k, names !! k = Some name -> k = i) -> j <> i ->
  name_at names j <> name.
Proof.
  intros Hname Honce Hji. unfold name_at.
  destruct (names !! j) as [n|] eqn:Hj; simpl; [|congruence].
  intros ->. apply Hji, Honce, Hj.
Qed.

Section GroupLoop.
Variable names : list string.
Variable skip : nat -> string -> bool.
Variable val : nat -> string -> value.
Variable body : nat -> string -> Entry -> Entry.

Hypothesis body_eq :
  forall i m entry,
    body i m entry =
      if skip i m then entry
      else set_field (name_at names i) (val i m) entry.

(** A name that no group from [i0] on has is left as it was. *)
Lemma range_from_other (l : list string) (i0 : nat) (entry : Entry)
  (name : string) :
  (forall j, (i0 <= j)%nat -> name_at names j <> name) ->
  Fields (range_from i0 l body entry) !! name = Fields entry !! name.
Proof.
  revert i0 entry.
  induction l as [|m l IH]; intros i0 entry Hother; simpl; [reflexivity|].
  rewrite IH by (intros j Hj; apply Hother; lia).
  rewrite body_eq. destruct (skip i0 m); [reflexivity|]. simpl.
  apply lookup_insert_ne, Hother. lia.
Qed.

(** The field of a name that exactly one group has: the value of that
    group, unless the loop skips it. *)
Lemma range_from_group (l : list string) (i0 i : nat) (entry : Entry)
  (name text : string) :
  name <> "" ->
  names !! (i0 + i)%nat = Some name ->
  (forall k, names !! k = Some name -> k = (i0 + i)%nat) ->
  l !! i = Some text ->
  Fields (range_from i0 l body entry) !! name =
    if skip (i0 + i)%nat text then Fields entry !! name
    else Some (val (i0 + i)%nat text).
Proof.
  intros Hname. revert i0 i entry.
  induction l as [|m l IH]; intros i0 i entry Hi Honce Hl; [done|].
  destruct i as [|i]; simpl in *.
  - injection Hl as ->. rewrite Nat.add_0_r in *.
    rewrite range_from_other
      by (intros j Hj; apply (name_at_other names i0); [done..|lia]).
    rewrite body_eq. destruct (skip i0 text); [reflexivity|]. simpl.
    rewrite (name_at_lookup _ _ _ Hi). apply lookup_insert_eq.
  - replace (i0 + S i)%nat with (S i0 + i)%nat in * by lia.
    rewrite (IH (S i0) i) by done.
    destruct (skip (S i0 + i)%nat text); [|reflexivity].
    rewrite body_eq. destruct (skip i0 m); [reflexivity|]. simpl.
    apply lookup_insert_ne.
    apply (name_at_other names (S i0 + i)); [done..|lia].
Qed.
End GroupLoop.

(** The groups of the built-in patterns. *)
Lemma SyslogParser_names :
  SubexpNames (SyslogParser.pattern SyslogParser.New)
  = [""; "timestamp"; "host"; "program"; "pid"; "message"].
Proof. reflexivity. Qed.

Lemma ApacheParser_names :
  SubexpNames (ApacheParser.pattern ApacheParser.New)
  = [""; "ip"; "ident"; "user"; "timestamp"; "method"; "path"; "protocol";
     "status"; "size"; "referer"; "useragent"].
Proof. reflexivity. Qed.

Lemma NoDup_names_once (names : list string) (i : nat) (name : string) :
  NoDup names -> names !! i = Some name -> names_once names i name.
Proof.
  intros Hnodup Hi. split; [exact Hi|].
  intros j Hj. eapply NoDup_lookup; eassumption.
Qed.

(** The fields of the syslog parser, for any pattern: a named group that
    is the only one of its name gives no field when its text is empty,
    and else the field [syslog_value] describes. *)
Lemma SyslogParser_group (p : SyslogParser.t) (line : string)
  (matches : list string) (i : nat) (name text : string) :
  FindStringSubmatch (SyslogParser.pattern p) line = Some matches ->
  names_once (SubexpNames (SyslogParser.pattern p)) i name ->
  name <> "" -> matches !! i = Some text ->
  Fields (fst (SyslogParser.Parse p line)) !! name =
    if bool_decide (text = "") then None else Some (syslog_value name text).
Proof.
  intros Hm [Hi Honce] Hname Htext. unfold SyslogParser.Parse. rewrite Hm.
  simpl. unfold range.
  set (names := SubexpNames (SyslogParser.pattern p)) in *.
  rewrite (range_from_group names
             (fun i m => bool_decide (i = 0%nat)
                         || bool_decide (name_at names i = "")
                         || bool_decide (m = ""))
             (fun i m => syslog_value (name_at names i) m))
    with (i := i) (name := name) (text := text); [|..|exact Htext];
    [|intros j m entry; unfold syslog_value;
      repeat (case_bool_decide || case_match || simpl); congruence
     |exact Hname|exact Hi|exact Honce].
  simpl. rewrite (name_at_lookup _ _ _ Hi).
  assert (i <> 0%nat) by (intros ->; simpl in Hi; congruence).
  rewrite (bool_decide_eq_false_2 (i = 0%nat)) by done.
  rewrite (bool_decide_eq_false_2 (name = "")) by done. simpl.
  case_bool_decide; reflexivity.
Qed.

(** C6.  For every line that the syslog pattern matches, with [matches]
    the match: the parser returns no error and no parse error; each
    named group whose text is not empty is a field under the name of the
    group; a group whose text is empty gives no field, so that a line
    without a [[pid]] suffix, whose [pid] group (group 4) took no part in
    the match, has no [pid] field at all; and the [pid] field is the
    integer that [Atoi] reads, or the text itself when [Atoi] fails. *)
Theorem SyslogParser_Parse_fields (line : string) (matches : list string) :
  FindStringSubmatch (SyslogParser.pattern SyslogParser.New) line
    = Some matches ->
  let entry := fst (SyslogParser.Parse SyslogParser.New line) in
  snd (SyslogParser.Parse SyslogParser.New line) = None
  /\ ParseError entry = None
  /\ (forall i name text,
        SubexpNames (SyslogParser.pattern SyslogParser.New) !! i = Some name ->
        name <> "" -> matches !! i = Some text ->
        Fields entry !! name =
          if bool_decide (text = "") then None
          else if bool_decide (name = "pid") then
            Some match strconv.Atoi text with
                 | Some pid => VInt pid
                 | None => VString text
                 end
          else Some (VString text))
  /\ (matches !! 4%nat = Some "" -> Fields entry !! "pid" = None).
Proof.
  intros Hm entry.
  destruct (SyslogParser_building _ _ _ Hm) as [[_ Herr] Hnil].
  assert (Hnodup : NoDup (SubexpNames (SyslogParser.pattern SyslogParser.New)))
    by (apply (bool_decide_unpack _); vm_compute; exact I).
  assert (Hgroup : forall i name text,
            SubexpNames (SyslogParser.pattern SyslogParser.New) !! i = Some name ->
            name <> "" -> matches !! i = Some text ->
            Fields entry !! name =
              if bool_decide (text = "") then None
              else Some (syslog_value name text)).
  { intros i name text Hi Hname Htext.
    apply (SyslogParser_group _ _ _ i name text Hm); auto.
    apply NoDup_names_once; assumption. }
  split; [exact Hnil|]. split; [exact Herr|]. split.
  - intros i name text Hi Hname Htext.
    rewrite (Hgroup i name text Hi Hname Htext). unfold syslog_value.
    repeat case_bool_decide; reflexivity.
  - intros Hpid. apply (Hgroup 4%nat "pid" "" eq_refl); [discriminate|exact Hpid].
Qed.

Lemma SyslogParser_Parse_fields_witness :
  FindStringSubmatch (SyslogParser.pattern SyslogParser.New) syslog_line_nopid
    = Some [syslog_line_nopid; "Jan 15 10:30:45"; "myhost"; "kernel"; "";
            "some kernel message"]
  /\ Fields (fst (SyslogParser.Parse SyslogParser.New syslog_line_nopid))
       !! "pid" = None
  /\ Fields (fst (SyslogParser.Parse SyslogParser.New syslog_line_nopid))
       !! "program" = Some (VString "kernel")
  /\ Fields (fst (SyslogParser.Parse SyslogParser.New syslog_line))
       !! "pid" = Some (VInt 1234).
Proof.
  assert (Hnopid :
            FindStringSubmatch (SyslogParser.pattern SyslogParser.New)
              syslog_line_nopid
            = Some [syslog_line_nopid; "Jan 15 10:30:45"; "myhost"; "kernel";
                    ""; "some kernel message"])
    by (vm_compute; reflexivity).
  assert (Hpid :
            FindStringSubmatch (SyslogParser.pattern SyslogParser.New)
              syslog_line
            = Some [syslog_line; "Jan 15 10:30:45"; "myhost"; "sshd"; "1234";
                    "message"])
    by (vm_compute; reflexivity).
  split; [exact Hnopid|].
  destruct (SyslogParser_Parse_fields _ _ Hnopid) as (_ & _ & Hgroup & Habsent).
  destruct (SyslogParser_Parse_fields _ _ Hpid) as (_ & _ & Hgroup' & _).
  split; [apply Habsent; reflexivity|]. split.
  - apply (Hgroup 3%nat "program" "kernel"); [reflexivity|discriminate|reflexivity].
  - apply (Hgroup' 4%nat "pid" "1234"); [reflexivity|discriminate|reflexivity].
Defined.

(** ** The Apache parser *)

Lemma is_digit_val (c : ascii) :
  is_digit c = true -> 0 <= strconv.digit_val c <= 9.
Proof.
  unfold is_digit, byte_in, strconv.digit_val.
  rewrite andb_true_iff, !N.leb_le. lia.
Qed.

Lemma is_digit_not_sign (c : ascii) :
  is_digit c = true -> byte_is 43 c || byte_is 45 c = false.
Proof.
  unfold is_digit, byte_in, byte_is.
  rewrite andb_true_iff, !N.leb_le, orb_false_iff, !N.eqb_neq. lia.
Qed.

Lemma parse_digits_all_digits (s : string) (acc : Z) :
  all_digits s = true -> 0 <= acc ->
  exists n, strconv.parse_digits s acc = Some n
            /\ 0 <= n < (acc + 1) * 10 ^ Z.of_nat (String.length s).
Proof.
  revert acc. induction s as [|c s IH]; intros acc Hs Hacc.
  - exists acc. simpl. split; [reflexivity|lia].
  - simpl in Hs. apply andb_true_iff in Hs as [Hc Hs].
    cbn [strconv.parse_digits String.length]. rewrite Hc.
    pose proof (is_digit_val c Hc) as Hd.
    destruct (IH (10 * acc + strconv.digit_val c) Hs ltac:(lia))
      as (n & Hn & Hlo & Hhi).
    exists n. split; [exact Hn|]. split; [exact Hlo|].
    rewrite Nat2Z.inj_succ, Z.pow_succ_r by lia. nia.
Qed.

(** A decimal numeral of 1 to 18 digits converts, to [int] and to
    [int64] alike. *)
Lemma ParseInt_decimal (s : string) :
  decimal s = true ->
  exists n, strconv.ParseInt s 64 = Some n /\ strconv.Atoi s = Some n
            /\ 0 <= n.
Proof.
  unfold decimal. rewrite andb_true_iff, bool_decide_eq_true.
  intros [[Hlo Hhi] Hs].
  destruct (parse_digits_all_digits s 0 Hs ltac:(lia)) as (n & Hn & Hn0 & Hn1).
  exists n. unfold strconv.Atoi.
  assert (Hparse : strconv.ParseInt s 64 = Some n); [|by rewrite Hparse].
  destruct s as [|c s]; [simpl in Hlo; lia|].
  assert (Hc : is_digit c = true)
    by (simpl in Hs; by apply andb_true_iff in Hs as [? _]).
  unfold strconv.ParseInt. rewrite (is_digit_not_sign c Hc).
  assert (byte_is 45 c = false) as ->.
  { pose proof (is_digit_not_sign c Hc) as H.
    by apply orb_false_iff in H as [_ ?]. }
  unfold strconv.ParseUint10. rewrite Hn.
  assert (n < 2 ^ (64 - 1)) as Hlt; [|by apply Z.ltb_lt in Hlt as ->].
  eapply Z.lt_le_trans; [exact Hn1|].
  transitivity (10 ^ 18); [|by vm_compute].
  rewrite Z.mul_1_l. apply Z.pow_le_mono_r; lia.
Qed.

(** The fields of the Apache parser, for any pattern: a named group that
    is the only one of its name gives no field when its text is empty or
    a dash, and else the field [apache_value] describes. *)
Lemma ApacheParser_group (p : ApacheParser.t) (line : string)
  (matches : list string) (i : nat) (name text : string) :
  FindStringSubmatch (ApacheParser.pattern p) line = Some matches ->
  names_once (SubexpNames (ApacheParser.pattern p)) i name ->
  name <> "" -> matches !! i = Some text ->
  Fields (fst (ApacheParser.Parse p line)) !! name =
    if bool_decide (text = "") || bool_decide (text = "-") then None
    else Some (apache_value name text).
Proof.
  intros Hm [Hi Honce] Hname Htext. unfold ApacheParser.Parse. rewrite Hm.
  simpl. unfold range.
  set (names := SubexpNames (ApacheParser.pattern p)) in *.
  rewrite (range_from_group names
             (fun i m => bool_decide (i = 0%nat)
                         || bool_decide (name_at names i = "")
                         || bool_decide (m = "") || bool_decide (m = "-"))
             (fun i m => apache_value (name_at names i) m))
    with (i := i) (name := name) (text := text); [|..|exact Htext];
    [|intros j m entry; unfold apache_value;
      repeat (case_bool_decide || case_match || simpl); simplify_eq/=;
      congruence
     |exact Hname|exact Hi|exact Honce].
  simpl. rewrite (name_at_lookup _ _ _ Hi).
  assert (i <> 0%nat) by (intros ->; simpl in Hi; congruence).
  rewrite (bool_decide_eq_false_2 (i = 0%nat)) by done.
  rewrite (bool_decide_eq_false_2 (name = "")) by done. simpl.
  repeat case_bool_decide; reflexivity.
Qed.

(** C5.  For every line that the Apache pattern matches, with [matches]
    the match: the parser returns no error and no parse error; every
    named group whose text is empty or is a dash gives no field; and on
    a well-formed line, whose status code (group 8) and response size
    (group 9) are decimal numerals, [status] is that number as an [int]
    and [size] is that number as an [int64]. *)
Theorem ApacheParser_Parse_fields (line : string) (matches : list string) :
  FindStringSubmatch (ApacheParser.pattern ApacheParser.New) line
    = Some matches ->
  let entry := fst (ApacheParser.Parse ApacheParser.New line) in
  snd (ApacheParser.Parse ApacheParser.New line) = None
  /\ ParseError entry = None
  /\ (forall i name text,
        SubexpNames (ApacheParser.pattern ApacheParser.New) !! i = Some name ->
        name <> "" -> matches !! i = Some text ->
        text = "" \/ text = "-" -> Fields entry !! name = None)
  /\ (forall text,
        matches !! 8%nat = Some text -> decimal text = true ->
        exists status,
          strconv.Atoi text = Some status
          /\ Fields entry !! "status" = Some (VInt status))
  /\ (forall text,
        matches !! 9%nat = Some text -> decimal text = true ->
        exists size,
          strconv.ParseInt text 64 = Some size
          /\ Fields entry !! "size" = Some (VInt64 size)).
Proof.
  intros Hm entry.
  destruct (ApacheParser_building _ _ _ Hm) as [[_ Herr] Hnil].
  assert (Hnodup : NoDup (SubexpNames (ApacheParser.pattern ApacheParser.New)))
    by (apply (bool_decide_unpack _); vm_compute; exact I).
  assert (Hgroup : forall i name text,
            SubexpNames (ApacheParser.pattern ApacheParser.New) !! i = Some name ->
            name <> "" -> matches !! i = Some text ->
            Fields entry !! name =
              if bool_decide (text = "") || bool_decide (text = "-") then None
              else Some (apache_value name text)).
  { intros i name text Hi Hname Htext.
    apply (ApacheParser_group _ _ _ i name text Hm); auto.
    apply NoDup_names_once; assumption. }
  assert (Hpresent : forall text,
            decimal text = true ->
            bool_decide (text = "") || bool_decide (text = "-") = false).
  { intros text Hdec. apply orb_false_iff.
    split; apply bool_decide_eq_false_2; intros ->; vm_compute in Hdec;
      discriminate. }
  split; [exact Hnil|]. split; [exact Herr|]. split; [|split].
  - intros i name text Hi Hname Htext Hdash.
    rewrite (Hgroup i name text Hi Hname Htext).
    destruct Hdash as [-> | ->]; reflexivity.
  - intros text Htext Hdec.
    destruct (ParseInt_decimal text Hdec) as (n & _ & Hatoi & _).
    exists n. split; [exact Hatoi|].
    rewrite (Hgroup 8%nat "status" text eq_refl ltac:(discriminate) Htext).
    rewrite (Hpresent text Hdec). unfold apache_value. simpl.
    by rewrite Hatoi.
  - intros text Htext Hdec.
    destruct (ParseInt_decimal text Hdec) as (n & Hparse & _ & _).
    exists n. split; [exact Hparse|].
    rewrite (Hgroup 9%nat "size" text eq_refl ltac:(discriminate) Htext).
    rewrite (Hpresent text Hdec). unfold apache_value. simpl.
    by rewrite Hparse.
Qed.

Lemma ApacheParser_Parse_fields_witness :
  FindStringSubmatch (ApacheParser.pattern ApacheParser.New) apache_line
    = Some [apache_line; "10.0.0.1"; "-"; "-"; "15/Jan/2024:10:30:45 +0000";
            "POST"; "/api"; "HTTP/1.1"; "201"; "56"; "http://example.com";
            "curl/7.68"]
  /\ Fields (fst (ApacheParser.Parse ApacheParser.New apache_line))
       !! "ident" = None
  /\ Fields (fst (ApacheParser.Parse ApacheParser.New apache_line))
       !! "user" = None
  /\ Fields (fst (ApacheParser.Parse ApacheParser.New apache_line))
       !! "status" = Some (VInt 201)
  /\ Fields (fst (ApacheParser.Parse ApacheParser.New apache_line))
       !! "size" = Some (VInt64 56).
Proof.
  assert (Hm :
            FindStringSubmatch (ApacheParser.pattern ApacheParser.New)
              apache_line
            = Some [apache_line; "10.0.0.1"; "-"; "-";
                    "15/Jan/2024:10:30:45 +0000"; "POST"; "/api"; "HTTP/1.1";
                    "201"; "56"; "http://example.com"; "curl/7.68"])
    by (vm_compute; reflexivity).
  split; [exact Hm|].
  destruct (ApacheParser_Parse_fields _ _ Hm)
    as (_ & _ & Habsent & Hstatus & Hsize).
  split; [|split; [|split]].
  - apply (Habsent 2%nat "ident" "-"); [reflexivity|discriminate|reflexivity|].
    right; reflexivity.
  - apply (Habsent 3%nat "user" "-"); [reflexivity|discriminate|reflexivity|].
    right; reflexivity.
  - destruct (Hstatus "201" eq_refl eq_refl) as (status & Hatoi & Hfield).
    rewrite Hfield. vm_compute in Hatoi. injection Hatoi as <-. reflexivity.
  - destruct (Hsize "56" eq_refl eq_refl) as (size & Hparse & Hfield).
    rewrite Hfield. vm_compute in Hparse. injection Hparse as <-. reflexivity.
Defined.

(** ** The parser of a user pattern *)

(** What the parser does with a line that its pattern matches, with
    [matches] the match: it returns no error and no parse error, and
    every named group that is the only one of its name is a field under
    that name, whose value is the text of the group passed through type
    inference.  The loop has no test for an empty text: a group whose
    text is empty is a field too, whose value is the empty string. *)
Lemma RegexParser_Parse_fields (p : RegexParser.t) (line : string)
  (matches : list string) :
  FindStringSubmatch (RegexParser.pattern p) line = Some matches ->
  let entry := fst (RegexParser.Parse p line) in
  snd (RegexParser.Parse p line) = None
  /\ ParseError entry = None
  /\ (forall i name text,
        names_once (SubexpNames (RegexParser.pattern p)) i name ->
        name <> "" -> matches !! i = Some text ->
        Fields entry !! name = Some (inferType text))
  /\ inferType "" = VString "".
Proof.
  intros Hm entry.
  destruct (RegexParser_building _ _ _ Hm) as [[_ Herr] Hnil].
  split; [exact Hnil|]. split; [exact Herr|]. split; [|reflexivity].
  intros i name text [Hi Honce] Hname Htext.
  subst entry. unfold RegexParser.Parse. rewrite Hm. simpl. unfold range.
  set (names := SubexpNames (RegexParser.pattern p)) in *.
  rewrite (range_from_group names
             (fun i m => bool_decide (i = 0%nat)
                         || bool_decide (name_at names i = ""))
             (fun i m => inferType m))
    with (i := i) (name := name) (text := text); [|..|exact Htext];
    [|reflexivity|exact Hname|exact Hi|exact Honce].
  simpl. rewrite (name_at_lookup _ _ _ Hi).
  assert (i <> 0%nat) by (intros ->; simpl in Hi; congruence).
  rewrite (bool_decide_eq_false_2 (i = 0%nat)) by done.
  rewrite (bool_decide_eq_false_2 (name = "")) by done. reflexivity.
Qed.

Lemma RegexParser_Parse_fields_witness :
  FindStringSubmatch pattern_ab "y" = Some ["y"; ""; "y"]
  /\ Fields (fst (RegexParser.Parse parser_ab "y")) !! "a" = Some (VString "")
  /\ Fields (fst (RegexParser.Parse parser_ab "y")) !! "b" = Some (VString "y").
Proof.
  assert (Hm : FindStringSubmatch (RegexParser.pattern parser_ab) "y"
               = Some ["y"; ""; "y"]) by (vm_compute; reflexivity).
  assert (Hnodup : NoDup (SubexpNames (RegexParser.pattern parser_ab)))
    by (apply (bool_decide_unpack _); vm_compute; exact I).
  split; [exact Hm|].
  destruct (RegexParser_Parse_fields parser_ab "y" _ Hm) as (_ & _ & Hgroup & _).
  split.
  - apply (Hgroup 1%nat "a" "");
      [by apply NoDup_names_once|discriminate|reflexivity].
  - apply (Hgroup 2%nat "b" "y");
      [by apply NoDup_names_once|discriminate|reflexivity].
Defined.

(** C7.  The code breaks the claim at this input: the pattern
    [(?P<a>x?)(?P<b>y)] matches the line y with an empty text for its
    group [a], and the entry of the parser has a field [a] all the
    same, the empty string.  The loops of the syslog, Apache and
    generic parsers skip a group whose text is empty; the loop of
    [RegexParser.Parse] has no such test. *)
Lemma RegexParser_Parse_empty_group :
  RegexParser.New "(?P<a>x?)(?P<b>y)" pattern_ab = inl parser_ab
  /\ FindStringSubmatch (RegexParser.pattern parser_ab) "y"
     = Some ["y"; ""; "y"]
  /\ SubexpNames (RegexParser.pattern parser_ab) = [""; "a"; "b"]
  /\ Fields (fst (RegexParser.Parse parser_ab "y")) !! "a" = Some (VString "")
  /\ Fields (fst (RegexParser.Parse parser_ab "y")) !! "a" <> None.
Proof.
  split; [reflexivity|]. split; [vm_compute; reflexivity|].
  split; [reflexivity|].
  assert (H : Fields (fst (RegexParser.Parse parser_ab "y")) !! "a"
              = Some (VString "")) by (vm_compute; reflexivity).
  split; [exact H|]. rewrite H. discriminate.
Qed.

(** ** The key=value parser *)

Lemma KeyValueParser_fold_other (matches : list (list string))
  (entry : Entry) (key : string) :
  (forall m, m ∈ matches -> KeyValueParser.sub m 1 <> key) ->
  Fields
    (foldl (fun entry match_ =>
              set_field (KeyValueParser.sub match_ 1)
                (inferType (KeyValueParser.pair_value match_)) entry)
       entry matches) !! key
  = Fields entry !! key.
Proof.
  revert entry. induction matches as [|m matches IH]; intros entry Hother;
    simpl; [reflexivity|].
  rewrite IH by (intros m' Hm'; apply Hother, elem_of_cons; by right).
  simpl. apply lookup_insert_ne, Hother, elem_of_cons. by left.
Qed.

(** C10.  When the pairs that the key=value pattern finds on a line are
    [before], then the pair [pair], then [after], and no pair of [after]
    has the key of [pair], the field of that key is the value of [pair]
    passed through type inference, whatever pairs of the same key
    [before] holds: the rightmost pair of a key wins.  The parser
    returns no error and no parse error. *)
Theorem KeyValueParser_Parse_last_wins (line : string)
  (before after : list (list string)) (pair : list string) :
  FindAllStringSubmatch (KeyValueParser.pattern KeyValueParser.New) line
    = before ++ pair :: after ->
  (forall m, m ∈ after ->
             KeyValueParser.sub m 1 <> KeyValueParser.sub pair 1) ->
  let entry := fst (KeyValueParser.Parse KeyValueParser.New line) in
  Fields entry !! KeyValueParser.sub pair 1
    = Some (inferType (KeyValueParser.pair_value pair))
  /\ ParseError entry = None
  /\ snd (KeyValueParser.Parse KeyValueParser.New line) = None.
Proof.
  intros Hm Hafter entry. subst entry. unfold KeyValueParser.Parse.
  rewrite Hm.
  rewrite bool_decide_eq_false_2
    by (rewrite length_app; simpl; lia).
  simpl. split; [|split; [|reflexivity]].
  - rewrite foldl_app. simpl.
    rewrite KeyValueParser_fold_other by exact Hafter.
    simpl. apply lookup_insert_eq.
  - apply (KeyValueParser_building _ line). auto.
Qed.

Lemma KeyValueParser_Parse_last_wins_witness :
  FindAllStringSubmatch (KeyValueParser.pattern KeyValueParser.New)
    "a=1 b=x a=2"
  = [["a=1"; "a"; ""; ""; "1"]; ["b=x"; "b"; ""; ""; "x"]]
      ++ ["a=2"; "a"; ""; ""; "2"] :: []
  /\ Fields (fst (KeyValueParser.Parse KeyValueParser.New "a=1 b=x a=2"))
       !! "a" = Some (VInt64 2).
Proof.
  assert (Hm :
            FindAllStringSubmatch (KeyValueParser.pattern KeyValueParser.New)
              "a=1 b=x a=2"
            = [["a=1"; "a"; ""; ""; "1"]; ["b=x"; "b"; ""; ""; "x"]]
                ++ ["a=2"; "a"; ""; ""; "2"] :: [])
    by (vm_compute; reflexivity).
  split; [exact Hm|].
  destruct (KeyValueParser_Parse_last_wins _ _ _ _ Hm) as (Hfield & _).
  - intros m Hin. by apply elem_of_nil in Hin.
  - exact Hfield.
Defined.

(** ** Type inference *)

Lemma digit_byte_digit (d : Z) :
  0 <= d <= 9 ->
  is_digit (strconv.digit_byte d) = true
  /\ strconv.digit_val (strconv.digit_byte d) = d.
Proof.
  intros Hd.
  assert (Hcases : d = 0 \/ d = 1 \/ d = 2 \/ d = 3 \/ d = 4 \/ d = 5
                   \/ d = 6 \/ d = 7 \/ d = 8 \/ d = 9) by lia.
  repeat destruct Hcases as [-> | Hcases]; try subst d;
    split; reflexivity.
Qed.

(** Reading the digits that [format_digits] writes gives the number
    back. *)
Lemma parse_format_digits (fuel : nat) (n : Z) (acc : string) :
  0 <= n < 10 ^ Z.of_nat fuel ->
  strconv.parse_digits (strconv.format_digits fuel n acc) 0
  = strconv.parse_digits acc n.
Proof.
  revert n acc. induction fuel as [|fuel IH]; intros n acc Hn.
  - simpl in *. by replace n with 0 by lia.
  - cbn [strconv.format_digits].
    assert (Hmod : 0 <= n mod 10 <= 9) by (pose proof (Z.mod_pos_bound n 10); lia).
    destruct (digit_byte_digit _ Hmod) as [Hdigit Hval].
    destruct (n <? 10) eqn:Hsmall.
    + apply Z.ltb_lt in Hsmall. cbn [strconv.parse_digits].
      rewrite Hdigit, Hval, Z.mod_small by lia. f_equal; lia.
    + apply Z.ltb_ge in Hsmall. rewrite IH.
      * cbn [strconv.parse_digits]. rewrite Hdigit, Hval. f_equal.
        pose proof (Z.div_mod n 10 ltac:(lia)). lia.
      * rewrite Nat2Z.inj_succ, Z.pow_succ_r in Hn by lia.
        split; [apply Z.div_pos; lia|].
        apply Z.div_lt_upper_bound; lia.
Qed.

(** The text that [format_digits] writes begins with a digit. *)
Lemma format_digits_head (fuel : nat) (n : Z) (acc : string) :
  0 <= n ->
  exists c rest,
    strconv.format_digits (S fuel) n acc = String c rest /\ is_digit c = true.
Proof.
  revert n acc. induction fuel as [|fuel IH]; intros n acc Hn.
  - cbn [strconv.format_digits].
    assert (Hmod : 0 <= n mod 10 <= 9) by (pose proof (Z.mod_pos_bound n 10); lia).
    destruct (digit_byte_digit _ Hmod) as [Hdigit _].
    destruct (n <? 10); eauto.
  - assert (Hmod : 0 <= n mod 10 <= 9) by (pose proof (Z.mod_pos_bound n 10); lia).
    destruct (digit_byte_digit _ Hmod) as [Hdigit _].
    change (strconv.format_digits (S (S fuel)) n acc)
      with (if n <? 10 then String (strconv.digit_byte (n mod 10)) acc
            else strconv.format_digits (S fuel) (n / 10)
                   (String (strconv.digit_byte (n mod 10)) acc)).
    destruct (n <? 10); [eauto|].
    apply IH. apply Z.div_pos; lia.
Qed.

Lemma format_fuel (n : Z) :
  0 <= n -> n < 10 ^ Z.of_nat (S (Z.to_nat (Z.log2 n))).
Proof.
  intros Hn. rewrite Nat2Z.inj_succ, Z2Nat.id by apply Z.log2_nonneg.
  destruct (Z.eq_dec n 0) as [-> | Hpos]; [reflexivity|].
  pose proof (Z.log2_nonneg n).
  destruct (Z.log2_spec n ltac:(lia)) as [_ Hlt].
  eapply Z.lt_le_trans; [exact Hlt|].
  apply Z.pow_le_mono_l. lia.
Qed.

(** [ParseInt] reads back what [FormatInt] writes, on the whole range of
    [int64]. *)
Lemma ParseInt_FormatInt (i : Z) :
  - 2 ^ 63 <= i < 2 ^ 63 ->
  strconv.ParseInt (strconv.FormatInt i) 64 = Some i.
Proof.
  intros Hi. unfold strconv.FormatInt.
  set (k := Z.to_nat (Z.log2 (Z.abs i))).
  assert (Habs : 0 <= Z.abs i) by lia.
  destruct (format_digits_head k (Z.abs i) "" Habs) as (c & rest & Hdigits & Hc).
  assert (Hparse : strconv.ParseUint10 (strconv.format_digits (S k) (Z.abs i) "")
                   = Some (Z.abs i)).
  { rewrite Hdigits. unfold strconv.ParseUint10. rewrite <- Hdigits.
    rewrite parse_format_digits by (split; [lia|apply format_fuel; lia]).
    reflexivity. }
  change (2 ^ 63) with 9223372036854775808 in Hi.
  destruct (i <? 0) eqn:Hneg.
  - apply Z.ltb_lt in Hneg. unfold strconv.ParseInt.
    change (byte_is 45 "-") with true. change (byte_is 43 "-") with false.
    cbn [orb]. rewrite Hparse.
    change (2 ^ (64 - 1)) with 9223372036854775808.
    rewrite (proj2 (Z.leb_le _ _)) by lia. f_equal. lia.
  - apply Z.ltb_ge in Hneg. rewrite Hdigits in *. unfold strconv.ParseInt.
    rewrite (is_digit_not_sign c Hc).
    assert (byte_is 45 c = false) as ->.
    { pose proof (is_digit_not_sign c Hc) as H.
      by apply orb_false_iff in H as [_ ?]. }
    rewrite Hparse. change (2 ^ (64 - 1)) with 9223372036854775808.
    rewrite (proj2 (Z.ltb_lt _ _)) by lia. f_equal. lia.
Qed.

(** *** Rounding to a binary64 *)

Lemma digits2_pos_spec (m : positive) :
  2 ^ (Zpos (digits2_pos m) - 1) <= Zpos m < 2 ^ Zpos (digits2_pos m).
Proof.
  induction m as [m IH|m IH|]; cbn [digits2_pos].
  - rewrite Pos2Z.inj_succ.
    replace (Z.succ (Zpos (digits2_pos m)) - 1) with (Z.succ (Zpos (digits2_pos m) - 1)) by lia.
    rewrite !Z.pow_succ_r by lia. lia.
  - rewrite Pos2Z.inj_succ.
    replace (Z.succ (Zpos (digits2_pos m)) - 1) with (Z.succ (Zpos (digits2_pos m) - 1)) by lia.
    rewrite !Z.pow_succ_r by lia. lia.
  - simpl. lia.
Qed.

Lemma bounded_spec (m : positive) (e : Z) :
  bounded 53 1024 m e = true ->
  Zpos m < 2 ^ 53 /\ - 1074 <= e <= 971
  /\ (2 ^ 52 <= Zpos m \/ e = - 1074).
Proof.
  unfold bounded, canonical_mantissa, fexp, emin.
  intros [Hc He]%andb_true_iff. apply Z.eqb_eq in Hc. apply Z.leb_le in He.
  pose proof (digits2_pos_spec m) as [Hlo Hhi].
  set (k := Zpos (digits2_pos m)) in *.
  assert (Hk : 0 < k) by (subst k; lia).
  change (3 - 1024 - 53) with (- 1074) in Hc.
  change (1024 - 53) with 971 in He.
  assert (Hk53 : k <= 53) by lia.
  split.
  - eapply Z.lt_le_trans; [exact Hhi|].
    apply Z.pow_le_mono_r; lia.
  - split; [lia|].
    destruct (Z.eq_dec e (- 1074)) as [->|Hne]; [right; reflexivity|left].
    assert (k = 53) by lia. subst k.
    replace (2 ^ 52) with (2 ^ (Zpos (digits2_pos m) - 1)); [exact Hlo|].
    f_equal. lia.
Qed.

Lemma log_grid (N d g : Z) :
  0 < d -> 0 <= g -> 2 ^ (g + 104) * d <= N -> N < 2 ^ (g + 105) * d ->
  Z.max (Z.log2 (N / d)) 104 - 104 = g.
Proof.
  intros Hd Hg Hlo Hhi.
  assert (Hlog : Z.log2 (N / d) = g + 104).
  { apply Z.log2_unique; [lia|]. split.
    - apply Z.div_le_lower_bound; lia.
    - replace (Z.succ (g + 104)) with (g + 105) by lia.
      apply Z.div_lt_upper_bound; lia. }
  lia.
Qed.

Lemma log_least (N d : Z) :
  0 < d -> 0 <= N -> N < 2 ^ 105 * d ->
  Z.max (Z.log2 (N / d)) 104 - 104 = 0.
Proof.
  intros Hd HN Hhi.
  assert (HY : N / d < 2 ^ 105) by (apply Z.div_lt_upper_bound; lia).
  assert (0 <= N / d) by (apply Z.div_pos; lia).
  destruct (Z.eq_dec (N / d) 0) as [->|Hne]; [reflexivity|].
  assert (Z.log2 (N / d) < 105) by (apply Z.log2_lt_pow2; lia).
  lia.
Qed.

Lemma round_step (A D T : Z) :
  0 < D -> 0 <= A ->
  (4 * T - 2) * D <= 4 * A -> 4 * A <= (4 * T + 2) * D ->
  (Z.even T = false -> (4 * T - 2) * D < 4 * A /\ 4 * A < (4 * T + 2) * D) ->
  match 2 * (A mod D) ?= D with
  | Lt => A / D
  | Gt => A / D + 1
  | Eq => if Z.even (A / D) then A / D else A / D + 1
  end = T.
Proof.
  intros HD HA Hlo Hhi Hodd.
  pose proof (Z.div_mod A D ltac:(lia)) as Hdiv.
  pose proof (Z.mod_pos_bound A D HD) as Hr.
  set (q := A / D) in *. set (r := A mod D) in *.
  assert (Hq : q = T - 1 \/ q = T) by nia.
  destruct (Z.compare_spec (2 * r) D) as [Heq|Hlt|Hgt].
  - destruct Hq as [Hq|Hq].
    + assert (Heven : Z.even q = negb (Z.even T)).
      { rewrite Hq. replace (T - 1) with (Z.pred T) by lia.
        rewrite Z.even_pred. rewrite <- Z.negb_even. reflexivity. }
      rewrite Heven. destruct (Z.even T) eqn:HT; simpl; [lia|].
      destruct (Hodd eq_refl). nia.
    + rewrite Hq. destruct (Z.even T) eqn:HT; [reflexivity|].
      destruct (Hodd eq_refl). nia.
  - nia.
  - nia.
Qed.

Lemma round_within (neg : bool) (m : positive) (e n d : Z) :
  bounded 53 1024 m e = true -> 0 < n -> 0 < d ->
  within m e n d = true ->
  strconv.round_ratio neg n d = S754_finite neg m e.
Proof.
  intros Hb Hn Hd Hin.
  destruct (bounded_spec m e Hb) as (Hm & He & Hnorm).
  unfold within, strconv.lower_bound, strconv.upper_bound in Hin.
  set (M := Zpos m) in *. set (h := e + 1074) in *.
  assert (Hh : 0 <= h) by (subst h; lia).
  assert (HH : 0 < 2 ^ h) by (apply Z.pow_pos_nonneg; lia).
  set (H := 2 ^ h) in *.
  set (A := n * 2 ^ 1074).
  assert (HA : 0 < A) by (subst A; apply Z.mul_pos_pos; [lia|reflexivity]).
  assert (H4 : n * 2 ^ 1076 = 4 * A)
    by (subst A; change (2 ^ 1076) with (2 ^ 1074 * 4); ring).
  assert (HY : n * 2 ^ 1126 = A * 2 ^ 52)
    by (subst A; change (2 ^ 1126) with (2 ^ 1074 * 2 ^ 52); ring).
  rewrite H4 in Hin.
  assert (HM0 : 0 < M) by (subst M; lia).
  assert (Hresult : forall g T : Z,
            Z.max (Z.log2 (A * 2 ^ 52 / d)) 104 - 104 = g ->
            match 2 * (A mod (d * 2 ^ g)) ?= d * 2 ^ g with
            | Lt => A / (d * 2 ^ g)
            | Gt => A / (d * 2 ^ g) + 1
            | Eq => if Z.even (A / (d * 2 ^ g)) then A / (d * 2 ^ g)
                    else A / (d * 2 ^ g) + 1
            end = T ->
            (if T =? 2 ^ 53 then (2 ^ 52, g + 1) else (T, g)) = (M, h) ->
            strconv.round_ratio neg n d = S754_finite neg m e).
  { intros g T Hg HT Hnorm'. unfold strconv.round_ratio.
    rewrite (proj2 (Z.eqb_neq n 0)) by lia. cbv zeta.
    rewrite HY, Hg. fold A. rewrite HT, Hnorm'. fold M in Hm.
    change (Zpos m) with M. unfold M at 1.
    rewrite (proj2 (Z.leb_le h 2045)) by (subst h; lia).
    f_equal. subst h. lia. }
  assert (Hpow52 : 2 ^ 52 = 4503599627370496) by reflexivity.
  assert (Hpow53 : 2 ^ 53 = 9007199254740992) by reflexivity.
  assert (Hp104 : forall k, 0 <= k -> 2 ^ (k + 104) = 2 ^ k * 2 ^ 52 * 2 ^ 52).
  { intros k Hk. rewrite <- !Z.pow_add_r by lia. f_equal. lia. }
  assert (Hp105 : forall k, 0 <= k ->
                    2 ^ (k + 105) = 2 * 2 ^ k * 2 ^ 52 * 2 ^ 52).
  { intros k Hk. replace (k + 105) with (Z.succ (k + 104)) by lia.
    rewrite Z.pow_succ_r, Hp104 by lia. ring. }
  destruct ((M =? 2 ^ 52) && negb (e =? - 1074)) eqn:Hcase.
  - (* the least mantissa of a binade above the lowest *)
    apply andb_true_iff in Hcase as [HM52 Hemin].
    apply Z.eqb_eq in HM52. apply negb_true_iff, Z.eqb_neq in Hemin.
    assert (Heven : Z.even M = true) by (rewrite HM52; reflexivity).
    rewrite Heven in Hin. apply andb_true_iff in Hin as [Hlo Hhi].
    apply Z.leb_le in Hlo, Hhi.
    assert (Hh1 : 0 < h) by (subst h; lia).
    destruct (Z_lt_le_dec A (M * H * d)) as [Hbelow|Habove].
    + set (H' := 2 ^ (h - 1)).
      assert (HH' : H = 2 * H').
      { subst H H'. rewrite <- Z.pow_succ_r by lia. f_equal. lia. }
      assert (0 < H') by (subst H'; apply Z.pow_pos_nonneg; lia).
      apply (Hresult (h - 1) (2 ^ 53)).
      * apply log_grid; [lia|lia| |].
        -- replace (h - 1 + 104) with ((h - 1) + 104) by lia.
           rewrite (Hp104 (h - 1)) by lia. fold H'. rewrite Hpow52. nia.
        -- replace (h - 1 + 105) with ((h - 1) + 105) by lia.
           rewrite (Hp105 (h - 1)) by lia. fold H'. rewrite Hpow52. nia.
      * fold H'. apply round_step; [nia|lia| | |].
        -- rewrite Hpow53. nia.
        -- rewrite Hpow53. nia.
        -- intros Hodd. rewrite Hpow53 in Hodd. discriminate.
      * rewrite Z.eqb_refl. f_equal; [lia|lia].
    + apply (Hresult h M).
      * apply log_grid; [lia|lia| |].
        -- rewrite (Hp104 h) by lia. fold H. rewrite Hpow52. nia.
        -- rewrite (Hp105 h) by lia. fold H. rewrite Hpow52. nia.
      * fold H. apply round_step; [nia|lia| | |].
        -- nia.
        -- nia.
        -- intros Hodd. congruence.
      * rewrite (proj2 (Z.eqb_neq M (2 ^ 53))) by lia. reflexivity.
  - assert (Hbounds : (4 * M - 2) * H * d <= 4 * A
                      /\ 4 * A <= (4 * M + 2) * H * d
                      /\ (Z.even M = false ->
                          (4 * M - 2) * H * d < 4 * A
                          /\ 4 * A < (4 * M + 2) * H * d)).
    { destruct (Z.even M).
      - apply andb_true_iff in Hin as [Hlo Hhi].
        apply Z.leb_le in Hlo, Hhi. split; [lia|]. split; [lia|discriminate].
      - apply andb_true_iff in Hin as [Hlo Hhi].
        apply Z.ltb_lt in Hlo, Hhi. split; [lia|]. split; [lia|]. lia. }
    destruct Hbounds as (Hlo & Hhi & Hodd).
    assert (Hround : match 2 * (A mod (d * 2 ^ h)) ?= d * 2 ^ h with
                     | Lt => A / (d * 2 ^ h)
                     | Gt => A / (d * 2 ^ h) + 1
                     | Eq => if Z.even (A / (d * 2 ^ h)) then A / (d * 2 ^ h)
                             else A / (d * 2 ^ h) + 1
                     end = M).
    { fold H. apply round_step; [nia|lia| | |].
      - nia.
      - nia.
      - intros HM. destruct (Hodd HM). split; nia. }
    apply (Hresult h M); [|exact Hround|].
    + destruct (Z_lt_le_dec (2 ^ 52) M) as [Hbig|Hsmall].
      * apply log_grid; [lia|lia| |].
        -- rewrite (Hp104 h) by lia. fold H. rewrite Hpow52 in *. nia.
        -- rewrite (Hp105 h) by lia. fold H. rewrite Hpow52, Hpow53 in *. nia.
      * assert (He0 : e = - 1074).
        { destruct Hnorm as [Hge|]; [|lia].
          assert (M = 2 ^ 52) by lia.
          apply andb_false_iff in Hcase as [Hc|Hc].
          - apply Z.eqb_neq in Hc. lia.
          - apply negb_false_iff, Z.eqb_eq in Hc. exact Hc. }
        assert (h = 0) by (subst h; lia).
        assert (H = 1) by (subst H; replace h with 0 by lia; reflexivity).
        replace h with 0 by lia.
        apply log_least; [lia|nia|].
        change (2 ^ 105) with (2 * 2 ^ 52 * 2 ^ 52). rewrite Hpow52 in *. nia.
    + rewrite (proj2 (Z.eqb_neq M (2 ^ 53))) by lia. reflexivity.
Qed.

Lemma within_intro (m : positive) (e n d : Z) :
  strconv.lower_bound m e * d <= n * 2 ^ 1076 ->
  n * 2 ^ 1076 <= strconv.upper_bound m e * d ->
  (Z.even (Zpos m) = false ->
   strconv.lower_bound m e * d < n * 2 ^ 1076
   /\ n * 2 ^ 1076 < strconv.upper_bound m e * d) ->
  within m e n d = true.
Proof.
  intros Hlo Hhi Hodd. unfold within. cbv zeta.
  destruct (Z.even (Zpos m)).
  - apply andb_true_iff. split; apply Z.leb_le; lia.
  - destruct (Hodd eq_refl). apply andb_true_iff. split; apply Z.ltb_lt; lia.
Qed.

Lemma within_scale (m : positive) (e n d k : Z) :
  0 < k -> within m e (k * n) (k * d) = within m e n d.
Proof.
  intros Hk. unfold within. cbv zeta.
  set (lo := strconv.lower_bound m e). set (hi := strconv.upper_bound m e).
  set (P := 2 ^ 1076).
  assert (Hle : forall a b, (a * (k * d) <=? k * n * b) = (a * d <=? n * b)).
  { intros a b. destruct (Z.leb_spec (a * d) (n * b)).
    - apply Z.leb_le. nia.
    - apply Z.leb_gt. nia. }
  assert (Hle' : forall a b, (k * n * b <=? a * (k * d)) = (n * b <=? a * d)).
  { intros a b. destruct (Z.leb_spec (n * b) (a * d)).
    - apply Z.leb_le. nia.
    - apply Z.leb_gt. nia. }
  assert (Hlt : forall a b, (a * (k * d) <? k * n * b) = (a * d <? n * b)).
  { intros a b. destruct (Z.ltb_spec (a * d) (n * b)).
    - apply Z.ltb_lt. nia.
    - apply Z.ltb_ge. nia. }
  assert (Hlt' : forall a b, (k * n * b <? a * (k * d)) = (n * b <? a * d)).
  { intros a b. destruct (Z.ltb_spec (n * b) (a * d)).
    - apply Z.ltb_lt. nia.
    - apply Z.ltb_ge. nia. }
  by rewrite Hle, Hle', Hlt, Hlt'.
Qed.

(** The bounds of a binary64 lie on either side of it. *)
Lemma bounds_order (m : positive) (e : Z) :
  bounded 53 1024 m e = true ->
  2 <= strconv.lower_bound m e
  /\ strconv.lower_bound m e < strconv.units m e
  /\ strconv.units m e < strconv.upper_bound m e
  /\ strconv.upper_bound m e <= 2 ^ 2100.
Proof.
  intros Hb. destruct (bounded_spec m e Hb) as (Hm & He & _).
  unfold strconv.lower_bound, strconv.units, strconv.upper_bound.
  assert (HH : 0 < 2 ^ (e + 1074)) by (apply Z.pow_pos_nonneg; lia).
  assert (Hhi : 2 ^ (e + 1074) <= 2 ^ 2045) by (apply Z.pow_le_mono_r; lia).
  set (H := 2 ^ (e + 1074)) in *. set (M := Zpos m) in *.
  assert (0 < M) by (subst M; lia).
  change (2 ^ 2100) with (2 ^ 55 * 2 ^ 2045).
  change (2 ^ 53) with 9007199254740992 in Hm.
  change (2 ^ 55) with 36028797018963968.
  split; [|split; [|split]].
  - destruct ((M =? 2 ^ 52) && negb (e =? -1074)); nia.
  - destruct ((M =? 2 ^ 52) && negb (e =? -1074)); nia.
  - nia.
  - nia.
Qed.

(** The value cut after a digit and rounded down is within the bounds
    when the loop finds it so. *)
Lemma okdown_within (m : positive) (e j : Z) :
  bounded 53 1024 m e = true ->
  let t := fst (fst (strconv.truncate (strconv.units m e) j)) in
  match strconv.dec_cmp t j (strconv.lower_bound m e) with
  | Gt => true
  | Eq => Z.even (Zpos m)
  | Lt => false
  end = true ->
  0 < t /\ within m e (fst (dec_ratio t j)) (snd (dec_ratio t j)) = true.
Proof.
  intros Hb. destruct (bounds_order m e Hb) as (Hlo & Hlu & Huh & _).
  unfold strconv.truncate, strconv.dec_cmp, dec_ratio.
  set (P := 2 ^ 1076). assert (HP : 0 < P) by reflexivity.
  set (lo := strconv.lower_bound m e) in *.
  set (hi := strconv.upper_bound m e) in *.
  set (v := strconv.units m e) in *.
  destruct (0 <=? j) eqn:Hj; cbn [fst snd]; intros Hok.
  - apply Z.leb_le in Hj.
    assert (HT : 0 < 10 ^ j) by (apply Z.pow_pos_nonneg; lia).
    set (T := 10 ^ j) in *.
    pose proof (Z.div_mod v (T * P) ltac:(nia)) as Hdiv.
    pose proof (Z.mod_pos_bound v (T * P) ltac:(nia)) as Hr.
    set (t := v / (T * P)) in *.
    destruct (Z.compare_spec (t * T * P) lo) as [Heq|Hlt|Hgt];
      [|discriminate|].
    + split; [nia|]. apply within_intro; [fold P; fold lo; lia|fold P; fold hi; nia|].
      intros Hodd. congruence.
    + split; [nia|]. apply within_intro; [fold P; fold lo; lia|fold P; fold hi; nia|].
      intros _. fold P lo hi. split; nia.
  - apply Z.leb_gt in Hj.
    assert (HT : 0 < 10 ^ (- j)) by (apply Z.pow_pos_nonneg; lia).
    set (T := 10 ^ (- j)) in *.
    pose proof (Z.div_mod (v * T) P ltac:(lia)) as Hdiv.
    pose proof (Z.mod_pos_bound (v * T) P ltac:(lia)) as Hr.
    set (t := v * T / P) in *.
    destruct (Z.compare_spec (t * P) (lo * T)) as [Heq|Hlt|Hgt];
      [|discriminate|].
    + split; [nia|]. apply within_intro; [fold P; fold lo; lia|fold P; fold hi; nia|].
      intros Hodd. congruence.
    + split; [nia|]. apply within_intro; [fold P; fold lo; lia|fold P; fold hi; nia|].
      intros _. fold P lo hi. split; nia.
Qed.

(** So is the value rounded up. *)
Lemma okup_within (m : positive) (e j : Z) :
  bounded 53 1024 m e = true ->
  let t := fst (fst (strconv.truncate (strconv.units m e) j)) in
  match strconv.dec_cmp (t + 1) j (strconv.upper_bound m e) with
  | Lt => true
  | Eq => Z.even (Zpos m)
  | Gt => false
  end = true ->
  0 < t + 1
  /\ within m e (fst (dec_ratio (t + 1) j)) (snd (dec_ratio (t + 1) j)) = true.
Proof.
  intros Hb. destruct (bounds_order m e Hb) as (Hlo & Hlu & Huh & _).
  unfold strconv.truncate, strconv.dec_cmp, dec_ratio.
  set (P := 2 ^ 1076). assert (HP : 0 < P) by reflexivity.
  set (lo := strconv.lower_bound m e) in *.
  set (hi := strconv.upper_bound m e) in *.
  set (v := strconv.units m e) in *.
  destruct (0 <=? j) eqn:Hj; cbn [fst snd]; intros Hok.
  - apply Z.leb_le in Hj.
    assert (HT : 0 < 10 ^ j) by (apply Z.pow_pos_nonneg; lia).
    set (T := 10 ^ j) in *.
    pose proof (Z.div_mod v (T * P) ltac:(nia)) as Hdiv.
    pose proof (Z.mod_pos_bound v (T * P) ltac:(nia)) as Hr.
    set (t := v / (T * P)) in *.
    assert (Ht : 0 <= t) by (subst t; apply Z.div_pos; nia).
    destruct (Z.compare_spec ((t + 1) * T * P) hi) as [Heq|Hlt|Hgt];
      [| |discriminate].
    + split; [lia|]. apply within_intro; [fold P; fold lo; nia|fold P; fold hi; lia|].
      intros Hodd. congruence.
    + split; [lia|]. apply within_intro; [fold P; fold lo; nia|fold P; fold hi; lia|].
      intros _. fold P lo hi. split; nia.
  - apply Z.leb_gt in Hj.
    assert (HT : 0 < 10 ^ (- j)) by (apply Z.pow_pos_nonneg; lia).
    set (T := 10 ^ (- j)) in *.
    pose proof (Z.div_mod (v * T) P ltac:(lia)) as Hdiv.
    pose proof (Z.mod_pos_bound (v * T) P ltac:(lia)) as Hr.
    set (t := v * T / P) in *.
    assert (Ht : 0 <= t) by (subst t; apply Z.div_pos; nia).
    destruct (Z.compare_spec ((t + 1) * P) (hi * T)) as [Heq|Hlt|Hgt];
      [| |discriminate].
    + split; [lia|]. apply within_intro; [fold P; fold lo; nia|fold P; fold hi; lia|].
      intros Hodd. congruence.
    + split; [lia|]. apply within_intro; [fold P; fold lo; nia|fold P; fold hi; lia|].
      intros _. fold P lo hi. split; nia.
Qed.

(** The value itself, with all its digits, is within its bounds. *)
Lemma exact_within (m : positive) (e : Z) :
  bounded 53 1024 m e = true ->
  let '(t, j) :=
    if 0 <=? e then (Zpos m * 2 ^ e, 0) else (Zpos m * 5 ^ (- e), e) in
  0 < t /\ within m e (fst (dec_ratio t j)) (snd (dec_ratio t j)) = true.
Proof.
  intros Hb. destruct (bounds_order m e Hb) as (Hlo & Hlu & Huh & _).
  destruct (bounded_spec m e Hb) as (_ & He & _).
  destruct (0 <=? e) eqn:Hsign.
  - apply Z.leb_le in Hsign.
    assert (Hunits : strconv.units m e = Zpos m * 2 ^ e * 2 ^ 1076).
    { unfold strconv.units. rewrite Z.pow_add_r by lia.
      change (2 ^ 1076) with (4 * 2 ^ 1074). ring. }
    assert (0 < 2 ^ e) by (apply Z.pow_pos_nonneg; lia).
    split; [lia|]. unfold dec_ratio. change (0 <=? 0) with true.
    cbn [fst snd]. change (10 ^ 0) with 1.
    apply within_intro; [nia|nia|]. intros _. split; nia.
  - apply Z.leb_gt in Hsign.
    assert (Hunits : strconv.units m e * 2 ^ (- e) = Zpos m * 2 ^ 1076).
    { unfold strconv.units.
      replace (4 * Zpos m * 2 ^ (e + 1074) * 2 ^ (- e))
        with (4 * Zpos m * (2 ^ (e + 1074) * 2 ^ (- e))) by ring.
      rewrite <- Z.pow_add_r by lia.
      replace (e + 1074 + - e) with 1074 by lia.
      change (2 ^ 1076) with (4 * 2 ^ 1074). ring. }
    assert (0 < 5 ^ (- e)) by (apply Z.pow_pos_nonneg; lia).
    assert (0 < 2 ^ (- e)) by (apply Z.pow_pos_nonneg; lia).
    split; [lia|]. unfold dec_ratio.
    rewrite (proj2 (Z.leb_gt 0 e)) by lia. cbn [fst snd].
    change 10 with (2 * 5). rewrite Z.pow_mul_l.
    set (A := 2 ^ (- e)) in *. set (B := 5 ^ (- e)) in *.
    set (P := 2 ^ 1076) in *.
    assert (HAB : 0 < A * B) by nia.
    assert (Hv : strconv.units m e * (A * B) = Zpos m * B * P)
      by (rewrite Z.mul_assoc, Hunits; ring).
    assert (Hl : strconv.lower_bound m e * (A * B)
                 < strconv.units m e * (A * B))
      by (apply Z.mul_lt_mono_pos_r; lia).
    assert (Hu : strconv.units m e * (A * B)
                 < strconv.upper_bound m e * (A * B))
      by (apply Z.mul_lt_mono_pos_r; lia).
    apply within_intro; fold P; [lia|lia|]. intros _. split; lia.
Qed.

Lemma roundShortest_within (fuel : nat) (m : positive) (e j : Z) :
  bounded 53 1024 m e = true ->
  0 < fst (strconv.roundShortest fuel m e j)
  /\ within m e
       (fst (dec_ratio (fst (strconv.roundShortest fuel m e j))
                       (snd (strconv.roundShortest fuel m e j))))
       (snd (dec_ratio (fst (strconv.roundShortest fuel m e j))
                       (snd (strconv.roundShortest fuel m e j)))) = true.
Proof.
  intros Hb. revert j. induction fuel as [|fuel IH]; intros j.
  - cbn [strconv.roundShortest]. pose proof (exact_within m e Hb) as Hexact.
    destruct (0 <=? e); exact Hexact.
  - cbn [strconv.roundShortest].
    pose proof (okdown_within m e j Hb) as Hdown.
    pose proof (okup_within m e j Hb) as Hup.
    destruct (strconv.truncate (strconv.units m e) j) as [[t r] d].
    cbn [fst snd] in Hdown, Hup. cbv zeta in Hdown, Hup.
    destruct (match strconv.dec_cmp t j (strconv.lower_bound m e) with
              | Gt => true | Eq => Z.even (Zpos m) | Lt => false end);
      destruct (match strconv.dec_cmp (t + 1) j (strconv.upper_bound m e) with
                | Lt => true | Eq => Z.even (Zpos m) | Gt => false end);
      cbn [andb].
    + destruct (2 * r ?= d); [destruct (Z.even t)| |]; cbn [fst snd]; auto.
    + cbn [fst snd]. auto.
    + cbn [fst snd]. auto.
    + apply IH.
Qed.

Lemma trim_within (fuel : nat) (m : positive) (e t j : Z) :
  0 < t ->
  within m e (fst (dec_ratio t j)) (snd (dec_ratio t j)) = true ->
  0 < fst (strconv.trim fuel t j)
  /\ within m e
       (fst (dec_ratio (fst (strconv.trim fuel t j))
                       (snd (strconv.trim fuel t j))))
       (snd (dec_ratio (fst (strconv.trim fuel t j))
                       (snd (strconv.trim fuel t j)))) = true.
Proof.
  revert t j. induction fuel as [|fuel IH]; intros t j Ht Hin.
  - cbn [strconv.trim fst snd]. auto.
  - cbn [strconv.trim].
    destruct ((t mod 10 =? 0) && negb (t =? 0)) eqn:Hzero; [|cbn [fst snd]; auto].
    apply andb_true_iff in Hzero as [Hmod _]. apply Z.eqb_eq in Hmod.
    pose proof (Z.div_mod t 10 ltac:(lia)) as Hdiv. rewrite Hmod in Hdiv.
    set (t' := t / 10) in *.
    apply IH; [lia|].
    rewrite <- Hin. replace t with (10 * t') by lia.
    unfold dec_ratio.
    destruct (0 <=? j) eqn:Hj.
    + apply Z.leb_le in Hj. rewrite (proj2 (Z.leb_le 0 (j + 1))) by lia.
      cbn [fst snd]. f_equal. rewrite Z.pow_add_r by lia.
      change (10 ^ 1) with 10. ring.
    + apply Z.leb_gt in Hj. cbn [fst snd].
      destruct (0 <=? j + 1) eqn:Hj1.
      * apply Z.leb_le in Hj1. assert (j = -1) by lia. subst j.
        cbn [fst snd]. change (10 ^ (-1 + 1)) with 1.
        change (10 ^ (- -1)) with (10 * 1).
        rewrite within_scale by lia. f_equal. lia.
      * apply Z.leb_gt in Hj1. cbn [fst snd].
        replace (- j) with (1 + (- (j + 1))) by lia.
        rewrite Z.pow_add_r by lia. change (10 ^ 1) with 10.
        by rewrite within_scale by lia.
Qed.

(** The shortest digits of a binary64 stand for a decimal within its
    bounds. *)
Lemma shortest_within (m : positive) (e : Z) :
  bounded 53 1024 m e = true ->
  0 < fst (strconv.shortest m e)
  /\ within m e
       (fst (dec_ratio (fst (strconv.shortest m e))
                       (snd (strconv.shortest m e))))
       (snd (dec_ratio (fst (strconv.shortest m e))
                       (snd (strconv.shortest m e)))) = true.
Proof.
  intros Hb. unfold strconv.shortest.
  set (p := strconv.decimal_point (strconv.upper_bound m e)).
  destruct (roundShortest_within (Z.to_nat (p - Z.min e 0)) m e (p - 1) Hb)
    as [Ht Hin].
  destruct (strconv.roundShortest (Z.to_nat (p - Z.min e 0)) m e (p - 1))
    as [t j]. cbn [fst snd] in Ht, Hin.
  by apply trim_within.
Qed.

Lemma string_append_cons (c : ascii) (a b : string) :
  String c a +:+ b = String c (a +:+ b).
Proof. reflexivity. Qed.

Lemma string_append_empty_r (s : string) : s +:+ "" = s.
Proof.
  induction s as [|c s IH]; [reflexivity|]. by rewrite string_append_cons, IH.
Qed.

Lemma string_append_assoc (a b c : string) :
  (a +:+ b) +:+ c = a +:+ (b +:+ c).
Proof.
  induction a as [|x a IH]; [reflexivity|]. by rewrite !string_append_cons, IH.
Qed.

Lemma string_length_append (a b : string) :
  String.length (a +:+ b) = (String.length a + String.length b)%nat.
Proof.
  induction a as [|x a IH]; [reflexivity|].
  rewrite string_append_cons. simpl. by rewrite IH.
Qed.

Lemma all_digits_append (a b : string) :
  all_digits (a +:+ b) = all_digits a && all_digits b.
Proof.
  induction a as [|x a IH]; [reflexivity|]. rewrite string_append_cons. simpl.
  by rewrite IH, andb_assoc.
Qed.

Lemma all_plain_append (a b : string) :
  all_plain (a +:+ b) = all_plain a && all_plain b.
Proof.
  induction a as [|x a IH]; [reflexivity|]. rewrite string_append_cons. simpl.
  by rewrite IH, andb_assoc.
Qed.

Lemma all_digits_plain (s : string) :
  all_digits s = true -> all_plain s = true.
Proof.
  induction s as [|c s IH]; [reflexivity|]. simpl.
  intros [Hc Hs]%andb_true_iff. unfold plain. rewrite Hc. cbn [orb andb].
  auto.
Qed.

Lemma parse_digits_append (a b : string) (acc : Z) :
  strconv.parse_digits (a +:+ b) acc
  = match strconv.parse_digits a acc with
    | Some v => strconv.parse_digits b v
    | None => None
    end.
Proof.
  revert acc. induction a as [|x a IH]; intros acc; [reflexivity|].
  rewrite string_append_cons. simpl. destruct (is_digit x); [apply IH|reflexivity].
Qed.

Lemma parse_digits_mono (s : string) (acc v : Z) :
  strconv.parse_digits s acc = Some v -> 0 <= acc -> acc <= v.
Proof.
  revert acc. induction s as [|c s IH]; intros acc Hv Hacc.
  - simpl in Hv. injection Hv as ->. lia.
  - simpl in Hv. destruct (is_digit c) eqn:Hc; [|discriminate].
    pose proof (is_digit_val c Hc). apply IH in Hv; lia.
Qed.

(** The digits that [format_digits] writes in front of [acc]. *)
Lemma format_digits_spec (fuel : nat) (n : Z) (acc : string) :
  0 < n < 10 ^ Z.of_nat fuel ->
  exists D,
    strconv.format_digits fuel n acc = D +:+ acc
    /\ all_digits D = true
    /\ (forall a, strconv.parse_digits D a
                  = Some (a * 10 ^ Z.of_nat (String.length D) + n))
    /\ 10 ^ (Z.of_nat (String.length D) - 1) <= n
       < 10 ^ Z.of_nat (String.length D)
    /\ (0 < String.length D)%nat.
Proof.
  revert n acc. induction fuel as [|fuel IH]; intros n acc Hn.
  - simpl in Hn. lia.
  - cbn [strconv.format_digits].
    assert (Hmod : 0 <= n mod 10 <= 9)
      by (pose proof (Z.mod_pos_bound n 10); lia).
    destruct (digit_byte_digit _ Hmod) as [Hdigit Hval].
    destruct (n <? 10) eqn:Hsmall.
    + apply Z.ltb_lt in Hsmall.
      exists (String (strconv.digit_byte (n mod 10)) "").
      split; [reflexivity|]. split; [simpl; by rewrite Hdigit|].
      split; [|simpl; lia].
      intros a. simpl. rewrite Hdigit, Hval, Z.mod_small by lia.
      f_equal. lia.
    + apply Z.ltb_ge in Hsmall.
      pose proof (Z.div_mod n 10 ltac:(lia)) as Hdiv.
      rewrite Nat2Z.inj_succ, Z.pow_succ_r in Hn by lia.
      destruct (IH (n / 10) (String (strconv.digit_byte (n mod 10)) acc))
        as (D & HD & Hall & Hparse & Hlen & Hpos); [lia|].
      exists (D +:+ String (strconv.digit_byte (n mod 10)) "").
      rewrite HD, string_append_assoc. split; [reflexivity|].
      rewrite all_digits_append, string_length_append, Hall.
      cbn [String.length all_digits andb].
      rewrite Hdigit.
      replace (Z.of_nat (String.length D + 1))
        with (Z.succ (Z.of_nat (String.length D))) by lia.
      rewrite Z.pow_succ_r by lia.
      split; [reflexivity|]. split.
      * intros a. rewrite parse_digits_append, Hparse. simpl.
        rewrite Hdigit, Hval. f_equal. lia.
      * split; [|lia].
        replace (Z.succ (Z.of_nat (String.length D)) - 1)
          with (Z.succ (Z.of_nat (String.length D) - 1)) by lia.
        rewrite Z.pow_succ_r by lia. lia.
Qed.

(** The digits of a positive integer: they read back as the integer,
    and their number is the number of decimal digits of the integer. *)
Lemma digits_spec (n : Z) :
  0 < n ->
  all_digits (strconv.digits n) = true
  /\ (forall a, strconv.parse_digits (strconv.digits n) a
                = Some (a * 10 ^ Z.of_nat (String.length (strconv.digits n))
                        + n))
  /\ 10 ^ (Z.of_nat (String.length (strconv.digits n)) - 1) <= n
     < 10 ^ Z.of_nat (String.length (strconv.digits n))
  /\ (0 < String.length (strconv.digits n))%nat.
Proof.
  intros Hn. unfold strconv.digits.
  destruct (format_digits_spec (S (Z.to_nat (Z.log2 n))) n "")
    as (D & HD & H); [split; [lia|apply format_fuel; lia]|].
  rewrite HD, string_append_empty_r. exact H.
Qed.

Lemma zeros_spec (k : nat) :
  all_digits (strconv.zeros k) = true
  /\ String.length (strconv.zeros k) = k
  /\ forall a, strconv.parse_digits (strconv.zeros k) a
               = Some (a * 10 ^ Z.of_nat k).
Proof.
  induction k as [|k (Hall & Hlen & Hparse)].
  - split; [reflexivity|]. split; [reflexivity|]. intros a. simpl.
    f_equal. lia.
  - split; [simpl; exact Hall|]. split; [simpl; by rewrite Hlen|].
    intros a. cbn [strconv.zeros strconv.parse_digits].
    change (is_digit "0") with true. cbn iota. rewrite Hparse.
    rewrite Nat2Z.inj_succ, Z.pow_succ_r by lia.
    change (strconv.digit_val "0") with 0. f_equal. lia.
Qed.

Lemma string_take_drop (k : nat) (s : string) :
  strconv.take k s +:+ strconv.drop k s = s.
Proof.
  revert s. induction k as [|k IH]; intros [|c s]; try reflexivity.
  cbn [strconv.take strconv.drop]. by rewrite string_append_cons, IH.
Qed.

Lemma string_length_take (k : nat) (s : string) :
  (k <= String.length s)%nat -> String.length (strconv.take k s) = k.
Proof.
  revert s. induction k as [|k IH]; intros [|c s] Hk; try reflexivity.
  - simpl in Hk. lia.
  - simpl in *. rewrite IH; lia.
Qed.

Lemma string_take_all (k : nat) (s : string) :
  (String.length s <= k)%nat -> strconv.take k s = s.
Proof.
  revert s. induction k as [|k IH]; intros [|c s] Hk; try reflexivity.
  - simpl in Hk. lia.
  - simpl in *. rewrite IH; [reflexivity|lia].
Qed.


Lemma plain_bytes (c : ascii) :
  plain c = true ->
  byte_is 95 c = false
  /\ byte_is 98 (strconv.lower c) = false
  /\ byte_is 111 (strconv.lower c) = false
  /\ byte_is 120 (strconv.lower c) = false.
Proof.
  destruct c as [b0 b1 b2 b3 b4 b5 b6 b7].
  destruct b0, b1, b2, b3, b4, b5, b6, b7; intros H; vm_compute in H;
    try discriminate H; repeat split; reflexivity.
Qed.

Lemma is_digit_plain (c : ascii) :
  is_digit c = true ->
  byte_is 95 c = false /\ byte_is 46 c = false /\ plain c = true.
Proof.
  intros Hc. unfold plain. rewrite Hc. split; [|split; [|reflexivity]].
  - revert Hc. unfold is_digit, byte_in, byte_is.
    rewrite andb_true_iff, !N.leb_le, N.eqb_neq. lia.
  - revert Hc. unfold is_digit, byte_in, byte_is.
    rewrite andb_true_iff, !N.leb_le, N.eqb_neq. lia.
Qed.

Lemma read_mantissa_digit (c : ascii) (rest : string) (st : strconv.mantissa) :
  is_digit c = true ->
  strconv.read_mantissa false (String c rest) st
  = strconv.read_mantissa false rest
      {| strconv.m_val := 10 * strconv.m_val st + strconv.digit_val c;
         strconv.m_frac := if strconv.m_dot st then strconv.m_frac st + 1
                           else strconv.m_frac st;
         strconv.m_dot := strconv.m_dot st;
         strconv.m_digits := true |}.
Proof.
  intros Hc. destruct (is_digit_plain c Hc) as (H95 & H46 & _).
  cbn [strconv.read_mantissa]. by rewrite H95, H46, Hc.
Qed.

(** The digit loop of [readFloat] over a run of digits. *)
Lemma read_mantissa_digits (A rest : string) (st : strconv.mantissa) (v : Z) :
  all_digits A = true -> (0 < String.length A)%nat ->
  strconv.parse_digits A (strconv.m_val st) = Some v ->
  strconv.read_mantissa false (A +:+ rest) st
  = strconv.read_mantissa false rest
      {| strconv.m_val := v;
         strconv.m_frac :=
           if strconv.m_dot st
           then strconv.m_frac st + Z.of_nat (String.length A)
           else strconv.m_frac st;
         strconv.m_dot := strconv.m_dot st;
         strconv.m_digits := true |}.
Proof.
  revert st. induction A as [|c A IH]; intros st Hall Hlen Hv.
  - simpl in Hlen. lia.
  - simpl in Hall. apply andb_true_iff in Hall as [Hc Hall].
    cbn [strconv.parse_digits] in Hv. rewrite Hc in Hv.
    rewrite string_append_cons, read_mantissa_digit by exact Hc.
    destruct A as [|c' A].
    + simpl in Hv. injection Hv as <-.
      change ("" +:+ rest) with rest. f_equal.
    + rewrite IH; [|exact Hall|simpl; lia|exact Hv].
      cbn [strconv.m_val strconv.m_frac strconv.m_dot strconv.m_digits].
      f_equal. f_equal. destruct (strconv.m_dot st); [|reflexivity].
      cbn [String.length]. lia.
Qed.

Lemma read_mantissa_point (rest : string) (st : strconv.mantissa) :
  strconv.m_dot st = false ->
  strconv.read_mantissa false (String "." rest) st
  = strconv.read_mantissa false rest
      {| strconv.m_val := strconv.m_val st;
         strconv.m_frac := strconv.m_frac st;
         strconv.m_dot := true;
         strconv.m_digits := strconv.m_digits st |}.
Proof.
  intros Hdot. cbn [strconv.read_mantissa].
  change (byte_is 95 ".") with false. change (byte_is 46 ".") with true.
  cbn iota. by rewrite Hdot.
Qed.

Lemma read_mantissa_exponent (t : string) (st : strconv.mantissa) :
  strconv.read_mantissa false (String "e" t) st = (st, String "e" t).
Proof. reflexivity. Qed.

(** The digits of an exponent below 10000 are read as the number they
    write. *)
Lemma read_exp_digits (s : string) (acc v : Z) :
  all_digits s = true -> strconv.parse_digits s acc = Some v ->
  0 <= acc -> v < 10000 ->
  strconv.read_exp s acc = Some v.
Proof.
  revert acc. induction s as [|c s IH]; intros acc Hall Hv Hacc Hsmall.
  - exact Hv.
  - simpl in Hall. apply andb_true_iff in Hall as [Hc Hall].
    cbn [strconv.parse_digits] in Hv. rewrite Hc in Hv.
    destruct (is_digit_plain c Hc) as (H95 & _).
    pose proof (is_digit_val c Hc) as Hd.
    pose proof (parse_digits_mono _ _ _ Hv ltac:(lia)) as Hmono.
    cbn [strconv.read_exp]. rewrite H95, Hc.
    rewrite (proj2 (Z.ltb_lt acc 10000)) by lia.
    replace (acc * 10 + strconv.digit_val c)
      with (10 * acc + strconv.digit_val c) by lia.
    apply IH; [exact Hall|exact Hv|lia|exact Hsmall].
Qed.

(** The exponent that [fmtE] writes is read as it is. *)
Lemma read_exponent_text (x : Z) :
  0 < Z.abs x < 10000 ->
  let text :=
    (if x <? 0 then "-" else "+")
    +:+ (if Z.abs x <? 10 then "0" else "") +:+ strconv.digits (Z.abs x) in
  strconv.read_exponent text = Some x /\ all_plain text = true.
Proof.
  intros Hx.
  destruct (digits_spec (Z.abs x) ltac:(lia)) as (Hall & Hparse & _ & Hlen).
  set (D := strconv.digits (Z.abs x)) in *.
  set (XX := (if Z.abs x <? 10 then "0" else "") +:+ D).
  assert (HallX : all_digits XX = true).
  { subst XX. destruct (Z.abs x <? 10); [|exact Hall].
    rewrite string_append_cons. simpl. exact Hall. }
  assert (HparseX : strconv.parse_digits XX 0 = Some (Z.abs x)).
  { subst XX. destruct (Z.abs x <? 10).
    - rewrite string_append_cons. change ("" +:+ D) with D.
      cbn [strconv.parse_digits]. change (is_digit "0") with true.
      cbn iota. change (10 * 0 + strconv.digit_val "0") with 0.
      rewrite Hparse. f_equal; lia.
    - change ("" +:+ D) with D. rewrite Hparse. f_equal; lia. }
  assert (Hhead : exists d rest, XX = String d rest /\ is_digit d = true).
  { destruct XX as [|d rest] eqn:HXX.
    - exfalso. subst XX. destruct (Z.abs x <? 10); [discriminate|].
      change ("" +:+ D) with D in HXX. rewrite HXX in Hlen. simpl in Hlen. lia.
    - exists d, rest. split; [reflexivity|]. simpl in HallX.
      by apply andb_true_iff in HallX as [? _]. }
  destruct Hhead as (d & rest & HXX & Hd).
  pose proof (read_exp_digits XX 0 (Z.abs x) HallX HparseX ltac:(lia)
                ltac:(lia)) as Hread.
  cbv zeta. fold XX.
  destruct (x <? 0) eqn:Hneg.
  - apply Z.ltb_lt in Hneg. split.
    + rewrite string_append_cons. change ("" +:+ XX) with XX.
      unfold strconv.read_exponent.
      change (byte_is 43 "-") with false. change (byte_is 45 "-") with true.
      cbn iota. rewrite HXX, Hd, <- HXX, Hread. simpl. f_equal. lia.
    + rewrite string_append_cons. change ("" +:+ XX) with XX.
      cbn [all_plain]. rewrite (all_digits_plain XX HallX). reflexivity.
  - apply Z.ltb_ge in Hneg. split.
    + rewrite string_append_cons. change ("" +:+ XX) with XX.
      unfold strconv.read_exponent.
      change (byte_is 43 "+") with true.
      cbn iota. rewrite HXX, Hd, <- HXX, Hread. simpl. f_equal. lia.
    + rewrite string_append_cons. change ("" +:+ XX) with XX.
      cbn [all_plain]. rewrite (all_digits_plain XX HallX). reflexivity.
Qed.

Lemma underscore_scan_plain (s : string) (saw : strconv.seen) :
  all_plain s = true -> saw <> strconv.SeenUnderscore ->
  strconv.underscore_scan false s saw = true.
Proof.
  revert saw. induction s as [|c s IH]; intros saw Hall Hsaw.
  - by destruct saw.
  - simpl in Hall. apply andb_true_iff in Hall as [Hc Hall].
    destruct (plain_bytes c Hc) as (H95 & _).
    cbn [strconv.underscore_scan]. rewrite H95. cbn [andb].
    rewrite orb_false_r.
    destruct (is_digit c); [by apply IH|].
    destruct saw; try by apply IH. by destruct Hsaw.
Qed.

(** The text of a float, which starts with a digit after its sign: what
    [readFloat] makes of it is what the digit loop and the exponent
    give. *)
Lemma readFloat_plain (neg : bool) (c : ascii) (rest : string) :
  is_digit c = true -> all_plain rest = true ->
  strconv.readFloat
    (if neg then String "-" (String c rest) else String c rest)
  = let '(st, remain) :=
      strconv.read_mantissa false (String c rest) mantissa_start in
    if negb (strconv.m_digits st) then None
    else
      match
        match remain with
        | EmptyString => Some 0
        | String x t =>
            if byte_is 101 (strconv.lower x) then strconv.read_exponent t
            else None
        end
      with
      | None => None
      | Some e => Some (neg, false, strconv.m_val st, e - strconv.m_frac st)
      end.
Proof.
  intros Hc Hrest.
  destruct (is_digit_plain c Hc) as (_ & _ & Hplain).
  assert (Hbody : all_plain (String c rest) = true)
    by (simpl; by rewrite Hplain, Hrest).
  assert (Hok : strconv.underscoreOK
                  (if neg then String "-" (String c rest) else String c rest)
                = true).
  { assert (Hscan : match String c rest with
                    | String c0 (String c1 rest') =>
                        if byte_is 48 c0 &&
                           (byte_is 98 (strconv.lower c1)
                            || byte_is 111 (strconv.lower c1)
                            || byte_is 120 (strconv.lower c1))
                        then strconv.underscore_scan
                               (byte_is 120 (strconv.lower c1)) rest'
                               strconv.SeenDigit
                        else strconv.underscore_scan false (String c rest)
                               strconv.SeenStart
                    | _ => strconv.underscore_scan false (String c rest)
                             strconv.SeenStart
                    end = true).
    { destruct rest as [|c1 rest']; [by apply underscore_scan_plain|].
      simpl in Hrest. apply andb_true_iff in Hrest as [Hc1 _].
      destruct (plain_bytes c1 Hc1) as (_ & -> & -> & ->).
      rewrite andb_false_r. by apply underscore_scan_plain. }
    unfold strconv.underscoreOK. destruct neg.
    - change (byte_is 43 "-" || byte_is 45 "-") with true. cbn iota.
      exact Hscan.
    - rewrite (is_digit_not_sign c Hc). exact Hscan. }
  assert (Hhex : match String c rest with
                 | String c0 (String c1 (String c2 t)) =>
                     if byte_is 48 c0 && byte_is 120 (strconv.lower c1)
                     then (true, String c2 t) else (false, String c rest)
                 | _ => (false, String c rest)
                 end = (false, String c rest)).
  { destruct rest as [|c1 [|c2 t]]; try reflexivity.
    simpl in Hrest. apply andb_true_iff in Hrest as [Hc1 _].
    destruct (plain_bytes c1 Hc1) as (_ & _ & _ & ->).
    by rewrite andb_false_r. }
  unfold strconv.readFloat. destruct neg.
  - change (byte_is 43 "-" || byte_is 45 "-") with true.
    change (byte_is 45 "-") with true. cbn iota. rewrite Hhex.
    fold mantissa_start.
    destruct (strconv.read_mantissa false (String c rest) mantissa_start)
      as [st remain].
    destruct (negb (strconv.m_digits st)); [reflexivity|].
    match goal with
    | |- match ?x with _ => _ end = _ => destruct x; [|reflexivity]
    end.
    by rewrite Hok.
  - rewrite (is_digit_not_sign c Hc).
    assert (byte_is 45 c = false) as ->.
    { pose proof (is_digit_not_sign c Hc) as H.
      by apply orb_false_iff in H as [_ ?]. }
    rewrite Hhex. fold mantissa_start.
    destruct (strconv.read_mantissa false (String c rest) mantissa_start)
      as [st remain].
    destruct (negb (strconv.m_digits st)); [reflexivity|].
    match goal with
    | |- match ?x with _ => _ end = _ => destruct x; [|reflexivity]
    end.
    by rewrite Hok.
Qed.

Lemma special_digit (neg : bool) (d : ascii) (rest : string) :
  is_digit d = true ->
  strconv.special (if neg then String "-" (String d rest) else String d rest)
  = None.
Proof.
  intros Hd.
  assert (Hlower : strings.lower_byte d = d).
  { unfold strings.lower_byte.
    assert (is_upper d = false) as ->; [|reflexivity].
    revert Hd. unfold is_digit, is_upper, byte_in.
    rewrite andb_true_iff, andb_false_iff, !N.leb_le, !N.leb_gt. lia. }
  assert (Hne : forall c t, is_digit c = false ->
                  bool_decide (strings.ToLower (String d rest) = String c t)
                  = false).
  { intros c t Hc. apply bool_decide_eq_false. unfold strings.ToLower.
    cbn [strings.map_bytes]. rewrite Hlower. intros [= -> _]. congruence. }
  assert (Hbody : (if bool_decide (strings.ToLower (String d rest) = "inf")
                      || bool_decide (strings.ToLower (String d rest)
                                      = "infinity")
                   then Some (S754_infinity neg) else None) = None).
  { by rewrite !Hne. }
  unfold strconv.special. destruct neg.
  - change (byte_is 43 "-" || byte_is 45 "-") with true.
    change (byte_is 45 "-") with true. cbn iota. exact Hbody.
  - rewrite (is_digit_not_sign d Hd). by rewrite !Hne.
Qed.

(** The text of a decimal: an optional minus sign, digits, then
    perhaps a point and digits, then perhaps an exponent.  [readFloat]
    reads the digits as one integer and takes the digits after the
    point off the exponent. *)
Lemma readFloat_decimal (neg : bool) (I : string) (frac : option string)
  (tail : string) (mant ex : Z) :
  all_digits I = true -> (0 < String.length I)%nat ->
  match frac with
  | Some F => all_digits F = true /\ (0 < String.length F)%nat
  | None => True
  end ->
  strconv.parse_digits (I +:+ default "" frac) 0 = Some mant ->
  (tail = "" /\ ex = 0
   \/ exists t, tail = String "e" t /\ all_plain t = true
                /\ strconv.read_exponent t = Some ex) ->
  let body :=
    I +:+ match frac with Some F => String "." F | None => "" end +:+ tail in
  let text := if neg then String "-" body else body in
  strconv.special text = None
  /\ strconv.readFloat text
     = Some (neg, false, mant,
             ex - match frac with
                  | Some F => Z.of_nat (String.length F)
                  | None => 0
                  end).
Proof.
  intros HI Hlen Hfrac Hmant Htail body text.
  destruct I as [|c I']; [simpl in Hlen; lia|].
  assert (Hc : is_digit c = true)
    by (simpl in HI; by apply andb_true_iff in HI as [? _]).
  assert (HI' : all_digits I' = true)
    by (simpl in HI; by apply andb_true_iff in HI as [_ ?]).
  set (mid := match frac with Some F => String "." F | None => "" end) in *.
  assert (Hmid : all_plain mid = true).
  { subst mid. destruct frac as [F|]; [|reflexivity].
    destruct Hfrac as [HF _]. simpl. by apply all_digits_plain. }
  assert (Hplain_tail : all_plain tail = true).
  { destruct Htail as [[-> _]|(t & -> & Ht & _)]; [reflexivity|].
    simpl. exact Ht. }
  assert (Hbody : body = String c (I' +:+ mid +:+ tail)) by reflexivity.
  assert (Hrest : all_plain (I' +:+ mid +:+ tail) = true).
  { rewrite !all_plain_append, Hmid, Hplain_tail.
    by rewrite (all_digits_plain I' HI'). }
  subst text. rewrite Hbody. split; [by apply special_digit|].
  rewrite readFloat_plain by assumption.
  destruct (parse_digits_all_digits (String c I') 0 HI ltac:(lia))
    as (vI & HvI & _).
  rewrite parse_digits_append, HvI in Hmant.
  rewrite <- string_append_cons.
  rewrite (read_mantissa_digits (String c I') (mid +:+ tail) mantissa_start vI)
    by assumption.
  cbn [mantissa_start strconv.m_dot strconv.m_frac strconv.m_digits].
  assert (Hend : forall st : strconv.mantissa,
            strconv.m_digits st = true ->
            (let '(st', remain) := strconv.read_mantissa false tail st in
             if negb (strconv.m_digits st') then None
             else
               match
                 match remain with
                 | EmptyString => Some 0
                 | String x t =>
                     if byte_is 101 (strconv.lower x)
                     then strconv.read_exponent t else None
                 end
               with
               | None => None
               | Some e =>
                   Some (neg, false, strconv.m_val st', e - strconv.m_frac st')
               end)
            = Some (neg, false, strconv.m_val st, ex - strconv.m_frac st)).
  { intros st Hst.
    destruct Htail as [[-> ->]|(t & -> & _ & Hex)].
    - cbn [strconv.read_mantissa]. by rewrite Hst.
    - rewrite read_mantissa_exponent, Hst. cbn [negb].
      change (byte_is 101 (strconv.lower "e")) with true. cbn iota.
      by rewrite Hex. }
  subst mid. destruct frac as [F|].
  - destruct Hfrac as [HF HlenF]. cbn [default] in Hmant.
    rewrite string_append_cons, read_mantissa_point by reflexivity.
    cbn [strconv.m_val strconv.m_frac strconv.m_digits].
    rewrite (read_mantissa_digits F tail _ mant) by assumption.
    cbn [strconv.m_val strconv.m_frac strconv.m_dot strconv.m_digits].
    rewrite Hend by reflexivity.
    cbn [strconv.m_val strconv.m_frac]. do 2 f_equal.
  - cbn [default] in Hmant. cbn [strconv.parse_digits] in Hmant.
    injection Hmant as <-. change ("" +:+ tail) with tail.
    rewrite Hend by reflexivity.
    cbn [strconv.m_val strconv.m_frac]. reflexivity.
Qed.

(** A decimal within the bounds of a binary64 is scaled to it. *)
Lemma scale_within (neg : bool) (m : positive) (e c j : Z) :
  bounded 53 1024 m e = true -> 0 < c ->
  within m e (fst (dec_ratio c j)) (snd (dec_ratio c j)) = true ->
  strconv.scale neg 10 c j = S754_finite neg m e.
Proof.
  intros Hb Hc Hin. unfold strconv.scale. unfold dec_ratio in Hin.
  destruct (0 <=? j) eqn:Hj; cbn [fst snd] in Hin.
  - apply Z.leb_le in Hj. apply round_within; try assumption; [|lia].
    apply Z.mul_pos_pos; [lia|]. apply Z.pow_pos_nonneg; lia.
  - apply Z.leb_gt in Hj. apply round_within; try assumption.
    apply Z.pow_pos_nonneg; lia.
Qed.

(** Where the decimal point of such a decimal can be. *)
Lemma decimal_point_bound (m : positive) (e c j : Z) :
  bounded 53 1024 m e = true -> 0 < c ->
  within m e (fst (dec_ratio c j)) (snd (dec_ratio c j)) = true ->
  - 1100 < Z.of_nat (String.length (strconv.digits c)) + j - 1 < 1100.
Proof.
  intros Hb Hc Hin.
  destruct (bounds_order m e Hb) as (Hlo & _ & _ & Hhi).
  destruct (digits_spec c Hc) as (_ & _ & [Hc1 Hc2] & Hlen).
  set (nd := Z.of_nat (String.length (strconv.digits c))) in *.
  assert (Hnd : 1 <= nd) by (subst nd; lia).
  assert (Hweak : strconv.lower_bound m e * snd (dec_ratio c j)
                  <= fst (dec_ratio c j) * 2 ^ 1076
                  /\ fst (dec_ratio c j) * 2 ^ 1076
                     <= strconv.upper_bound m e * snd (dec_ratio c j)).
  { unfold within in Hin. cbv zeta in Hin.
    destruct (Z.even (Z.pos m)); apply andb_true_iff in Hin as [H1 H2].
    - apply Z.leb_le in H1, H2. lia.
    - apply Z.ltb_lt in H1, H2. lia. }
  clear Hin. destruct Hweak as [Hl Hu].
  set (lo := strconv.lower_bound m e) in *.
  set (hi := strconv.upper_bound m e) in *.
  assert (Hbig : 2 ^ 2100 < 10 ^ 1100 * 2 ^ 1076) by reflexivity.
  assert (Hsmall : 2 ^ 1076 < 10 ^ 1099) by reflexivity.
  assert (HP : 0 < 2 ^ 1076) by reflexivity.
  assert (HK : 0 < 10 ^ 1100) by reflexivity.
  assert (HK' : 0 < 10 ^ 1099) by reflexivity.
  set (P := 2 ^ 1076) in *. set (Q := 2 ^ 2100) in *.
  set (K := 10 ^ 1100) in *. set (K' := 10 ^ 1099) in *.
  unfold dec_ratio in Hl, Hu.
  destruct (0 <=? j) eqn:Hj; cbn [fst snd] in Hl, Hu.
  - apply Z.leb_le in Hj. split; [lia|].
    destruct (Z_lt_le_dec (nd + j - 1) 1100) as [|Hge]; [assumption|exfalso].
    assert (HT : 0 < 10 ^ j) by (apply Z.pow_pos_nonneg; lia).
    assert (Hpow : K <= 10 ^ (nd - 1) * 10 ^ j).
    { subst K. rewrite <- Z.pow_add_r by lia.
      apply Z.pow_le_mono_r; lia. }
    assert (H1 : 10 ^ (nd - 1) * 10 ^ j <= c * 10 ^ j)
      by (apply Z.mul_le_mono_nonneg_r; lia).
    assert (H2 : K * P <= c * 10 ^ j * P)
      by (apply Z.mul_le_mono_nonneg_r; lia).
    lia.
  - apply Z.leb_gt in Hj.
    assert (HT : 0 < 10 ^ (- j)) by (apply Z.pow_pos_nonneg; lia).
    set (T := 10 ^ (- j)) in *.
    assert (H2T : 2 * T <= lo * T) by (apply Z.mul_le_mono_nonneg_r; lia).
    assert (HQT : hi * T <= Q * T) by (apply Z.mul_le_mono_nonneg_r; lia).
    split.
    + destruct (Z_lt_le_dec (- 1100) (nd + j - 1)) as [|Hle];
        [assumption|exfalso].
      assert (Hpow : 10 ^ nd * K' <= T).
      { subst K' T. rewrite <- Z.pow_add_r by lia.
        apply Z.pow_le_mono_r; lia. }
      assert (H1 : c * P < 10 ^ nd * P)
        by (apply Z.mul_lt_mono_pos_r; lia).
      assert (H2 : 10 ^ nd * P <= 10 ^ nd * K')
        by (apply Z.mul_le_mono_nonneg_l; lia).
      lia.
    + destruct (Z_lt_le_dec (nd + j - 1) 1100) as [|Hge]; [assumption|exfalso].
      assert (Hpow : K * T <= 10 ^ (nd - 1)).
      { subst K T. rewrite <- Z.pow_add_r by lia.
        apply Z.pow_le_mono_r; lia. }
      assert (H1 : K * T * P <= c * P)
        by (apply Z.mul_le_mono_nonneg_r; lia).
      assert (H2 : Q * T < K * P * T)
        by (apply Z.mul_lt_mono_pos_r; lia).
      lia.
Qed.

Lemma string_length_drop (k : nat) (s : string) :
  String.length (strconv.drop k s) = (String.length s - k)%nat.
Proof.
  revert s. induction k as [|k IH]; intros [|c s]; try reflexivity.
  simpl. apply IH.
Qed.

Lemma all_digits_take_drop (k : nat) (s : string) :
  all_digits s = true ->
  all_digits (strconv.take k s) = true /\ all_digits (strconv.drop k s) = true.
Proof.
  intros Hs. rewrite <- (string_take_drop k s), all_digits_append in Hs.
  by apply andb_true_iff in Hs.
Qed.

(** The text that [fmtE] writes for the digits of [c], their point
    after [dp] of them. *)
Lemma ParseFloat_fmtE (neg : bool) (c dp : Z) :
  0 < c -> 0 < Z.abs (dp - 1) < 10000 ->
  let ds := strconv.digits c in
  let body := strconv.fmtE ds dp in
  let text := if neg then String "-" body else body in
  strconv.special text = None
  /\ strconv.readFloat text
     = Some (neg, false, c, dp - Z.of_nat (String.length ds)).
Proof.
  intros Hc Hx ds body text.
  destruct (digits_spec c Hc) as (Hall & Hparse & _ & Hlen).
  destruct (read_exponent_text (dp - 1) Hx) as [Hexp Hplain].
  cbv zeta in Hexp, Hplain. fold ds in Hall, Hparse, Hlen.
  set (t := (if dp - 1 <? 0 then "-" else "+")
            +:+ (if Z.abs (dp - 1) <? 10 then "0" else "")
            +:+ strconv.digits (Z.abs (dp - 1))) in *.
  assert (Htail : String "e" t = "" /\ dp - 1 = 0
                  \/ exists t', String "e" t = String "e" t'
                                /\ all_plain t' = true
                                /\ strconv.read_exponent t' = Some (dp - 1))
    by (right; by exists t).
  subst text body. unfold strconv.fmtE. cbv zeta. fold t.
  destruct ds as [|d0 rest] eqn:Hds; [simpl in Hlen; lia|].
  simpl in Hall. apply andb_true_iff in Hall as [Hd0 Hrest].
  destruct rest as [|r rest'] eqn:Hr.
  - pose proof (readFloat_decimal neg (String d0 "") None (String "e" t)
                  c (dp - 1)) as Hread.
    cbv zeta in Hread. cbn [String.length].
    replace (dp - Z.of_nat 1) with (dp - 1 - 0) by lia.
    apply Hread;
      [simpl; by rewrite Hd0|simpl; lia|exact Logic.I| |exact Htail].
    cbn [default]. rewrite string_append_empty_r. exact (Hparse 0).
  - pose proof (readFloat_decimal neg (String d0 "") (Some rest)
                  (String "e" t) c (dp - 1)) as Hread.
    cbv zeta in Hread. rewrite <- Hr.
    replace (dp - Z.of_nat (String.length (String d0 rest)))
      with (dp - 1 - Z.of_nat (String.length rest))
      by (cbn [String.length]; lia).
    apply Hread;
      [simpl; by rewrite Hd0|simpl; lia| | |exact Htail].
    + split; [by rewrite Hr|]. rewrite Hr. simpl. lia.
    + cbn [default]. rewrite Hr. exact (Hparse 0).
Qed.

(** The text that [fmtF] writes when digits come after the point. *)
Lemma ParseFloat_fmtF_fraction (neg : bool) (c dp : Z) :
  0 < c ->
  let ds := strconv.digits c in
  dp < Z.of_nat (String.length ds) ->
  let body := strconv.fmtF ds dp in
  let text := if neg then String "-" body else body in
  strconv.special text = None
  /\ strconv.readFloat text
     = Some (neg, false, c, dp - Z.of_nat (String.length ds)).
Proof.
  intros Hc ds Hdp body text.
  destruct (digits_spec c Hc) as (Hall & Hparse & _ & Hlen).
  fold ds in Hall, Hparse, Hlen.
  set (nd := Z.of_nat (String.length ds)) in *.
  set (I := if 0 <? dp
            then strconv.take (Z.to_nat dp) ds
                 +:+ strconv.zeros (Z.to_nat (dp - nd))
            else "0").
  set (F := strconv.zeros (Z.to_nat (- dp)) +:+ strconv.drop (Z.to_nat dp) ds).
  assert (Hbody : body = I +:+ String "." F +:+ "").
  { subst body. unfold strconv.fmtF. cbv zeta. fold nd. fold I.
    rewrite (proj2 (Z.ltb_lt dp nd)) by lia.
    by rewrite (string_append_empty_r (String "." F)). }
  destruct (all_digits_take_drop (Z.to_nat dp) ds Hall) as [Htake Hdrop].
  destruct (zeros_spec (Z.to_nat (- dp))) as (Hz1 & Hz2 & Hz3).
  assert (HlenF : String.length F
                  = (Z.to_nat (- dp) + (String.length ds - Z.to_nat dp))%nat).
  { subst F. by rewrite string_length_append, Hz2, string_length_drop. }
  pose proof (readFloat_decimal neg I (Some F) "" c 0) as Hread.
  cbv zeta in Hread. subst text. rewrite Hbody.
  replace (dp - nd) with (0 - Z.of_nat (String.length F))
    by (rewrite HlenF; subst nd; lia).
  apply Hread.
  - subst I. destruct (0 <? dp); [|reflexivity].
    rewrite all_digits_append, Htake.
    by destruct (zeros_spec (Z.to_nat (dp - nd))) as (-> & _).
  - subst I. destruct (0 <? dp) eqn:Hpos; [|simpl; lia].
    apply Z.ltb_lt in Hpos.
    rewrite string_length_append, string_length_take by (subst nd; lia). lia.
  - split; [subst F; by rewrite all_digits_append, Hz1, Hdrop|].
    rewrite HlenF. subst nd. lia.
  - cbv [default from_option id]. subst I F. destruct (0 <? dp) eqn:Hpos.
    + apply Z.ltb_lt in Hpos.
      replace (Z.to_nat (dp - nd)) with 0%nat by lia.
      replace (Z.to_nat (- dp)) with 0%nat by lia.
      cbn [strconv.zeros]. rewrite string_append_empty_r.
      change ("" +:+ strconv.drop (Z.to_nat dp) ds)
        with (strconv.drop (Z.to_nat dp) ds).
      rewrite string_take_drop. exact (Hparse 0).
    + apply Z.ltb_ge in Hpos.
      replace (Z.to_nat dp) with 0%nat by lia.
      change (strconv.drop 0 ds) with ds.
      rewrite string_append_cons. cbn [strconv.parse_digits].
      change (is_digit "0") with true. cbn iota.
      change (10 * 0 + strconv.digit_val "0") with 0.
      change ("" +:+ strconv.zeros (Z.to_nat (- dp)) +:+ ds)
        with (strconv.zeros (Z.to_nat (- dp)) +:+ ds).
      rewrite parse_digits_append, Hz3. change (0 * 10 ^ _) with 0.
      exact (Hparse 0).
  - by left.
Qed.

(** The text that [fmtF] writes when no digit comes after the point:
    the digits, then zeros up to the point. *)
Lemma ParseFloat_fmtF_integer (neg : bool) (c dp : Z) :
  0 < c ->
  let ds := strconv.digits c in
  Z.of_nat (String.length ds) <= dp ->
  let body := strconv.fmtF ds dp in
  let text := if neg then String "-" body else body in
  strconv.special text = None
  /\ strconv.readFloat text
     = Some (neg, false,
             c * 10 ^ (dp - Z.of_nat (String.length ds)), 0 - 0).
Proof.
  intros Hc ds Hdp body text.
  destruct (digits_spec c Hc) as (Hall & Hparse & _ & Hlen).
  fold ds in Hall, Hparse, Hlen.
  set (nd := Z.of_nat (String.length ds)) in *.
  set (I := ds +:+ strconv.zeros (Z.to_nat (dp - nd))).
  assert (Hbody : body = I +:+ "" +:+ "").
  { subst body. unfold strconv.fmtF. cbv zeta. fold nd.
    rewrite (proj2 (Z.ltb_lt 0 dp)) by lia.
    rewrite (proj2 (Z.ltb_ge dp nd)) by lia.
    rewrite string_take_all by (subst nd; lia). reflexivity. }
  destruct (zeros_spec (Z.to_nat (dp - nd))) as (Hz1 & Hz2 & Hz3).
  pose proof (readFloat_decimal neg I None "" (c * 10 ^ (dp - nd)) 0) as Hread.
  cbv zeta in Hread. subst text. rewrite Hbody.
  apply Hread.
  - subst I. by rewrite all_digits_append, Hall, Hz1.
  - subst I. rewrite string_length_append. lia.
  - exact Logic.I.
  - cbn [default]. rewrite string_append_empty_r. subst I.
    rewrite parse_digits_append, (Hparse 0), Hz3.
    rewrite Z2Nat.id by lia. reflexivity.
  - by left.
Qed.

(** [ParseFloat] reads back the text that [FormatFloat] writes: every
    finite binary64 other than zero. *)
Lemma ParseFloat_FormatFloat_finite (neg : bool) (m : positive) (e : Z) :
  bounded 53 1024 m e = true ->
  strconv.ParseFloat (strconv.FormatFloat (S754_finite neg m e))
  = Some (S754_finite neg m e).
Proof.
  intros Hb. destruct (shortest_within m e Hb) as [Hc Hin].
  cbn [strconv.FormatFloat].
  destruct (strconv.shortest m e) as [c j]. cbn [fst snd] in Hc, Hin.
  pose proof (decimal_point_bound m e c j Hb Hc Hin) as Hdp.
  pose proof (scale_within neg m e c j Hb Hc Hin) as Hscale.
  cbv zeta.
  set (ds := strconv.digits c) in *.
  set (nd := Z.of_nat (String.length ds)) in *.
  assert (Hfinish : forall text mant ex,
            strconv.special text = None
            /\ strconv.readFloat text = Some (neg, false, mant, ex) ->
            strconv.scale neg 10 mant ex = S754_finite neg m e ->
            strconv.ParseFloat text = Some (S754_finite neg m e)).
  { intros text mant ex [Hs Hr] Hsc. unfold strconv.ParseFloat.
    by rewrite Hs, Hr, Hsc. }
  destruct ((nd + j - 1 <? -4) || (6 <=? nd + j - 1)) eqn:Hfmt.
  - apply (Hfinish _ c (nd + j - nd)).
    + apply ParseFloat_fmtE; [exact Hc|].
      apply orb_true_iff in Hfmt as [H|H];
        [apply Z.ltb_lt in H|apply Z.leb_le in H]; lia.
    + by replace (nd + j - nd) with j by lia.
  - destruct (Z_lt_le_dec (nd + j) nd) as [Hfrac|Hint].
    + apply (Hfinish _ c (nd + j - nd)).
      * by apply ParseFloat_fmtF_fraction.
      * by replace (nd + j - nd) with j by lia.
    + apply (Hfinish _ (c * 10 ^ (nd + j - nd)) (0 - 0)).
      * by apply ParseFloat_fmtF_integer.
      * replace (nd + j - nd) with j by lia.
        unfold strconv.scale in Hscale |- *.
        rewrite (proj2 (Z.leb_le 0 j)) in Hscale by lia.
        change (0 <=? 0 - 0) with true. cbn iota.
        change (10 ^ (0 - 0)) with 1. by rewrite Z.mul_1_r.
Qed.

(** [ParseFloat] reads back the text that [FormatFloat] writes for
    every binary64. *)
Lemma ParseFloat_FormatFloat (f : strconv.float64) :
  valid_binary 53 1024 f = true ->
  strconv.ParseFloat (strconv.FormatFloat f) = Some f.
Proof.
  destruct f as [[|]|[|]| |neg m e]; try (intros _; reflexivity).
  apply ParseFloat_FormatFloat_finite.
Qed.

(** C4 (amended).  Type inference is a function defined on every
    string.  It tries, in this order: a base-10 [int64]; a [float64];
    true or false in any case of the letters; and else it returns the
    string as it is, the empty string included.  It reads back every
    [int64] from its decimal text and every boolean from its text.  It
    reads back every [float64] but NaN (which Go does not call equal to
    itself) from the text that [FormatFloat] writes for it, the
    shortest decimal that identifies it, unless that text is also a
    base-10 integer: such a text gives the integer. *)
Theorem inferType_spec :
  (forall s i, strconv.ParseInt s 64 = Some i -> inferType s = VInt64 i)
  /\ (forall s f,
        strconv.ParseInt s 64 = None -> strconv.ParseFloat s = Some f ->
        inferType s = VFloat64 f)
  /\ (forall s b,
        strconv.ParseInt s 64 = None -> strconv.ParseFloat s = None ->
        strings.ToLower s = strconv.FormatBool b -> inferType s = VBool b)
  /\ (forall s,
        strconv.ParseInt s 64 = None -> strconv.ParseFloat s = None ->
        strings.ToLower s <> "true" -> strings.ToLower s <> "false" ->
        inferType s = VString s)
  /\ inferType "" = VString ""
  /\ (forall i, - 2 ^ 63 <= i < 2 ^ 63 ->
                inferType (strconv.FormatInt i) = VInt64 i)
  /\ (forall b, inferType (strconv.FormatBool b) = VBool b)
  /\ (forall f,
        valid_binary 53 1024 f = true -> f <> S754_nan ->
        strconv.ParseFloat (strconv.FormatFloat f) = Some f
        /\ (strconv.ParseInt (strconv.FormatFloat f) 64 = None ->
            inferType (strconv.FormatFloat f) = VFloat64 f)).
Proof.
  split; [|split; [|split; [|split; [|split; [|split; [|split]]]]]].
  - intros s i Hint. unfold inferType. by rewrite Hint.
  - intros s f Hint Hfloat. unfold inferType. by rewrite Hint, Hfloat.
  - intros s b Hint Hfloat Hbool. unfold inferType.
    rewrite Hint, Hfloat, Hbool. by destruct b.
  - intros s Hint Hfloat Htrue Hfalse. unfold inferType.
    rewrite Hint, Hfloat.
    by rewrite !bool_decide_eq_false_2.
  - reflexivity.
  - intros i Hi. unfold inferType. by rewrite ParseInt_FormatInt.
  - intros [|]; vm_compute; reflexivity.
  - intros f Hvalid _.
    pose proof (ParseFloat_FormatFloat f Hvalid) as Hfloat.
    split; [exact Hfloat|].
    intros Hint. unfold inferType. by rewrite Hint, Hfloat.
Qed.

Lemma inferType_spec_witness :
  inferType "123" = VInt64 123
  /\ inferType "1.5" = VFloat64 (S754_finite false 6755399441055744 (-52))
  /\ inferType "TRUE" = VBool true
  /\ inferType "hello" = VString "hello"
  /\ inferType (strconv.FormatInt (- 9223372036854775808))
     = VInt64 (- 9223372036854775808)
  /\ inferType (strconv.FormatFloat float_tenth) = VFloat64 float_tenth
  /\ inferType (strconv.FormatFloat float_large) = VFloat64 float_large.
Proof.
  pose proof inferType_spec as Hspec.
  destruct Hspec as (Hint & Hfloat & Hbool & Hstring & _ & Hround & _ & Hback).
  split; [|split; [|split; [|split; [|split; [|split]]]]].
  - apply (Hint "123" 123). vm_compute. reflexivity.
  - apply (Hfloat "1.5"); vm_compute; reflexivity.
  - apply (Hbool "TRUE" true); vm_compute; reflexivity.
  - apply (Hstring "hello"); vm_compute; (reflexivity || discriminate).
  - apply (Hround (- 9223372036854775808)).
    split; [vm_compute; discriminate|vm_compute; reflexivity].
  - apply (Hback float_tenth); [reflexivity|discriminate|].
    vm_compute. reflexivity.
  - apply (Hback float_large); [reflexivity|discriminate|].
    vm_compute. reflexivity.
Defined.

(** C4, as stated, fails for floats: the text of the float one is 1,
    and type inference returns the integer one for it, which is not
    the float. *)
Lemma inferType_integral_float :
  strconv.FormatFloat float_one = "1"
  /\ strconv.ParseFloat "1" = Some float_one
  /\ inferType (strconv.FormatFloat float_one) = VInt64 1
  /\ inferType (strconv.FormatFloat float_one) <> VFloat64 float_one.
Proof.
  split; [vm_compute; reflexivity|]. split; [vm_compute; reflexivity|].
  split; [vm_compute; reflexivity|]. vm_compute. discriminate.
Qed.

(** ** The generic parser *)

Lemma is_lower_range (c : ascii) :
  is_lower c = true -> (97 <= byte_val c <= 122)%N.
Proof. unfold is_lower, byte_in. rewrite andb_true_iff, !N.leb_le. lia. Qed.

Lemma is_lower_not_byte (c : ascii) (n : N) :
  is_lower c = true -> (n < 97 \/ 122 < n)%N -> byte_is n c = false.
Proof.
  intros Hc Hn. apply is_lower_range in Hc. unfold byte_is.
  apply N.eqb_neq. lia.
Qed.

Lemma is_lower_not_in (c : ascii) (lo hi : N) :
  is_lower c = true -> (hi < 97 \/ 122 < lo)%N -> byte_in lo hi c = false.
Proof.
  intros Hc Hn. apply is_lower_range in Hc. unfold byte_in.
  apply andb_false_iff. rewrite !N.leb_gt. lia.
Qed.

Lemma run_consumes {A : Type} (P : ascii -> bool) (text : string)
  (r : Regexp) :
  consumes P r ->
  forall (base i : nat) (caps : list string)
         (k : nat -> list string -> option A) (x : A),
    run text r base i caps k = Some x ->
    exists j caps', (i <= j)%nat /\ between P text i j
                    /\ k j caps' = Some x.
Proof.
  assert (Hrefl : forall i, between P text i i)
    by (intros i p Hp; lia).
  assert (Htrans : forall i j l,
            (i <= j)%nat -> between P text i j -> between P text j l ->
            between P text i l).
  { intros i j l Hij H1 H2 p Hp.
    destruct (Nat.lt_ge_cases p j); [apply H1|apply H2]; lia. }
  induction r as [|p|r1 IH1 r2 IH2|r1 IH1 r2 IH2|r1 IH1|r1 IH1|name r1 IH1| |];
    intros Hr base i caps k x Hrun.
  - exists i, caps. eauto.
  - simpl in Hrun. destruct (String.get i text) as [c|] eqn:Hc; [|done].
    destruct (p c) eqn:Hp; [|done].
    exists (S i), caps. split; [lia|]. split; [|done].
    intros q Hq. assert (q = i) as -> by lia. exists c. split; [done|].
    by apply Hr.
  - destruct Hr as [Hr1 Hr2]. simpl in Hrun.
    apply (IH1 Hr1) in Hrun as (j & caps' & Hij & Hbet & Hrun).
    apply (IH2 Hr2) in Hrun as (j' & caps'' & Hjj & Hbet' & Hk).
    exists j', caps''. split; [lia|]. split; [by eapply Htrans|done].
  - destruct Hr as [Hr1 Hr2]. simpl in Hrun.
    destruct (run text r1 base i caps k) as [y|] eqn:H1.
    + injection Hrun as ->. by apply (IH1 Hr1) in H1.
    + by apply (IH2 Hr2) in Hrun.
  - pose (rep :=
            fix repeat (fuel : nat) (i : nat) (caps : list string)
              : option A :=
              match fuel with
              | O => k i caps
              | S fuel' =>
                  match run text r1 base i caps
                          (fun j caps' =>
                             if (i <? j)%nat then repeat fuel' j caps'
                             else None)
                  with
                  | Some x => Some x
                  | None => k i caps
                  end
              end).
    change (rep (S (String.length text - i)) i caps = Some x) in Hrun.
    revert Hrun. generalize (S (String.length text - i)). intros fuel.
    revert i caps.
    induction fuel as [|fuel IHfuel]; intros i caps Hrun;
      [exists i, caps; eauto|].
    simpl in Hrun.
    match type of Hrun with
    | match ?m with _ => _ end = _ => destruct m as [y|] eqn:H1
    end; [|exists i, caps; eauto].
    injection Hrun as ->.
    apply (IH1 Hr) in H1 as (j & caps' & Hij & Hbet & H1).
    destruct (i <? j)%nat; [|done].
    apply IHfuel in H1 as (j' & caps'' & Hjj & Hbet' & Hk).
    exists j', caps''. split; [lia|]. split; [by eapply Htrans|done].
  - pose (rep :=
            fix repeat (fuel : nat) (i : nat) (caps : list string)
              : option A :=
              match fuel with
              | O => k i caps
              | S fuel' =>
                  match run text r1 base i caps
                          (fun j caps' =>
                             if (i <? j)%nat then repeat fuel' j caps'
                             else None)
                  with
                  | Some x => Some x
                  | None => k i caps
                  end
              end).
    change (run text r1 base i caps
              (fun j caps' => rep (S (String.length text - j)) j caps')
            = Some x) in Hrun.
    apply (IH1 Hr) in Hrun as (j & caps' & Hij & Hbet & Hrun).
    assert (Hrep : forall fuel j caps',
              rep fuel j caps' = Some x ->
              exists l caps'', (j <= l)%nat /\ between P text j l
                               /\ k l caps'' = Some x).
    { clear j caps' Hij Hbet Hrun.
      induction fuel as [|fuel IHfuel]; intros j caps' Hrun;
        [exists j, caps'; eauto|].
      simpl in Hrun.
      match type of Hrun with
      | match ?m with _ => _ end = _ => destruct m as [y|] eqn:H1
      end; [|exists j, caps'; eauto].
      injection Hrun as ->.
      apply (IH1 Hr) in H1 as (j' & caps'' & Hjj & Hbet' & H1).
      destruct (j <? j')%nat; [|done].
      apply IHfuel in H1 as (l & caps3 & Hl & Hbet3 & Hk).
      exists l, caps3. split; [lia|]. split; [by eapply Htrans|done]. }
    apply Hrep in Hrun as (l & caps'' & Hl & Hbet' & Hk).
    exists l, caps''. split; [lia|]. split; [by eapply Htrans|done].
  - simpl in Hrun. apply (IH1 Hr) in Hrun as (j & caps' & Hij & Hbet & Hk).
    eauto.
  - simpl in Hrun. destruct (i =? 0)%nat; [|done]. exists i, caps. eauto.
  - simpl in Hrun. destruct (i =? String.length text)%nat; [|done].
    exists i, caps. eauto.
Qed.

Lemma run_Cat {A : Type} (text : string) (r1 r2 : Regexp) (base i : nat)
  (caps : list string) (k : nat -> list string -> option A) :
  run text (Cat r1 r2) base i caps k
  = run text r1 base i caps
      (fun j caps' => run text r2 (base + NumSubexp r1)%nat j caps' k).
Proof. reflexivity. Qed.

Lemma run_Alt {A : Type} (text : string) (r1 r2 : Regexp) (base i : nat)
  (caps : list string) (k : nat -> list string -> option A) :
  run text (Alt r1 r2) base i caps k
  = match run text r1 base i caps k with
    | Some x => Some x
    | None => run text r2 (base + NumSubexp r1)%nat i caps k
    end.
Proof. reflexivity. Qed.

Lemma run_Group {A : Type} (text name : string) (r : Regexp) (base i : nat)
  (caps : list string) (k : nat -> list string -> option A) :
  run text (Group name r) base i caps k
  = run text r (S base) i caps
      (fun j caps' => k j (<[base := substring i (j - i) text]> caps')).
Proof. reflexivity. Qed.

(** What goes before the rest of a pattern, when the pattern matches. *)
Lemma run_after {A : Type} (P : ascii -> bool) (text : string)
  (r1 r2 : Regexp) (base i : nat) (caps : list string)
  (k : nat -> list string -> option A) (x : A) :
  consumes P r1 -> between P text 0 i ->
  run text (Cat r1 r2) base i caps k = Some x ->
  exists base' j caps',
    between P text 0 j /\ run text r2 base' j caps' k = Some x.
Proof.
  intros Hr Hi Hrun. rewrite run_Cat in Hrun.
  apply (run_consumes P text r1 Hr) in Hrun as (j & caps' & Hij & Hbet & Hrun).
  exists (base + NumSubexp r1)%nat, j, caps'. split; [|exact Hrun].
  intros p Hp. destruct (Nat.lt_ge_cases p i); [apply Hi|apply Hbet]; lia.
Qed.

Lemma run_Chr {A : Type} (text : string) (c : ascii) (base i : nat)
  (caps : list string) (k : nat -> list string -> option A) (x : A) :
  run text (Chr c) base i caps k = Some x ->
  String.get i text = Some c /\ k (S i) caps = Some x.
Proof.
  simpl. destruct (String.get i text) as [c'|]; [|done].
  case_bool_decide as Hc; [|done]. by subst c'.
Qed.

Lemma run_Lit {A : Type} (text word : string) :
  forall (base i : nat) (caps : list string)
         (k : nat -> list string -> option A) (x : A),
    run text (Lit word) base i caps k = Some x ->
    stands_at word text i.
Proof.
  induction word as [|c word IH]; intros base i caps k x Hrun q c' Hq;
    [done|].
  destruct word as [|c2 word].
  - apply run_Chr in Hrun as [Hc _].
    destruct q as [|q]; [|done]. simpl in Hq. injection Hq as <-.
    by rewrite Nat.add_0_r.
  - change (Lit (String c (String c2 word)))
      with (Cat (Chr c) (Lit (String c2 word))) in Hrun.
    rewrite run_Cat in Hrun. apply run_Chr in Hrun as [Hc Hrun].
    destruct q as [|q].
    + simpl in Hq. injection Hq as <-. by rewrite Nat.add_0_r.
    + replace (i + S q)%nat with (S i + q)%nat by lia.
      by eapply IH.
Qed.

Lemma run_level {A : Type} (text : string) (base i : nat)
  (caps : list string) (k : nat -> list string -> option A) (x : A) :
  run text GenericParser.level base i caps k = Some x ->
  exists word, word ∈ level_keywords /\ stands_at word text i.
Proof.
  unfold GenericParser.level, level_keywords. cbn [AnyOf].
  intros Hrun.
  repeat (rewrite run_Alt in Hrun;
          match type of Hrun with
          | match ?m with _ => _ end = _ =>
              let H1 := fresh "H" in
              destruct m as [y|] eqn:H1; [clear Hrun|]
          end).
  all: repeat match goal with
  | H : run _ (Cat (Lit _) _) _ _ _ _ = _ |- _ => rewrite run_Cat in H
  end.
  all: match goal with
  | H : run _ (Lit ?w) _ _ _ _ = _ |- _ =>
      exists w; split; [set_solver|by eapply run_Lit]
  end.
Qed.

Lemma find_from_Some (r : Regexp) (text : string) (n i : nat)
  (m : nat * list string) :
  find_from r text n i = Some m ->
  exists i', match_at r text i' = Some m.
Proof.
  revert i. induction n as [|n IH]; intros i; simpl;
    destruct (match_at r text i) as [m'|] eqn:Hat.
  - intros [= <-]. eauto.
  - done.
  - intros [= <-]. eauto.
  - apply IH.
Qed.

Lemma consumes_stamp : consumes lead GenericParser.stamp.
Proof.
  unfold GenericParser.stamp, SyslogParser.ymd, SyslogParser.hms.
  cbn [Seq Times Opt Chr consumes].
  repeat split;
    intros [[] [] [] [] [] [] [] []]; vm_compute; congruence.
Qed.

Lemma consumes_spaces : consumes lead (Plus (Class space)).
Proof.
  simpl. intros [[] [] [] [] [] [] [] []]; vm_compute; congruence.
Qed.

(** A pattern of the generic parser matches a line only if one of the
    level keywords, in capitals, stands in it after nothing but bytes
    of a timestamp, white space and an opening bracket. *)
Lemma GenericParser_match_level (pattern : Regexp) (line : string)
  (matches : list string) :
  pattern ∈ GenericParser.patterns GenericParser.New ->
  FindStringSubmatch pattern line = Some matches ->
  exists j word,
    word ∈ level_keywords /\ between lead line 0 j
    /\ stands_at word line j.
Proof.
  intros Hin Hm. unfold FindStringSubmatch in Hm.
  destruct (find_from pattern line (String.length line) 0) as [m|] eqn:Hfind;
    [|done].
  clear Hm. apply find_from_Some in Hfind as [i Hat].
  unfold match_at in Hat. revert Hat.
  generalize (replicate (S (NumSubexp pattern)) "").
  generalize (fun (j : nat) (caps : list string) =>
                Some (j, <[0%nat := substring i (j - i) line]> caps)).
  generalize 1%nat.
  assert (Hlevel : forall base j caps r
                     (k : nat -> list string -> option (nat * list string)),
            between lead line 0 j ->
            run line (Cat (Group "level" GenericParser.level) r)
              base j caps k = Some m ->
            exists j word,
              word ∈ level_keywords /\ between lead line 0 j
              /\ stands_at word line j).
  { intros base j caps r k Hj Hrun. rewrite run_Cat, run_Group in Hrun.
    apply run_level in Hrun as (word & Hword & Hat). eauto. }
  assert (Hbol : forall base caps r
                   (k : nat -> list string -> option (nat * list string)),
            run line (Cat Bol r) base i caps k = Some m ->
            exists base', between lead line 0 0
                          /\ run line r base' 0 caps k = Some m).
  { intros base caps r k Hrun. rewrite run_Cat in Hrun. simpl in Hrun.
    destruct i; [|done]. eexists. split; [|exact Hrun].
    intros p Hp. lia. }
  assert (Hts1 : consumes lead
            (Group "timestamp"
               (Cat GenericParser.stamp
                  (Opt (Alt (Chr "Z")
                          (Seq [Class (one_of "+-"); Times 2 (Class digit);
                                Opt (Chr ":"); Times 2 (Class digit)])))))).
  { cbn [consumes Seq Times Opt Chr]. split; [apply consumes_stamp|].
    repeat split; try done;
      intros [[] [] [] [] [] [] [] []]; vm_compute; congruence. }
  assert (Hts : consumes lead (Group "timestamp" GenericParser.stamp))
    by apply consumes_stamp.
  assert (Hopt : consumes lead
            (Opt (Cat (Group "timestamp" GenericParser.stamp)
                    (Plus (Class space))))).
  { cbn [consumes Opt]. split; [|done].
    split; [apply consumes_stamp|apply consumes_spaces]. }
  assert (Hbracket : consumes lead (Chr "["))
    by (simpl; intros [[] [] [] [] [] [] [] []]; vm_compute; congruence).
  unfold GenericParser.New, GenericParser.patterns in Hin.
  cbn [Seq] in Hin.
  repeat (apply elem_of_cons in Hin as [-> | Hin]);
    [..|by apply elem_of_nil in Hin];
    intros base k caps Hrun;
    apply Hbol in Hrun as (base1 & H0 & Hrun).
  - apply (run_after lead) in Hrun as (base2 & j2 & caps2 & H2 & Hrun);
      [|exact Hts1|exact H0].
    apply (run_after lead) in Hrun as (base3 & j3 & caps3 & H3 & Hrun);
      [|exact consumes_spaces|exact H2].
    by eapply Hlevel.
  - by eapply Hlevel.
  - apply (run_after lead) in Hrun as (base2 & j2 & caps2 & H2 & Hrun);
      [|exact Hopt|exact H0].
    apply (run_after lead) in Hrun as (base3 & j3 & caps3 & H3 & Hrun);
      [|exact Hbracket|exact H2].
    by eapply Hlevel.
  - by eapply Hlevel.
Qed.

Lemma all_lead_get (pre : string) (p : nat) (c : ascii) :
  all_lead pre = true -> String.get p pre = Some c -> lead c = true.
Proof.
  revert p. induction pre as [|a pre IH]; intros p; simpl; [done|].
  intros [Ha Hpre]%andb_true_iff. destruct p as [|p].
  - by intros [= <-].
  - by apply IH.
Qed.

Lemma lower_not_lead (c : ascii) : is_lower c = true -> lead c = false.
Proof.
  destruct c as [[] [] [] [] [] [] [] []]; vm_compute; congruence.
Qed.

Lemma keyword_letters (word : string) :
  word ∈ level_keywords ->
  exists c0 c1,
    String.get 0 word = Some c0 /\ String.get 1 word = Some c1
    /\ is_lower c0 = false /\ is_lower c1 = false /\ lead c1 = false.
Proof.
  unfold level_keywords. intros Hin.
  repeat (apply elem_of_cons in Hin as [-> | Hin]);
    [..|by apply elem_of_nil in Hin];
    eexists _, _; repeat split; reflexivity.
Qed.

Lemma get_append_left (pre s : string) (p : nat) :
  (p < String.length pre)%nat ->
  String.get p (pre +:+ s) = String.get p pre.
Proof. intros Hp. symmetry. by apply append_correct1. Qed.

Lemma get_append_right (pre s : string) (q : nat) :
  String.get (String.length pre + q) (pre +:+ s) = String.get q s.
Proof. rewrite Nat.add_comm. symmetry. apply append_correct2. Qed.

Lemma get_in_range (s : string) (p : nat) :
  (p < String.length s)%nat -> is_Some (String.get p s).
Proof.
  revert p. induction s as [|a s IH]; intros p; simpl; [lia|].
  destruct p as [|p]; [eauto|]. intros Hp. apply IH. lia.
Qed.

(** No pattern of the generic parser matches a line in which a
    lowercase letter comes first after bytes of a timestamp, white
    space and opening brackets: the level would have to stand before
    that letter or begin with it. *)
Lemma GenericParser_lower_level_no_match (pre : string) (c : ascii)
  (rest : string) :
  all_lead pre = true -> is_lower c = true ->
  Forall (fun pattern =>
            FindStringSubmatch pattern (pre +:+ String c rest) = None)
    (GenericParser.patterns GenericParser.New).
Proof.
  intros Hpre Hc. apply Forall_forall. intros pattern Hin.
  destruct (FindStringSubmatch pattern _) as [matches|] eqn:Hm; [|done].
  exfalso.
  destruct (GenericParser_match_level _ _ _ Hin Hm)
    as (j & word & Hword & Hbefore & Hat).
  destruct (keyword_letters _ Hword)
    as (c0 & c1 & H0 & H1 & Hl0 & Hl1 & Hlead1).
  set (line := pre +:+ String c rest) in *.
  set (n := String.length pre).
  assert (Hn : String.get n line = Some c).
  { subst line n. rewrite <- (Nat.add_0_r (String.length pre)).
    by rewrite get_append_right. }
  assert (Hj : (j <= n)%nat).
  { destruct (Nat.le_gt_cases j n) as [|Hgt]; [done|].
    destruct (Hbefore n) as (c' & Hc' & Hlead); [lia|].
    rewrite Hn in Hc'. injection Hc' as <-.
    rewrite (lower_not_lead c Hc) in Hlead. done. }
  assert (Hinside : forall p c', (p < n)%nat ->
            String.get p line = Some c' -> lead c' = true).
  { intros p c' Hp Hget. subst line. rewrite get_append_left in Hget by done.
    by eapply all_lead_get. }
  pose proof (Hat 0%nat c0 H0) as Hj0. rewrite Nat.add_0_r in Hj0.
  pose proof (Hat 1%nat c1 H1) as Hj1.
  destruct (decide (j = n)) as [->|Hne].
  - rewrite Hn in Hj0. injection Hj0 as ->. congruence.
  - destruct (decide (j + 1 = n)%nat) as [Heq|Hne1].
    + rewrite Heq, Hn in Hj1. injection Hj1 as ->. congruence.
    + assert (lead c1 = true) by (apply (Hinside (j + 1)%nat); [lia|done]).
      congruence.
Qed.

Lemma lead_one_byte (a : ascii) :
  lead a = true ->
  byte_is 194 a = false /\ byte_is 225 a = false
  /\ byte_is 226 a = false /\ byte_is 227 a = false.
Proof.
  destruct a as [[] [] [] [] [] [] [] []]; vm_compute; intros;
    repeat split; congruence.
Qed.

(** Trimming on the left keeps the lowercase letter and what comes
    after it. *)
Lemma TrimLeft_lower_level (pre : string) (c : ascii) (rest : string) :
  all_lead pre = true -> is_lower c = true ->
  exists pre',
    all_lead pre' = true
    /\ strings.TrimLeft (pre +:+ String c rest) = pre' +:+ String c rest.
Proof.
  intros Hpre Hc. induction pre as [|a pre IH].
  - exists "". split; [reflexivity|].
    change ("" +:+ String c rest) with (String c rest).
    cbn [strings.TrimLeft]. unfold strings.asciiSpace.
    rewrite (is_lower_not_in c 9 13), (is_lower_not_byte c 32),
      (is_lower_not_byte c 194), (is_lower_not_byte c 225),
      (is_lower_not_byte c 226), (is_lower_not_byte c 227)
      by (first [exact Hc|lia]).
    simpl. by destruct rest as [|c2 [|c3 s3]].
  - simpl in Hpre. apply andb_true_iff in Hpre as [Ha Hpre].
    destruct (IH Hpre) as (pre' & Hlead' & Hpre').
    destruct (lead_one_byte a Ha) as (H194 & H225 & H226 & H227).
    change (String a pre +:+ String c rest)
      with (String a (pre +:+ String c rest)).
    cbn [strings.TrimLeft].
    destruct (strings.asciiSpace a); [by exists pre'|].
    rewrite H194, H225, H226, H227. exists (String a pre).
    split; [simpl; by rewrite Ha, Hpre|].
    change (String a pre +:+ String c rest)
      with (String a (pre +:+ String c rest)).
    by destruct (pre +:+ String c rest) as [|c2 [|c3 s3]].
Qed.

Lemma TrimSpace_lower_level (pre : string) (c : ascii) (rest : string) :
  all_lead pre = true -> is_lower c = true ->
  strings.TrimSpace (pre +:+ String c rest) <> "".
Proof.
  intros Hpre Hc. unfold strings.TrimSpace.
  destruct (TrimLeft_lower_level pre c rest Hpre Hc) as (pre' & Hpre' & ->).
  destruct (TrimLeft_lower_level pre' c rest Hpre' Hc)
    as (pre'' & _ & Hleft).
  destruct (pre' +:+ String c rest) as [|a s] eqn:Hs.
  { by destruct pre'. }
  cbn [strings.TrimRight]. unfold strings.blank. rewrite Hleft.
  by destruct pre''.
Qed.

Lemma try_patterns_none (ps : list Regexp) (line : string) (entry : Entry) :
  Forall (fun pattern => FindStringSubmatch pattern line = None) ps ->
  GenericParser.try_patterns ps line entry = None.
Proof.
  induction 1 as [|pattern ps Hp _ IH]; simpl; [reflexivity|].
  by rewrite Hp.
Qed.

(** C8 (amended).  For every line that is not blank and that none of the
    four patterns matches, the generic parser returns, with no error and
    no parse error, the entry whose only field is [message], the whole
    trimmed line.  A pattern matches a line only if a level keyword, in
    capitals, stands in it after nothing but bytes of a timestamp, white
    space and an opening bracket.  So every line whose level token, the
    word that follows such bytes at the head of the line, is spelled in
    lowercase is a line that no pattern matches, and its entry is that
    one: the level may come first, after a timestamp or in brackets.
    On no line at all does the generic parser report the no-match error
    or a Go error: a blank line gets the empty-line error. *)
Theorem GenericParser_Parse_fallback :
  (forall line,
     strings.TrimSpace line <> "" ->
     Forall (fun pattern => FindStringSubmatch pattern line = None)
       (GenericParser.patterns GenericParser.New) ->
     GenericParser.Parse GenericParser.New line = (message_entry line, None)
     /\ Fields (message_entry line)
        = {[ "message" := VString (strings.TrimSpace line) ]}
     /\ ParseError (message_entry line) = None)
  /\ (forall pattern line matches,
        pattern ∈ GenericParser.patterns GenericParser.New ->
        FindStringSubmatch pattern line = Some matches ->
        exists j word,
          word ∈ level_keywords /\ between lead line 0 j
          /\ stands_at word line j)
  /\ (forall pre c rest,
        all_lead pre = true -> is_lower c = true ->
        GenericParser.Parse GenericParser.New (pre +:+ String c rest)
        = (message_entry (pre +:+ String c rest), None))
  /\ (forall line,
        ParseError (fst (GenericParser.Parse GenericParser.New line))
        <> Some ErrNoMatch
        /\ snd (GenericParser.Parse GenericParser.New line) = None).
Proof.
  assert (Hfallback : forall line,
            strings.TrimSpace line <> "" ->
            Forall (fun pattern => FindStringSubmatch pattern line = None)
              (GenericParser.patterns GenericParser.New) ->
            GenericParser.Parse GenericParser.New line
            = (message_entry line, None)).
  { intros line Hline Hnone. unfold GenericParser.Parse.
    rewrite bool_decide_eq_false_2 by exact Hline.
    by rewrite try_patterns_none. }
  split; [|split; [|split]].
  - intros line Hline Hnone. split; [by apply Hfallback|]. split; reflexivity.
  - apply GenericParser_match_level.
  - intros pre c rest Hpre Hc. apply Hfallback.
    + by apply TrimSpace_lower_level.
    + by apply GenericParser_lower_level_no_match.
  - intros line. unfold GenericParser.Parse.
    case_bool_decide; [split; [discriminate|reflexivity]|].
    destruct (GenericParser.try_patterns _ _ _) as [entry|] eqn:Htry;
      [|split; [discriminate|reflexivity]].
    split; [|reflexivity].
    destruct (try_patterns_building _ _ _ _ (building_NewEntry line) Htry)
      as [_ Herr].
    simpl. rewrite Herr. discriminate.
Qed.

Lemma GenericParser_Parse_fallback_witness :
  GenericParser.Parse GenericParser.New "info this should fallback"
  = (message_entry "info this should fallback", None)
  /\ GenericParser.Parse GenericParser.New
       "2024-01-15 10:30:45 info server started"
     = (message_entry "2024-01-15 10:30:45 info server started", None)
  /\ GenericParser.Parse GenericParser.New "[warn] disk almost full"
     = (message_entry "[warn] disk almost full", None)
  /\ Fields (message_entry "random 12345 text ")
     = {[ "message" := VString "random 12345 text" ]}
  /\ GenericParser.Parse GenericParser.New "random 12345 text "
     = (message_entry "random 12345 text ", None).
Proof.
  pose proof GenericParser_Parse_fallback as Hspec.
  destruct Hspec as (Hfallback & _ & Hlower & _).
  split; [|split; [|split; [|split]]].
  - apply (Hlower "" "i"%char "nfo this should fallback"); reflexivity.
  - apply (Hlower "2024-01-15 10:30:45 " "i"%char "nfo server started");
      reflexivity.
  - apply (Hlower "[" "w"%char "arn] disk almost full"); reflexivity.
  - vm_compute. reflexivity.
  - apply (Hfallback "random 12345 text ").
    + vm_compute. discriminate.
    + repeat apply Forall_cons_2; [..|apply Forall_nil_2];
        vm_compute; reflexivity.
Defined.

(** C8, as stated, fails: the line of three spaces is not empty and none
    of the four patterns matches it, yet its entry carries a failure,
    the empty-line error. *)
Lemma GenericParser_Parse_spaces :
  "   " <> ""
  /\ Forall (fun pattern => FindStringSubmatch pattern "   " = None)
       (GenericParser.patterns GenericParser.New)
  /\ ParseError (fst (GenericParser.Parse GenericParser.New "   "))
     = Some ErrEmptyLine
  /\ Fields (fst (GenericParser.Parse GenericParser.New "   ")) !! "message"
     = Some (VString "").
Proof.
  split; [discriminate|]. split.
  - repeat apply Forall_cons_2; [..|apply Forall_nil_2];
      vm_compute; reflexivity.
  - split; vm_compute; reflexivity.
Qed.

(** * Further properties of the package *)

#[local] Set Warnings "-clear-no-such-hyp".

(** ** What a parser finds and what it can parse *)

Lemma no_match_entry (line : string) :
  no_match line =
    ({| Fields := {[ "raw" := VString line ]}; Raw := line; LineNum := 0;
        ParseError := Some ErrNoMatch |}, None).
Proof. unfold no_match, set_field. simpl. by rewrite insert_empty. Qed.

Lemma MatchString_spec (r : Regexp) (text : string) :
  MatchString r text = true <-> is_Some (FindStringSubmatch r text).
Proof. unfold MatchString. apply bool_decide_eq_true. Qed.

(** X1.  The three parsers that hold one pattern agree with their own
    [CanParse]: on a line that [CanParse] accepts, [Parse] returns an
    entry with no parse error and the line as raw text; on a line that
    it refuses, [Parse] returns the no-match entry, whose only field is
    [raw], the line.  In both cases the Go error is nil. *)
Theorem CanParse_Parse_agree :
  (forall p line,
     if SyslogParser.CanParse p line
     then building line (fst (SyslogParser.Parse p line))
          /\ snd (SyslogParser.Parse p line) = None
     else SyslogParser.Parse p line = no_match line)
  /\ (forall p line,
        if ApacheParser.CanParse p line
        then building line (fst (ApacheParser.Parse p line))
             /\ snd (ApacheParser.Parse p line) = None
        else ApacheParser.Parse p line = no_match line)
  /\ (forall p line,
        if RegexParser.CanParse p line
        then building line (fst (RegexParser.Parse p line))
             /\ snd (RegexParser.Parse p line) = None
        else RegexParser.Parse p line = no_match line)
  /\ (forall line,
        no_match line =
          ({| Fields := {[ "raw" := VString line ]}; Raw := line;
              LineNum := 0; ParseError := Some ErrNoMatch |}, None)).
Proof.
  split; [|split; [|split; [|exact no_match_entry]]]; intros p line.
  - unfold SyslogParser.CanParse.
    destruct (MatchString _ line) eqn:Hcan.
    + apply MatchString_spec in Hcan as [ms Hm].
      exact (SyslogParser_building p line ms Hm).
    + unfold SyslogParser.Parse.
      destruct (FindStringSubmatch _ line) as [ms|] eqn:Hm; [|reflexivity].
      assert (MatchString (SyslogParser.pattern p) line = true)
        by (apply MatchString_spec; rewrite Hm; eauto).
      congruence.
  - unfold ApacheParser.CanParse.
    destruct (MatchString _ line) eqn:Hcan.
    + apply MatchString_spec in Hcan as [ms Hm].
      exact (ApacheParser_building p line ms Hm).
    + unfold ApacheParser.Parse.
      destruct (FindStringSubmatch _ line) as [ms|] eqn:Hm; [|reflexivity].
      assert (MatchString (ApacheParser.pattern p) line = true)
        by (apply MatchString_spec; rewrite Hm; eauto).
      congruence.
  - unfold RegexParser.CanParse.
    destruct (MatchString _ line) eqn:Hcan.
    + apply MatchString_spec in Hcan as [ms Hm].
      exact (RegexParser_building p line ms Hm).
    + unfold RegexParser.Parse.
      destruct (FindStringSubmatch _ line) as [ms|] eqn:Hm; [|reflexivity].
      assert (MatchString (RegexParser.pattern p) line = true)
        by (apply MatchString_spec; rewrite Hm; eauto).
      congruence.
Qed.

(** ** The fields of the key=value parser *)

Lemma KeyValueParser_fold_key (matches : list (list string)) (entry : Entry)
  (key : string) :
  is_Some
    (Fields
       (foldl (fun entry match_ =>
                 set_field (KeyValueParser.sub match_ 1)
                   (inferType (KeyValueParser.pair_value match_)) entry)
          entry matches) !! key)
  <-> is_Some (Fields entry !! key)
      \/ exists m, m ∈ matches /\ KeyValueParser.sub m 1 = key.
Proof.
  revert entry. induction matches as [|m matches IH]; intros entry; simpl.
  - split; [by left|]. intros [?|(m & Hm & _)]; [done|].
    by apply elem_of_nil in Hm.
  - rewrite IH. simpl. split.
    + intros [Hkey | (m' & Hm' & Hk)].
      * destruct (decide (KeyValueParser.sub m 1 = key)) as [Heq|Hne].
        -- right. exists m. split; [apply elem_of_cons; by left|done].
        -- left. by rewrite lookup_insert_ne in Hkey.
      * right. exists m'. split; [apply elem_of_cons; by right|done].
    + intros [Hkey | (m' & Hm' & Hk)].
      * left. destruct (decide (KeyValueParser.sub m 1 = key)) as [<-|Hne].
        -- rewrite lookup_insert_eq. eauto.
        -- by rewrite lookup_insert_ne.
      * apply elem_of_cons in Hm' as [-> | Hm'].
        -- left. rewrite <- Hk, lookup_insert_eq. eauto.
        -- right. eauto.
Qed.

Lemma FindAllString_length (r : Regexp) (text : string) :
  length (FindAllString r text) = length (FindAllStringSubmatch r text).
Proof. unfold FindAllString. apply length_fmap. Qed.

(** X2.  The key=value parser, on any line: when no pair is found,
    [Parse] returns the no-match entry; otherwise it returns an entry
    with no parse error whose fields are exactly the keys of the pairs
    found.  A line that [CanParse] accepts, having two pairs at least,
    is never a no-match. *)
Theorem KeyValueParser_Parse_keys (p : KeyValueParser.t) (line : string) :
  let matches := FindAllStringSubmatch (KeyValueParser.pattern p) line in
  let entry := fst (KeyValueParser.Parse p line) in
  (if bool_decide (matches = [])
   then KeyValueParser.Parse p line = no_match line
   else building line entry
        /\ forall key,
             is_Some (Fields entry !! key)
             <-> exists m, m ∈ matches /\ KeyValueParser.sub m 1 = key)
  /\ (if KeyValueParser.CanParse p line
      then ParseError entry = None else True).
Proof.
  intros matches entry. subst entry.
  assert (Hsome : matches <> [] ->
                  KeyValueParser.Parse p line =
                    (foldl (fun entry match_ =>
                              set_field (KeyValueParser.sub match_ 1)
                                (inferType (KeyValueParser.pair_value match_))
                                entry)
                       (NewEntry line) matches, None)).
  { intros Hne. unfold KeyValueParser.Parse. fold matches.
    rewrite bool_decide_eq_false_2; [reflexivity|].
    by destruct matches. }
  split.
  - case_bool_decide as Hnil.
    + unfold KeyValueParser.Parse. fold matches. by rewrite Hnil.
    + rewrite (Hsome Hnil). simpl.
      split; [apply KeyValueParser_building; auto|].
      intros key. rewrite KeyValueParser_fold_key. simpl.
      rewrite lookup_empty. split; [|eauto].
      by intros [[? ?]|?].
  - destruct (KeyValueParser.CanParse p line) eqn:Hcan; [|done].
    unfold KeyValueParser.CanParse in Hcan.
    apply bool_decide_eq_true in Hcan.
    rewrite FindAllString_length in Hcan. fold matches in Hcan.
    rewrite Hsome by (intros Hnil; rewrite Hnil in Hcan; simpl in Hcan; lia).
    simpl. by apply (KeyValueParser_building matches line).
Qed.

(** ** Only named groups become fields *)

Section GroupLoopOnly.
Variable names : list string.
Variable skip : nat -> string -> bool.
Variable val : nat -> string -> value.
Variable body : nat -> string -> Entry -> Entry.

Hypothesis body_eq :
  forall i m entry,
    body i m entry =
      if skip i m then entry
      else set_field (name_at names i) (val i m) entry.

(** A field of the entry after the loop was there before it, or bears
    the name of a group that the loop did not skip. *)
Lemma range_from_only (l : list string) (i0 : nat) (entry : Entry)
  (key : string) :
  is_Some (Fields (range_from i0 l body entry) !! key) ->
  is_Some (Fields entry !! key)
  \/ exists j m, l !! j = Some m /\ skip (i0 + j)%nat m = false
                 /\ name_at names (i0 + j)%nat = key.
Proof.
  revert i0 entry. induction l as [|m l IH]; intros i0 entry; simpl;
    [by left|].
  intros Hkey. apply IH in Hkey as [Hkey | (j & m' & Hj & Hskip & Hname)].
  - rewrite body_eq in Hkey. destruct (skip i0 m) eqn:Hskip; [by left|].
    simpl in Hkey.
    destruct (decide (name_at names i0 = key)) as [Heq|Hne].
    + right. exists 0%nat, m. rewrite Nat.add_0_r. done.
    + left. by rewrite lookup_insert_ne in Hkey.
  - right. exists (S j), m'. replace (i0 + S j)%nat with (S i0 + j)%nat by lia.
    done.
Qed.

Hypothesis skip_unnamed :
  forall i m, skip i m = false -> i <> 0%nat /\ name_at names i <> "".

Lemma range_named (l : list string) (line key : string) :
  is_Some (Fields (range l body (NewEntry line)) !! key) ->
  key <> "" /\ exists j, names !! S j = Some key.
Proof.
  intros Hkey. apply range_from_only in Hkey as [Hkey | (j & m & _ & Hskip & Hname)].
  - simpl in Hkey. rewrite lookup_empty in Hkey. by destruct Hkey.
  - simpl in *. destruct (skip_unnamed _ _ Hskip) as [Hj Hne].
    split; [congruence|]. destruct j as [|j]; [done|]. exists j.
    unfold name_at in *. destruct (names !! S j); simpl in *; congruence.
Qed.
End GroupLoopOnly.

Lemma group_names_lookup (r : Regexp) (j : nat) (key : string) :
  SubexpNames r !! S j = Some key -> key ∈ group_names r.
Proof. simpl. apply list_elem_of_lookup_2. Qed.

Lemma RegexParser_only_groups (p : RegexParser.t) (line key : string)
  (matches : list string) :
  FindStringSubmatch (RegexParser.pattern p) line = Some matches ->
  is_Some (Fields (fst (RegexParser.Parse p line)) !! key) ->
  key <> "" /\ key ∈ group_names (RegexParser.pattern p).
Proof.
  intros Hm. unfold RegexParser.Parse. rewrite Hm. simpl. intros Hkey.
  apply (range_named (SubexpNames (RegexParser.pattern p))
           (fun i m => bool_decide (i = 0%nat)
                       || bool_decide (name_at (SubexpNames (RegexParser.pattern p)) i = ""))
           (fun i m => inferType m)) in Hkey as [Hne [j Hj]].
  - split; [done|]. by eapply group_names_lookup.
  - reflexivity.
  - intros i m Hskip. apply orb_false_iff in Hskip as [H0 Hname].
    by apply bool_decide_eq_false in H0, Hname.
Qed.

Lemma SyslogParser_only_groups (p : SyslogParser.t) (line key : string)
  (matches : list string) :
  FindStringSubmatch (SyslogParser.pattern p) line = Some matches ->
  is_Some (Fields (fst (SyslogParser.Parse p line)) !! key) ->
  key <> "" /\ key ∈ group_names (SyslogParser.pattern p).
Proof.
  intros Hm. unfold SyslogParser.Parse. rewrite Hm. simpl. intros Hkey.
  apply (range_named (SubexpNames (SyslogParser.pattern p))
           (fun i m => bool_decide (i = 0%nat)
                       || bool_decide (name_at (SubexpNames (SyslogParser.pattern p)) i = "")
                       || bool_decide (m = ""))
           (fun i m => syslog_value (name_at (SubexpNames (SyslogParser.pattern p)) i) m))
    in Hkey as [Hne [j Hj]].
  - split; [done|]. by eapply group_names_lookup.
  - intros j m entry. unfold syslog_value.
    repeat (case_bool_decide || case_match || simpl); congruence.
  - intros i m Hskip. apply orb_false_iff in Hskip as [Hskip _].
    apply orb_false_iff in Hskip as [H0 Hname].
    by apply bool_decide_eq_false in H0, Hname.
Qed.

Lemma ApacheParser_only_groups (p : ApacheParser.t) (line key : string)
  (matches : list string) :
  FindStringSubmatch (ApacheParser.pattern p) line = Some matches ->
  is_Some (Fields (fst (ApacheParser.Parse p line)) !! key) ->
  key <> "" /\ key ∈ group_names (ApacheParser.pattern p).
Proof.
  intros Hm. unfold ApacheParser.Parse. rewrite Hm. simpl. intros Hkey.
  apply (range_named (SubexpNames (ApacheParser.pattern p))
           (fun i m => bool_decide (i = 0%nat)
                       || bool_decide (name_at (SubexpNames (ApacheParser.pattern p)) i = "")
                       || bool_decide (m = "") || bool_decide (m = "-"))
           (fun i m => apache_value (name_at (SubexpNames (ApacheParser.pattern p)) i) m))
    in Hkey as [Hne [j Hj]].
  - split; [done|]. by eapply group_names_lookup.
  - intros j m entry. unfold apache_value.
    repeat (case_bool_decide || case_match || simpl); simplify_eq/=;
      congruence.
  - intros i m Hskip. apply orb_false_iff in Hskip as [Hskip _].
    apply orb_false_iff in Hskip as [Hskip _].
    apply orb_false_iff in Hskip as [H0 Hname].
    by apply bool_decide_eq_false in H0, Hname.
Qed.

Lemma try_patterns_only_groups (ps : list Regexp) (line key : string)
  (entry : Entry) :
  GenericParser.try_patterns ps line (NewEntry line) = Some entry ->
  is_Some (Fields entry !! key) ->
  exists pattern, pattern ∈ ps /\ key ∈ group_names pattern.
Proof.
  induction ps as [|pattern ps IH]; simpl; [discriminate|].
  destruct (FindStringSubmatch pattern line) as [matches|].
  - intros [= <-] Hkey. exists pattern.
    split; [apply elem_of_cons; by left|].
    apply (range_named (SubexpNames pattern)
             (fun i m => bool_decide (i = 0%nat)
                         || bool_decide (name_at (SubexpNames pattern) i = "")
                         || bool_decide (m = ""))
             (fun i m => VString
                           (if bool_decide (name_at (SubexpNames pattern) i = "level")
                            then strings.ToUpper m else m)))
      in Hkey as [Hne [j Hj]].
    + by eapply group_names_lookup.
    + intros j m e. repeat (case_bool_decide || case_match || simpl); congruence.
    + intros i m Hskip. apply orb_false_iff in Hskip as [Hskip _].
      apply orb_false_iff in Hskip as [H0 Hname].
      by apply bool_decide_eq_false in H0, Hname.
  - intros Htry Hkey. destruct (IH Htry Hkey) as (pat & Hin & Hk).
    exists pat. split; [apply elem_of_cons; by right|done].
Qed.

(** X3.  A parser never makes a field of the whole match or of an
    unnamed group.  Every field of an entry of the user-pattern parser
    bears the name of a named group of the pattern, unless the line did
    not match, in which case the only field is [raw]; the fields of the
    built-in syslog and Apache parsers are among the groups of their
    patterns, or [raw]; and the fields of the generic parser are among
    [timestamp], [level] and [message]. *)
Theorem Parse_fields_named :
  (forall p line key,
     is_Some (Fields (fst (RegexParser.Parse p line)) !! key) ->
     if RegexParser.CanParse p line
     then key <> "" /\ key ∈ group_names (RegexParser.pattern p)
     else key = "raw")
  /\ (forall line key,
        is_Some (Fields (fst (SyslogParser.Parse SyslogParser.New line)) !! key) ->
        key ∈ ["timestamp"; "host"; "program"; "pid"; "message"; "raw"])
  /\ (forall line key,
        is_Some (Fields (fst (ApacheParser.Parse ApacheParser.New line)) !! key) ->
        key ∈ ["ip"; "ident"; "user"; "timestamp"; "method"; "path";
               "protocol"; "status"; "size"; "referer"; "useragent"; "raw"])
  /\ (forall line key,
        is_Some (Fields (fst (GenericParser.Parse GenericParser.New line)) !! key) ->
        key ∈ ["timestamp"; "level"; "message"]).
Proof.
  assert (Hraw : forall line key,
            is_Some (Fields (fst (no_match line)) !! key) -> key = "raw").
  { intros line key. rewrite no_match_entry. simpl.
    intros [v Hv]. apply lookup_singleton_Some in Hv as [<- _]. done. }
  split; [|split; [|split]].
  - intros p line key Hkey. unfold RegexParser.CanParse.
    destruct (FindStringSubmatch (RegexParser.pattern p) line) as [ms|] eqn:Hm.
    + rewrite (proj2 (MatchString_spec _ _)) by (rewrite Hm; eauto).
      by eapply RegexParser_only_groups.
    + assert (MatchString (RegexParser.pattern p) line = false) as ->.
      { apply not_true_is_false. rewrite MatchString_spec, Hm.
        by intros [? ?]. }
      unfold RegexParser.Parse in Hkey. rewrite Hm in Hkey. by eapply Hraw.
  - intros line key Hkey.
    destruct (FindStringSubmatch (SyslogParser.pattern SyslogParser.New) line)
      as [ms|] eqn:Hm.
    + destruct (SyslogParser_only_groups _ _ _ _ Hm Hkey) as [_ Hin].
      change (group_names (SyslogParser.pattern SyslogParser.New))
        with ["timestamp"; "host"; "program"; "pid"; "message"] in Hin.
      set_solver.
    + unfold SyslogParser.Parse in Hkey. rewrite Hm in Hkey.
      rewrite (Hraw _ _ Hkey). set_solver.
  - intros line key Hkey.
    destruct (FindStringSubmatch (ApacheParser.pattern ApacheParser.New) line)
      as [ms|] eqn:Hm.
    + destruct (ApacheParser_only_groups _ _ _ _ Hm Hkey) as [_ Hin].
      change (group_names (ApacheParser.pattern ApacheParser.New))
        with ["ip"; "ident"; "user"; "timestamp"; "method"; "path";
              "protocol"; "status"; "size"; "referer"; "useragent"] in Hin.
      set_solver.
    + unfold ApacheParser.Parse in Hkey. rewrite Hm in Hkey.
      rewrite (Hraw _ _ Hkey). set_solver.
  - intros line key. unfold GenericParser.Parse.
    case_bool_decide.
    { simpl. intros [v Hv].
      apply lookup_insert_Some in Hv as [[<- _]|[_ Hv]]; [set_solver|].
      by rewrite lookup_empty in Hv. }
    destruct (GenericParser.try_patterns _ _ _) as [entry|] eqn:Htry; simpl.
    + intros Hkey.
      destruct (try_patterns_only_groups _ _ _ _ Htry Hkey) as (pat & Hin & Hk).
      unfold GenericParser.New, GenericParser.patterns in Hin.
      repeat (apply elem_of_cons in Hin as [-> | Hin]);
        [..|by apply elem_of_nil in Hin]; vm_compute in Hk; set_solver.
    + intros [v Hv].
      apply lookup_insert_Some in Hv as [[<- _]|[_ Hv]]; [set_solver|].
      by rewrite lookup_empty in Hv.
Qed.

Lemma Parse_fields_named_witness :
  Fields (fst (RegexParser.Parse parser_ab "y")) !! "a" = Some (VString "")
  /\ "a" ∈ group_names (RegexParser.pattern parser_ab)
  /\ "message" ∈ ["timestamp"; "level"; "message"].
Proof.
  pose proof Parse_fields_named as Hnamed.
  destruct Hnamed as (Hregex & _ & _ & Hgeneric).
  assert (Ha : Fields (fst (RegexParser.Parse parser_ab "y")) !! "a"
               = Some (VString "")) by (vm_compute; reflexivity).
  split; [exact Ha|]. split.
  - assert (Hsome : is_Some (Fields (fst (RegexParser.Parse parser_ab "y")) !! "a"))
      by (rewrite Ha; eauto).
    pose proof (Hregex parser_ab "y" "a" Hsome) as Hgroup.
    assert (Hcan : RegexParser.CanParse parser_ab "y" = true)
      by (vm_compute; reflexivity).
    rewrite Hcan in Hgroup. exact (proj2 Hgroup).
  - apply (Hgeneric "plain text" "message"). vm_compute. eauto.
Defined.

(** ** Looking parsers up and registering them *)

Lemma lower_upper_byte (c : ascii) :
  strings.lower_byte (strings.upper_byte c) = strings.lower_byte c.
Proof.
  destruct c as [[] [] [] [] [] [] [] []]; vm_compute; reflexivity.
Qed.

Lemma lower_lower_byte (c : ascii) :
  strings.lower_byte (strings.lower_byte c) = strings.lower_byte c.
Proof.
  destruct c as [[] [] [] [] [] [] [] []]; vm_compute; reflexivity.
Qed.

Lemma ToLower_ToUpper (s : string) :
  strings.ToLower (strings.ToUpper s) = strings.ToLower s.
Proof.
  induction s as [|c s IH]; [reflexivity|].
  cbn [strings.ToLower strings.ToUpper strings.map_bytes].
  f_equal; [apply lower_upper_byte|exact IH].
Qed.

Lemma ToLower_ToLower (s : string) :
  strings.ToLower (strings.ToLower s) = strings.ToLower s.
Proof.
  induction s as [|c s IH]; [reflexivity|].
  cbn [strings.ToLower strings.map_bytes].
  f_equal; [apply lower_lower_byte|exact IH].
Qed.

Lemma lookup_name_None (ps : list Parser) (name : string) :
  Registry.lookup_name ps name = None <->
  forall p, p ∈ ps -> strings.ToLower (Name p) <> name.
Proof.
  induction ps as [|p0 ps IH]; simpl.
  - split; [|done]. intros _ p Hp. by apply elem_of_nil in Hp.
  - case_bool_decide as Hname.
    + split; [done|]. intros Hall. exfalso.
      apply (Hall p0); [apply elem_of_cons; by left|done].
    + rewrite IH. split.
      * intros Hall p [-> | Hp]%elem_of_cons; auto.
      * intros Hall p Hp. apply Hall, elem_of_cons. by right.
Qed.

Lemma lookup_name_name (ps : list Parser) (name : string) (p : Parser) :
  Registry.lookup_name ps name = Some p -> strings.ToLower (Name p) = name.
Proof.
  induction ps as [|p0 ps IH]; simpl; [discriminate|].
  case_bool_decide; [by intros [= <-]|exact IH].
Qed.

Lemma lookup_name_app (ps qs : list Parser) (name : string) :
  Registry.lookup_name (ps ++ qs) name =
    match Registry.lookup_name ps name with
    | Some p => Some p
    | None => Registry.lookup_name qs name
    end.
Proof.
  induction ps as [|p0 ps IH]; simpl; [reflexivity|].
  case_bool_decide; [reflexivity|exact IH].
Qed.

Lemma detect_app (ps qs : list Parser) (line : string) :
  Registry.detect (ps ++ qs) line =
    match Registry.detect ps line with
    | Some found => Some found
    | None => Registry.detect qs line
    end.
Proof.
  induction ps as [|p0 ps IH]; simpl; [reflexivity|].
  destruct (CanParse p0 line); [|exact IH].
  destruct (Parse p0 line) as [entry [err|]]; [exact IH|].
  destruct (ParseError entry); [exact IH|reflexivity].
Qed.

(** X4.  For a name of ASCII bytes, in a registry whose parsers have
    names of ASCII bytes, [GetParser] does not look at the case of the
    letters of the name it is given.  The parser it returns is
    registered and bears that name, up to the case of the letters; it
    returns none only when no registered parser bears that name. *)
Theorem GetParser_case_insensitive (r : Registry.t) (name : string) :
  is_ascii name = true ->
  Forall (fun p => is_ascii (Name p) = true) (Registry.parsers r) ->
  Registry.GetParser r (strings.ToUpper name) = Registry.GetParser r name
  /\ Registry.GetParser r (strings.ToLower name) = Registry.GetParser r name
  /\ match Registry.GetParser r name with
     | Some p =>
         p ∈ Registry.parsers r
         /\ strings.ToLower (Name p) = strings.ToLower name
     | None =>
         forall p, p ∈ Registry.parsers r ->
                   strings.ToLower (Name p) <> strings.ToLower name
     end.
Proof.
  intros _ _.
  unfold Registry.GetParser. rewrite ToLower_ToUpper, ToLower_ToLower.
  split; [reflexivity|]. split; [reflexivity|].
  destruct (Registry.lookup_name _ _) as [p|] eqn:Hp.
  - split; [by eapply lookup_name_Some|by eapply lookup_name_name].
  - by apply lookup_name_None.
Qed.

(** X5.  [Register] adds the parser at the end of the list, with the
    lowest priority: the parsers listed before are listed before it; a
    name that was found is found as before, so that a new parser never
    takes the place of a registered parser of the same name; and
    auto-detection turns to the new parser only when none of the
    parsers registered before it takes the line.  The cache and the
    modes are left as they were. *)
Theorem Register_lowest_priority (r : Registry.t) (q : Parser) :
  Registry.ListParsers (Registry.Register r q)
    = Registry.ListParsers r ++ [(Name q, Description q)]
  /\ (forall name,
        Registry.GetParser (Registry.Register r q) name =
          match Registry.GetParser r name with
          | Some p => Some p
          | None =>
              if bool_decide (strings.ToLower (Name q) = strings.ToLower name)
              then Some q else None
          end)
  /\ (forall line,
        Registry.detect (Registry.parsers (Registry.Register r q)) line =
          match Registry.detect (Registry.parsers r) line with
          | Some found => Some found
          | None => Registry.detect [q] line
          end)
  /\ Registry.cached (Registry.Register r q) = Registry.cached r
  /\ Registry.adaptive (Registry.Register r q) = Registry.adaptive r
  /\ Registry.forcedFormat (Registry.Register r q) = Registry.forcedFormat r.
Proof.
  split; [|split; [|split; [|done]]].
  - unfold Registry.ListParsers. simpl. by rewrite fmap_app.
  - intros name. unfold Registry.GetParser. simpl.
    by rewrite lookup_name_app.
  - intros line. simpl. apply detect_app.
Qed.

Lemma NewRegistry_parsers json_Unmarshal (opts : list RegistryOption) :
  Forall known_option opts ->
  Registry.parsers (NewRegistry json_Unmarshal opts)
    = builtin_parsers json_Unmarshal
  /\ Registry.cached (NewRegistry json_Unmarshal opts) = None.
Proof.
  intros Hopts. unfold NewRegistry. simpl.
  destruct (known_options_keep opts
              {| Registry.parsers := []; Registry.cached := None;
                 Registry.adaptive := false; Registry.forcedFormat := "" |}
              Hopts) as [-> ->].
  split; reflexivity.
Qed.

Lemma GetParser_case_insensitive_witness :
  Registry.GetParser strict_registry "SYSLOG"
  = Registry.GetParser strict_registry "syslog"
  /\ Registry.GetParser strict_registry "SysLog"
     = Registry.GetParser strict_registry "syslog".
Proof.
  assert (Hnames : Forall (fun p => is_ascii (Name p) = true)
                     (Registry.parsers strict_registry)).
  { unfold strict_registry.
    destruct (NewRegistry_parsers json_sample [] (Forall_nil_2 _)) as [-> _].
    repeat apply Forall_cons_2; [..|apply Forall_nil_2]; reflexivity. }
  destruct (GetParser_case_insensitive strict_registry "syslog"
              eq_refl Hnames) as (Hupper & _ & _).
  destruct (GetParser_case_insensitive strict_registry "SysLog"
              eq_refl Hnames) as (_ & Hlower & _).
  split; [exact Hupper|]. symmetry. exact Hlower.
Defined.

Lemma builtin_lookup json_Unmarshal (name : string) :
  Registry.lookup_name (builtin_parsers json_Unmarshal) name =
    if bool_decide ("json" = name)
    then Some (JSONParser.as_Parser json_Unmarshal)
    else if bool_decide ("kv" = name)
    then Some (KeyValueParser.as_Parser KeyValueParser.New)
    else if bool_decide ("syslog" = name)
    then Some (SyslogParser.as_Parser SyslogParser.New)
    else if bool_decide ("apache" = name)
    then Some (ApacheParser.as_Parser ApacheParser.New)
    else if bool_decide ("generic" = name)
    then Some (GenericParser.as_Parser GenericParser.New)
    else None.
Proof. reflexivity. Qed.

(** X6.  Whatever options of the package [NewRegistry] is given, the
    new registry lists the five built-in parsers in their order of
    priority, json, kv, syslog, apache, generic, and has no cached
    parser; the names of ASCII bytes that [GetParser] finds in it are
    these five names, in any case of their letters, and no other. *)
Theorem NewRegistry_builtin json_Unmarshal (opts : list RegistryOption) :
  Forall known_option opts ->
  Registry.ListParsers (NewRegistry json_Unmarshal opts)
    = [("json", "JSON formatted logs (already structured)");
       ("kv", "Key=value format (logfmt style)");
       ("syslog", "Standard syslog format (RFC 3164/5424)");
       ("apache", "Apache/Nginx Combined Log Format");
       ("generic", "Generic timestamp/level patterns (fallback)")]
  /\ Registry.cached (NewRegistry json_Unmarshal opts) = None
  /\ (forall name,
        is_ascii name = true ->
        is_Some (Registry.GetParser (NewRegistry json_Unmarshal opts) name)
        <-> strings.ToLower name
            ∈ ["json"; "kv"; "syslog"; "apache"; "generic"]).
Proof.
  intros Hopts.
  destruct (NewRegistry_parsers json_Unmarshal opts Hopts) as [Hps Hc].
  split; [|split; [exact Hc|]].
  - unfold Registry.ListParsers. rewrite Hps. reflexivity.
  - intros name _. unfold Registry.GetParser. rewrite Hps, builtin_lookup.
    repeat case_bool_decide; subst; split;
      try (intros _; eauto; set_solver);
      try (intros [? ?]; done).
    intros Hin. exfalso. set_solver.
Qed.

Lemma NewRegistry_builtin_witness :
  Forall known_option [WithAdaptiveMode; WithForcedFormat "Apache"]
  /\ is_Some (Registry.GetParser
                (NewRegistry json_sample
                   [WithAdaptiveMode; WithForcedFormat "Apache"])
                "SysLog")
  /\ Registry.cached
       (NewRegistry json_sample [WithAdaptiveMode; WithForcedFormat "Apache"])
     = None.
Proof.
  assert (Hopts : Forall known_option
                    [WithAdaptiveMode; WithForcedFormat "Apache"])
    by (repeat apply Forall_cons_2; [constructor..|apply Forall_nil_2]).
  split; [exact Hopts|].
  destruct (NewRegistry_builtin json_sample _ Hopts) as (_ & Hcached & Hget).
  split; [|exact Hcached].
  apply Hget; [reflexivity|]. vm_compute. set_solver.
Defined.

(** ** The modes of [Registry.Parse] *)

Lemma ToLower_empty (s : string) : strings.ToLower s = "" -> s = "".
Proof. by destruct s. Qed.

(** X7.  A registry whose format was forced with [WithForcedFormat], by
    a name that is not empty and that [GetParser] finds, hands every
    line that is not blank to the parser of that name, in whatever case
    the name was written, and returns what that parser returns: no
    other parser is tried, whatever the cache and the adaptive mode are,
    and the registry is left as it was. *)
Theorem Registry_Parse_forced (r : Registry.t) (format line : string)
  (p : Parser) :
  format <> "" ->
  strings.TrimSpace line <> "" ->
  Registry.GetParser r format = Some p ->
  Registry.Parse (WithForcedFormat format r) line
    = (WithForcedFormat format r,
       (Some (fst (Parse p line)), snd (Parse p line))).
Proof.
  intros Hformat Hline Hget. unfold Registry.Parse.
  rewrite bool_decide_eq_false_2 by exact Hline.
  assert (Hforced : Registry.forcedFormat (WithForcedFormat format r) <> "").
  { simpl. intros Hlow. by apply ToLower_empty in Hlow. }
  rewrite (bool_decide_eq_false_2 _ Hforced). simpl negb. cbv iota.
  assert (Hsame : Registry.GetParser (WithForcedFormat format r)
                    (Registry.forcedFormat (WithForcedFormat format r))
                  = Some p).
  { unfold Registry.GetParser in *. simpl. by rewrite ToLower_ToLower. }
  rewrite Hsame. reflexivity.
Qed.

Lemma Registry_Parse_forced_witness :
  Registry.Parse (WithForcedFormat "SYSLOG" strict_registry) json_line
  = (WithForcedFormat "SYSLOG" strict_registry,
     (Some {| Fields := {[ "raw" := VString json_line ]}; Raw := json_line;
              LineNum := 0; ParseError := Some ErrNoMatch |}, None)).
Proof.
  rewrite (Registry_Parse_forced strict_registry "SYSLOG" json_line
             (SyslogParser.as_Parser SyslogParser.New)).
  - reflexivity.
  - discriminate.
  - vm_compute. discriminate.
  - unfold Registry.GetParser, strict_registry.
    destruct (NewRegistry_parsers json_sample [] (Forall_nil_2 _)) as [-> _].
    reflexivity.
Defined.

(** X8.  [Registry.Parse] never changes the parsers of a registry, its
    adaptive mode or its forced format.  It leaves the whole registry as
    it was when a parser is cached, when the mode is adaptive, when a
    format is forced and when the line is blank; and a parser that it
    caches is a registered parser that took this line and parsed it
    without a parse error. *)
Theorem Registry_Parse_keeps (r : Registry.t) (line : string) :
  Registry.parsers (fst (Registry.Parse r line)) = Registry.parsers r
  /\ Registry.adaptive (fst (Registry.Parse r line)) = Registry.adaptive r
  /\ Registry.forcedFormat (fst (Registry.Parse r line))
     = Registry.forcedFormat r
  /\ (is_Some (Registry.cached r) \/ Registry.adaptive r = true
      \/ Registry.forcedFormat r <> "" \/ strings.TrimSpace line = "" ->
      fst (Registry.Parse r line) = r)
  /\ (forall p,
        Registry.cached (fst (Registry.Parse r line)) = Some p ->
        Registry.cached r = Some p
        \/ (p ∈ Registry.parsers r /\ CanParse p line = true
            /\ ParseError (fst (Parse p line)) = None
            /\ snd (Parse p line) = None)).
Proof.
  split; [|split; [|split; [|split]]].
  1-3: by destruct (Registry_Parse_state r line)
         as [-> | (q & entry & _ & ->)].
  - unfold Registry.Parse.
    case_bool_decide as Hblank; [done|].
    case_bool_decide as Hforced; simpl.
    + destruct (Registry.adaptive r) eqn:Hadaptive,
        (Registry.cached r) as [c|] eqn:Hcached; simpl.
      all: try (intros _; reflexivity).
      all: try (intros _;
                destruct (Registry.detect _ _) as [[? ?]|];
                  [reflexivity|by destruct (Registry.GetParser _ _)]).
      intros [[? [=]]|[[=]|[?|?]]]; done.
    + intros _. by destruct (Registry.GetParser _ _).
  - intros p Hp.
    destruct (Registry_Parse_state r line)
      as [Hsame | (q & entry & Hq & Hset)].
    + left. by rewrite Hsame in Hp.
    + rewrite Hset in Hp. simpl in Hp. injection Hp as <-. right.
      destruct (detect_Some _ _ _ _ Hq) as (Hin & Hcan & Hparse & Herr).
      rewrite Hparse. done.
Qed.

Lemma detect_total (ps : list Parser) (line : string) (p : Parser) :
  p ∈ ps -> CanParse p line = true -> snd (Parse p line) = None ->
  ParseError (fst (Parse p line)) = None ->
  is_Some (Registry.detect ps line).
Proof.
  intros Hin Hcan Herr Hparse.
  induction ps as [|p0 ps IH]; [by apply elem_of_nil in Hin|].
  simpl. apply elem_of_cons in Hin as [<- | Hin].
  - rewrite Hcan. destruct (Parse p line) as [entry err]. simpl in *.
    subst err. rewrite Hparse. eauto.
  - destruct (CanParse p0 line); [|auto].
    destruct (Parse p0 line) as [entry [err|]]; [auto|].
    destruct (ParseError entry); [auto|eauto].
Qed.

Lemma reachable_generic json_Unmarshal (r : Registry.t) :
  reachable json_Unmarshal r ->
  GenericParser.as_Parser GenericParser.New ∈ Registry.parsers r.
Proof.
  induction 1 as [opts Hopts|r p _ IH|r line _ IH].
  - destruct (NewRegistry_parsers json_Unmarshal opts Hopts) as [-> _].
    unfold builtin_parsers. do 4 (apply elem_of_cons; right).
    apply elem_of_cons; by left.
  - simpl. apply elem_of_app. by left.
  - by destruct (Registry_Parse_state r line)
      as [-> | (q & entry & _ & ->)].
Qed.

Lemma GenericParser_takes (p : GenericParser.t) (line : string) :
  strings.TrimSpace line <> "" ->
  ParseError (fst (GenericParser.Parse p line)) = None.
Proof.
  intros Hline. unfold GenericParser.Parse.
  rewrite bool_decide_eq_false_2 by exact Hline.
  destruct (GenericParser.try_patterns _ _ _) as [entry|] eqn:Htry;
    [|reflexivity].
  by destruct (try_patterns_building _ _ _ _ (building_NewEntry line) Htry).
Qed.

(** X9.  In a registry that a program can reach, auto-detection finds a
    parser for every line that is not blank, since the generic parser is
    registered and refuses no such line.  So when no format is forced
    and no parser is cached (or the mode is adaptive), [Registry.Parse]
    returns the entry of a registered parser that took the line, an
    entry with no parse error and the line as raw text, and it returns
    no Go error; in strict mode that parser becomes the cache, in
    adaptive mode the registry is left as it was. *)
Theorem Registry_Parse_detects json_Unmarshal (r : Registry.t)
  (line : string) :
  reachable json_Unmarshal r ->
  strings.TrimSpace line <> "" ->
  Registry.forcedFormat r = "" ->
  Registry.adaptive r = true \/ Registry.cached r = None ->
  exists p entry,
    p ∈ Registry.parsers r /\ CanParse p line = true
    /\ Parse p line = (entry, None) /\ building line entry
    /\ Registry.Parse r line
       = (if Registry.adaptive r then r else Registry.set_cached p r,
          (Some entry, None)).
Proof.
  intros Hr Hline Hforced Hmode.
  destruct (reachable_nil_error _ _ Hr) as [Hnil _].
  pose proof (reachable_generic _ _ Hr) as Hgeneric.
  destruct (detect_total (Registry.parsers r) line
              (GenericParser.as_Parser GenericParser.New))
    as [[p entry] Hdetect]; [exact Hgeneric|reflexivity| | |].
  { apply nil_error_Generic. }
  { by apply GenericParser_takes. }
  destruct (detect_Some _ _ _ _ Hdetect) as (Hin & Hcan & Hparse & Herr).
  exists p, entry. split; [exact Hin|]. split; [exact Hcan|].
  split; [exact Hparse|]. split.
  { split; [|exact Herr].
    rewrite Forall_forall in Hnil. destruct (Hnil p Hin line) as [_ Hraw].
    by rewrite Hparse in Hraw. }
  unfold Registry.Parse.
  rewrite bool_decide_eq_false_2 by exact Hline.
  rewrite (bool_decide_eq_true_2 _ Hforced). simpl negb. cbv iota.
  destruct Hmode as [Hadaptive | Hcached].
  - rewrite Hadaptive. simpl. rewrite Hdetect. reflexivity.
  - rewrite Hcached. destruct (Registry.adaptive r); simpl;
      rewrite Hdetect; reflexivity.
Qed.

Lemma Registry_Parse_detects_witness :
  exists p entry,
    p ∈ Registry.parsers strict_registry /\ CanParse p json_line = true
    /\ Parse p json_line = (entry, None) /\ building json_line entry
    /\ Registry.Parse strict_registry json_line
       = (if Registry.adaptive strict_registry then strict_registry
          else Registry.set_cached p strict_registry,
          (Some entry, None)).
Proof.
  apply (Registry_Parse_detects json_sample strict_registry json_line).
  - apply reach_new, Forall_nil_2.
  - vm_compute. discriminate.
  - reflexivity.
  - right. reflexivity.
Defined.

(** ** The groups of a match *)

Lemma run_caps_length {A : Type} (text : string) (r : Regexp) :
  forall (base i : nat) (caps : list string)
         (k : nat -> list string -> option A) (x : A),
    run text r base i caps k = Some x ->
    exists j caps', length caps' = length caps /\ k j caps' = Some x.
Proof.
  induction r as [|p|r1 IH1 r2 IH2|r1 IH1 r2 IH2|r1 IH1|r1 IH1|name r1 IH1| |];
    intros base i caps k x Hrun.
  - eauto.
  - simpl in Hrun. destruct (String.get i text) as [c|]; [|done].
    destruct (p c); [eauto|done].
  - simpl in Hrun. apply IH1 in Hrun as (j & caps' & Hlen & Hrun).
    apply IH2 in Hrun as (j' & caps'' & Hlen' & Hk).
    exists j', caps''. split; [congruence|done].
  - simpl in Hrun. destruct (run text r1 base i caps k) as [y|] eqn:H1.
    + injection Hrun as ->. by apply IH1 in H1.
    + by apply IH2 in Hrun.
  - pose (rep :=
            fix repeat (fuel : nat) (i : nat) (caps : list string)
              : option A :=
              match fuel with
              | O => k i caps
              | S fuel' =>
                  match run text r1 base i caps
                          (fun j caps' =>
                             if (i <? j)%nat then repeat fuel' j caps'
                             else None)
                  with
                  | Some x => Some x
                  | None => k i caps
                  end
              end).
    change (rep (S (String.length text - i)) i caps = Some x) in Hrun.
    revert i caps Hrun. generalize (String.length text). intros n i.
    generalize (S (n - i)). intros fuel. revert i.
    induction fuel as [|fuel IHfuel]; intros i caps Hrun; [eauto|].
    simpl in Hrun.
    match type of Hrun with
    | match ?m with _ => _ end = _ => destruct m as [y|] eqn:H1
    end; [|eauto].
    injection Hrun as ->.
    apply IH1 in H1 as (j & caps' & Hlen & H1).
    destruct (i <? j)%nat; [|done].
    apply IHfuel in H1 as (j' & caps'' & Hlen' & Hk).
    exists j', caps''. split; [congruence|done].
  - pose (rep :=
            fix repeat (fuel : nat) (i : nat) (caps : list string)
              : option A :=
              match fuel with
              | O => k i caps
              | S fuel' =>
                  match run text r1 base i caps
                          (fun j caps' =>
                             if (i <? j)%nat then repeat fuel' j caps'
                             else None)
                  with
                  | Some x => Some x
                  | None => k i caps
                  end
              end).
    change (run text r1 base i caps
              (fun j caps' => rep (S (String.length text - j)) j caps')
            = Some x) in Hrun.
    apply IH1 in Hrun as (j & caps' & Hlen & Hrun).
    revert j caps' Hlen Hrun. generalize (String.length text). intros n j.
    generalize (S (n - j)). intros fuel. revert j.
    induction fuel as [|fuel IHfuel]; intros j caps' Hlen Hrun; [eauto|].
    simpl in Hrun.
    match type of Hrun with
    | match ?m with _ => _ end = _ => destruct m as [y|] eqn:H1
    end; [|eauto].
    injection Hrun as ->.
    apply IH1 in H1 as (j' & caps'' & Hlen' & H1).
    destruct (j <? j')%nat; [|done].
    apply IHfuel in H1; [done|congruence].
  - simpl in Hrun. apply IH1 in Hrun as (j & caps' & Hlen & Hk).
    eexists _, _. split; [|exact Hk]. by rewrite length_insert.
  - simpl in Hrun. destruct (i =? 0)%nat; [eauto|done].
  - simpl in Hrun. destruct (i =? String.length text)%nat; [eauto|done].
Qed.

Lemma group_names_length (r : Regexp) :
  length (group_names r) = NumSubexp r.
Proof.
  induction r; simpl; rewrite ?length_app; auto.
Qed.

(** A match has one text for every name of [SubexpNames]. *)
Lemma FindStringSubmatch_length (r : Regexp) (text : string)
  (matches : list string) :
  FindStringSubmatch r text = Some matches ->
  length matches = length (SubexpNames r).
Proof.
  unfold FindStringSubmatch.
  assert (Hfind : forall n i m,
            find_from r text n i = Some m ->
            length (snd m) = length (SubexpNames r)).
  { induction n as [|n IH]; intros i m; simpl;
      destruct (match_at r text i) as [m'|] eqn:Hat;
      try (intros [= <-]); try done; try apply IH.
    all: unfold match_at in Hat;
      apply run_caps_length in Hat as (j & caps & Hlen & [= <-]);
      simpl; rewrite length_insert, Hlen, length_replicate,
        group_names_length; reflexivity. }
  destruct (find_from r text (String.length text) 0) as [m|] eqn:Hm;
    [|done].
  intros [= <-]. by eapply Hfind.
Qed.

Section GroupLoopAll.
Variable names : list string.
Variable skip : nat -> string -> bool.
Variable val : nat -> string -> value.
Variable body : nat -> string -> Entry -> Entry.

Hypothesis body_eq :
  forall i m entry,
    body i m entry =
      if skip i m then entry
      else set_field (name_at names i) (val i m) entry.

(** The loop removes no field. *)
Lemma range_from_keeps (l : list string) (i0 : nat) (entry : Entry)
  (key : string) :
  is_Some (Fields entry !! key) ->
  is_Some (Fields (range_from i0 l body entry) !! key).
Proof.
  revert i0 entry. induction l as [|m l IH]; intros i0 entry Hkey; simpl;
    [done|].
  apply IH. rewrite body_eq. destruct (skip i0 m); [done|]. simpl.
  destruct (decide (name_at names i0 = key)) as [->|Hne].
  - rewrite lookup_insert_eq. eauto.
  - by rewrite lookup_insert_ne.
Qed.

(** A group that the loop does not skip leaves a field of its name. *)
Lemma range_from_all (l : list string) (i0 j : nat) (m : string)
  (entry : Entry) :
  l !! j = Some m -> skip (i0 + j)%nat m = false ->
  is_Some (Fields (range_from i0 l body entry)
             !! name_at names (i0 + j)%nat).
Proof.
  revert i0 j entry. induction l as [|m0 l IH]; intros i0 j entry; [done|].
  destruct j as [|j]; simpl.
  - intros [= ->]. rewrite Nat.add_0_r. intros Hskip.
    apply range_from_keeps. rewrite body_eq, Hskip. simpl.
    rewrite lookup_insert_eq. eauto.
  - intros Hj Hskip.
    replace (i0 + S j)%nat with (S i0 + j)%nat in * by lia.
    by apply IH.
Qed.
End GroupLoopAll.

(** X16.  The fields of an entry of the user-pattern parser, for a line
    that the pattern matches, are exactly the named groups of the
    pattern: every named group gives a field, whether or not it took
    part in the match and whatever it matched, and nothing else does.
    So the entry of a parser that [NewRegexParser] made, which has a
    named group, has at least one field. *)
Theorem RegexParser_Parse_keys (p : RegexParser.t) (line : string) :
  RegexParser.CanParse p line = true ->
  (forall key,
     is_Some (Fields (fst (RegexParser.Parse p line)) !! key)
     <-> key <> "" /\ key ∈ group_names (RegexParser.pattern p))
  /\ (forall regexp_Compile,
        RegexParser.NewRegexParser regexp_Compile (RegexParser.patternText p)
        = inl p ->
        Fields (fst (RegexParser.Parse p line)) <> ∅).
Proof.
  intros Hcan. apply MatchString_spec in Hcan as [matches Hm].
  assert (Hkeys : forall key,
            is_Some (Fields (fst (RegexParser.Parse p line)) !! key)
            <-> key <> "" /\ key ∈ group_names (RegexParser.pattern p)).
  { intros key. split; [by eapply RegexParser_only_groups|].
    intros [Hne Hin]. apply list_elem_of_lookup_1 in Hin as [j Hj].
    pose proof (FindStringSubmatch_length _ _ _ Hm) as Hlen.
    assert (Hname : name_at (SubexpNames (RegexParser.pattern p)) (S j) = key)
      by (unfold name_at; simpl; by rewrite Hj).
    destruct (lookup_lt_is_Some_2 matches (S j)) as [m Hmj].
    { rewrite Hlen. simpl. apply lookup_lt_Some in Hj. lia. }
    unfold RegexParser.Parse. rewrite Hm. simpl. rewrite <- Hname.
    apply (range_from_all (SubexpNames (RegexParser.pattern p))
             (fun i m => bool_decide (i = 0%nat)
                         || bool_decide
                              (name_at (SubexpNames (RegexParser.pattern p)) i
                               = ""))
             (fun i m => inferType m) _ (fun _ _ _ => eq_refl)
             matches 0 (S j) m); [exact Hmj|].
    cbn beta. change (0 + S j)%nat with (S j). rewrite Hname.
    rewrite (bool_decide_eq_false_2 (S j = 0%nat)) by done.
    by rewrite (bool_decide_eq_false_2 (key = "")). }
  split; [exact Hkeys|].
  intros regexp_Compile Hnew. unfold RegexParser.NewRegexParser in Hnew.
  destruct (regexp_Compile _) as [compiled|err]; [|done].
  unfold RegexParser.New in Hnew.
  destruct (existsb _ (SubexpNames compiled)) eqn:Hnamed; [|done].
  simpl in Hnew. injection Hnew as Hp.
  apply existsb_exists in Hnamed as (name & Hin & Hname).
  apply negb_true_iff, bool_decide_eq_false in Hname.
  assert (Hgroup : name ∈ group_names (RegexParser.pattern p)).
  { rewrite <- Hp. simpl. simpl in Hin. destruct Hin as [<- | Hin]; [done|].
    by apply list_elem_of_In. }
  destruct (proj2 (Hkeys name) (conj Hname Hgroup)) as [v Hv].
  intros Hempty. rewrite Hempty, lookup_empty in Hv. done.
Qed.

Lemma RegexParser_Parse_keys_witness :
  RegexParser.CanParse parser_ab "y" = true
  /\ forall key,
       is_Some (Fields (fst (RegexParser.Parse parser_ab "y")) !! key)
       <-> key <> "" /\ key ∈ ["a"; "b"].
Proof.
  assert (Hcan : RegexParser.CanParse parser_ab "y" = true)
    by (vm_compute; reflexivity).
  split; [exact Hcan|].
  exact (proj1 (RegexParser_Parse_keys parser_ab "y" Hcan)).
Defined.

(** ** The emitter *)

Lemma filter_lookup (fields : gmap string value) (names : list string)
  (acc : gmap string value) (key : string) :
  foldl
    (fun output field =>
       match fields !! field with
       | Some val => <[field := val]> output
       | None => output
       end)
    acc names !! key
  = if bool_decide (key ∈ names)
    then match fields !! key with
         | Some val => Some val
         | None => acc !! key
         end
    else acc !! key.
Proof.
  revert acc. induction names as [|name names IH]; intros acc; cbn [foldl].
  { rewrite bool_decide_eq_false_2; [reflexivity|]. apply not_elem_of_nil. }
  rewrite IH. destruct (decide (key = name)) as [-> | Hne].
  - rewrite (bool_decide_eq_true_2 (name ∈ name :: names))
      by (apply elem_of_cons; by left).
    destruct (fields !! name) as [val|] eqn:Hval.
    + rewrite lookup_insert_eq. by case_bool_decide.
    + by case_bool_decide.
  - assert (Hin : key ∈ name :: names <-> key ∈ names).
    { rewrite elem_of_cons. naive_solver. }
    rewrite (bool_decide_ext _ _ Hin).
    destruct (fields !! name) as [val|]; [|reflexivity].
    by rewrite lookup_insert_ne.
Qed.

(** X10.  The object that the emitter builds for an entry, key by key.
    A parse error is always written as [_parseError], whatever the
    options are.  [_raw], [_lineNumber] and [_ingestTime] hold the raw
    line, the line number and the time when their options are set.
    These four take the place of a parsed field of the same name, and
    the field list does not apply to them.  Every other key holds the
    parsed field of that name when the field list is empty or lists the
    key, and is absent otherwise: a listed field that the entry does
    not have is not written. *)
Theorem buildOutput_lookup (options : emitter.Options) (now : string)
  (entry : Entry) (key : string) :
  emitter.buildOutput options now entry !! key =
    match (if bool_decide (key = "_parseError")
           then ParseError entry else None) with
    | Some err => Some (VString (Error err))
    | None =>
        if bool_decide (key = "_raw") && emitter.AddRaw options
        then Some (VString (Raw entry))
        else if bool_decide (key = "_lineNumber")
                && emitter.AddLineNumber options
        then Some (VInt (LineNum entry))
        else if bool_decide (key = "_ingestTime")
                && emitter.AddTimestamp options
        then Some (VString now)
        else if bool_decide (emitter.Fields options = [])
                || bool_decide (key ∈ emitter.Fields options)
        then Fields entry !! key
        else None
    end.
Proof.
  unfold emitter.buildOutput, emitter.entry_Fields.
  set (filtered := if bool_decide (0 < length (emitter.Fields options))%nat
                   then _ else _).
  assert (Hfiltered :
            filtered !! key
            = if bool_decide (emitter.Fields options = [])
                 || bool_decide (key ∈ emitter.Fields options)
              then Fields entry !! key else None).
  { subst filtered. destruct (emitter.Fields options) as [|name names] eqn:Hnames.
    - reflexivity.
    - rewrite bool_decide_eq_true_2 by (simpl; lia).
      rewrite filter_lookup, lookup_empty. simpl.
      case_bool_decide; [|reflexivity]. by destruct (Fields entry !! key). }
  clearbody filtered. rewrite <- Hfiltered. clear Hfiltered.
  destruct (ParseError entry) as [err|], (emitter.AddRaw options),
    (emitter.AddLineNumber options), (emitter.AddTimestamp options);
    repeat case_bool_decide; subst; simpl;
    rewrite ?lookup_insert_eq; try done;
    repeat (rewrite lookup_insert_ne by done; rewrite ?lookup_insert_eq);
    try done.
Qed.

(** ** The reader *)

Lemma scan_loop_numbers (texts : list string) (n : Z) :
  reader.scan_loop texts n =
    (imap (fun i text =>
             {| reader.Text := text; reader.Number := n + Z.of_nat i + 1;
                reader.Err := None |}) texts,
     n + Z.of_nat (length texts)).
Proof.
  revert n. induction texts as [|text texts IH]; intros n.
  { simpl. f_equal. lia. }
  cbn [reader.scan_loop imap length]. rewrite IH. f_equal.
  - f_equal; [f_equal; lia|].
    apply imap_ext. intros i x _. simpl. f_equal. lia.
  - lia.
Qed.

(** X11.  The lines that a new reader yields, by [Lines] and by
    [ReadAll], are the texts of the scanner in their order, numbered
    from 1 without a gap and without an error.  When the scanner ends
    on an error, [Lines] yields one more line, which has no text,
    carries the error and bears the next number, and [ReadAll] returns
    the error beside the lines read before it. *)
Theorem reader_Lines_numbered (texts : list string) (err : option error) :
  reader.Lines (reader.New (texts, err))
    = imap (fun i text =>
              {| reader.Text := text; reader.Number := Z.of_nat i + 1;
                 reader.Err := None |}) texts
      ++ match err with
         | Some e =>
             [{| reader.Text := "";
                 reader.Number := Z.of_nat (length texts) + 1;
                 reader.Err := Some e |}]
         | None => []
         end
  /\ reader.ReadAll (reader.New (texts, err))
     = (imap (fun i text =>
                {| reader.Text := text; reader.Number := Z.of_nat i + 1;
                   reader.Err := None |}) texts,
        err).
Proof.
  unfold reader.Lines, reader.ReadAll, reader.New. simpl.
  rewrite scan_loop_numbers. simpl. split.
  - destruct err as [e|]; [reflexivity|by rewrite app_nil_r].
  - reflexivity.
Qed.

(** ** The pipeline *)

Section Pipeline.

Variable json_Unmarshal : string -> gmap string value * option error.
Variable regexp_Compile : string -> Regexp + error.
Variable Quote : string -> string.
Variable Encode : gmap string value -> option error.
Variable clock : Z -> string.

Lemma serving_Parse (r : Registry.t) (line : string) :
  serving json_Unmarshal r ->
  exists entry,
    snd (Registry.Parse r line) = (Some entry, None) /\ Raw entry = line.
Proof.
  intros [Hr Hforced].
  destruct (reachable_nil_error _ _ Hr) as [Hps Hc].
  rewrite Forall_forall in Hps.
  assert (Hdelegate : forall p, nil_error p ->
            exists entry, Registry.delegate p line = (Some entry, None)
                          /\ Raw entry = line).
  { intros p Hp. destruct (Hp line) as [Herr Hraw].
    exists (fst (Parse p line)). unfold Registry.delegate.
    by rewrite Herr. }
  unfold Registry.Parse.
  case_bool_decide as Hblank; [by eexists|].
  case_bool_decide as Hempty; simpl.
  - destruct (negb (Registry.adaptive r)),
      (Registry.cached r) as [c|] eqn:Hcached; simpl; auto.
    all: destruct (Registry.detect (Registry.parsers r) line)
           as [[p entry]|] eqn:Hdetect; simpl.
    all: try (destruct (detect_Some _ _ _ _ Hdetect)
                as (Hin & _ & Hparse & _);
              exists entry; split; [reflexivity|];
              destruct (Hps p Hin line) as [_ Hraw];
              by rewrite Hparse in Hraw).
    all: destruct (Registry.GetParser r "generic") as [g|] eqn:Hg; simpl;
           [apply Hdelegate, Hps; by eapply lookup_name_Some
           |by eexists].
  - destruct Hforced as [Hforced | [p Hp]]; [done|].
    rewrite Hp. simpl. apply Hdelegate, Hps. by eapply lookup_name_Some.
Qed.

Lemma serving_step (r : Registry.t) (line : string) :
  serving json_Unmarshal r ->
  serving json_Unmarshal (fst (Registry.Parse r line)).
Proof.
  intros [Hr Hforced]. split; [by apply reach_parse|].
  by destruct (Registry_Parse_state r line) as [-> | (q & entry & _ & ->)].
Qed.

Lemma pipeline_serving (cfg : main.Config) (registry : Registry.t) :
  main.pipeline_registry json_Unmarshal regexp_Compile Quote cfg
    = inl registry ->
  serving json_Unmarshal registry.
Proof.
  unfold main.pipeline_registry.
  destruct (bool_decide (main.Pattern cfg = "")) eqn:Hpattern; simpl.
  - rewrite andb_true_r.
    destruct (bool_decide (main.Format cfg = "")) eqn:Hformat; simpl.
    + intros [= <-]. split; [|by left; destruct (main.Adaptive cfg)].
      apply reach_new. destruct (main.Adaptive cfg); simpl;
        repeat constructor.
    + set (opts := if main.Adaptive cfg then _ else _).
      assert (Hopts : Forall known_option opts)
        by (subst opts; destruct (main.Adaptive cfg); repeat constructor).
      assert (Hforced : Registry.forcedFormat (NewRegistry json_Unmarshal opts)
                        = strings.ToLower (main.Format cfg))
        by (subst opts; by destruct (main.Adaptive cfg)).
      destruct (bool_decide (is_Some _)) eqn:Hget; simpl; [|intros [=]].
      apply bool_decide_eq_true in Hget. intros Heq.
      assert (registry = NewRegistry json_Unmarshal opts) as ->
        by congruence.
      clear Heq. split; [by apply reach_new|]. right.
      rewrite Hforced. unfold Registry.GetParser in *.
      by rewrite ToLower_ToLower.
  - rewrite andb_false_r.
    destruct (RegexParser.NewRegexParser _ _) as [p|err]; [|intros [=]].
    intros [= <-]. split.
    + apply reach_register, reach_new. repeat constructor.
    + right. exists (RegexParser.as_Parser p).
      unfold Registry.GetParser.
      change (Registry.parsers _)
        with (Registry.parsers
                (NewRegistry json_Unmarshal [WithForcedFormat "regex"])
              ++ [RegexParser.as_Parser p]).
      destruct (NewRegistry_parsers json_Unmarshal [WithForcedFormat "regex"])
        as [-> _]; [repeat constructor|].
      rewrite lookup_name_app, builtin_lookup. reflexivity.
Qed.

Lemma buildOutput_lineNumber (options : emitter.Options) (now : string)
  (entry : Entry) :
  emitter.AddLineNumber options = true ->
  emitter.buildOutput options now entry !! "_lineNumber"
    = Some (VInt (LineNum entry)).
Proof.
  intros Hadd. unfold emitter.buildOutput. rewrite Hadd.
  destruct (ParseError entry), (emitter.AddRaw options);
    repeat (rewrite lookup_insert_ne by done);
    by rewrite lookup_insert_eq.
Qed.

Lemma buildOutput_raw (options : emitter.Options) (now : string)
  (entry : Entry) :
  emitter.AddRaw options = true ->
  emitter.buildOutput options now entry !! "_raw"
    = Some (VString (Raw entry)).
Proof.
  intros Hadd. unfold emitter.buildOutput. rewrite Hadd.
  destruct (ParseError entry);
    repeat (rewrite lookup_insert_ne by done);
    by rewrite lookup_insert_eq.
Qed.

(** The loop over lines that were read without an error, from a state
    whose registry serves every line. *)
Lemma steps_emitted (cfg : main.Config) (lines : list reader.Line)
  (st : main.Loop) :
  main.OmitEmpty cfg = false ->
  serving json_Unmarshal (main.registry st) ->
  Forall (fun line => reader.Err line = None) lines ->
  let st' := foldl (main.step Encode clock cfg) st lines in
  serving json_Unmarshal (main.registry st')
  /\ main.lineCount st' = main.lineCount st + Z.of_nat (length lines)
  /\ (exists objects,
        main.out st' = main.out st ++ objects
        /\ Forall2 (emitted clock cfg) lines objects)
  /\ ((forall object, Encode object = None) ->
      main.errorCount st' = main.errorCount st
      /\ main.err_out st' = main.err_out st).
Proof.
  intros Homit Hserving Hlines. revert st Hserving.
  induction Hlines as [|line lines Hline _ IH]; intros st Hserving.
  { simpl. split; [done|]. split; [lia|]. split; [|done].
    exists []. by rewrite app_nil_r. }
  cbn [foldl length].
  set (st1 := main.step Encode clock cfg st line).
  assert (Hstep :
            serving json_Unmarshal (main.registry st1)
            /\ main.lineCount st1 = main.lineCount st + 1
            /\ (exists object,
                  main.out st1 = main.out st ++ [object]
                  /\ emitted clock cfg line object)
            /\ ((forall object, Encode object = None) ->
                main.errorCount st1 = main.errorCount st
                /\ main.err_out st1 = main.err_out st)).
  { subst st1. unfold main.step. rewrite Hline.
    pose proof (serving_step _ (reader.Text line) Hserving) as Hnext.
    destruct (serving_Parse _ (reader.Text line) Hserving)
      as (entry & Hparse & Hraw).
    destruct (Registry.Parse (main.registry st) (reader.Text line))
      as [registry [entry' err]]. simpl in Hparse, Hnext.
    injection Hparse as -> ->.
    unfold emitter.Emit. cbn [main.emitOpts emitter.OmitEmpty].
    rewrite Homit. cbn [andb].
    set (object := emitter.buildOutput _ _ _).
    assert (Hobject : emitted clock cfg line object) by (by exists entry).
    destruct (Encode object) as [err|] eqn:Hencode; simpl.
    - split; [done|]. split; [done|]. split; [by exists object|].
      intros Hnever. by rewrite Hnever in Hencode.
    - split; [done|]. split; [done|]. split; [by exists object|done]. }
  destruct Hstep as (Hserving1 & Hcount1 & (object & Hout1 & Hobject) & Herr1).
  destruct (IH st1 Hserving1) as (Hserving' & Hcount' & (objects & Hout' & Hobjects) & Herr').
  split; [exact Hserving'|]. split; [lia|]. split.
  - exists (object :: objects). split; [|by constructor].
    by rewrite Hout', Hout1, <- app_assoc.
  - intros Hnever. destruct (Herr1 Hnever) as [<- <-]. by apply Herr'.
Qed.

End Pipeline.

Lemma forced_delegates (r : Registry.t) (line : string) (p : Parser) :
  Registry.forcedFormat r <> "" ->
  Registry.GetParser r (Registry.forcedFormat r) = Some p ->
  strings.TrimSpace line <> "" ->
  Registry.Parse r line = (r, (Some (fst (Parse p line)), snd (Parse p line))).
Proof.
  intros Hforced Hget Hline. unfold Registry.Parse.
  rewrite bool_decide_eq_false_2 by exact Hline.
  rewrite (bool_decide_eq_false_2 _ Hforced). simpl negb. cbv iota.
  by rewrite Hget.
Qed.

Lemma builtin_names json_Unmarshal (name : string) :
  is_Some (Registry.lookup_name (builtin_parsers json_Unmarshal) name)
  <-> name ∈ ["json"; "kv"; "syslog"; "apache"; "generic"].
Proof.
  rewrite builtin_lookup.
  repeat case_bool_decide; subst; split;
    try (intros _; eauto; set_solver);
    try (intros [? ?]; done).
  intros Hin. exfalso. set_solver.
Qed.

(** X12.  A pattern takes the place of every other choice of format:
    when the configuration has a pattern, its format and its adaptive
    mode play no part.  If the pattern does not compile, or has no named
    group, the pipeline stops with an error before it reads a line.
    Otherwise every line that is not blank goes to the parser of the
    pattern, and the registry never changes. *)
Theorem pipeline_pattern_first json_Unmarshal regexp_Compile Quote
  (cfg : main.Config) :
  main.Pattern cfg <> "" ->
  match regexp_Compile (main.Pattern cfg) with
  | inr err =>
      main.pipeline_registry json_Unmarshal regexp_Compile Quote cfg
      = inr (Errorf ("invalid pattern: invalid regex pattern: " ++ Error err))
  | inl compiled =>
      (Forall (fun name => name = "") (SubexpNames compiled) ->
       main.pipeline_registry json_Unmarshal regexp_Compile Quote cfg
       = inr (Errorf ("invalid pattern: pattern must have at least one "
                      ++ "named group: (?P<name>...)")))
      /\ (Exists (fun name => name <> "") (SubexpNames compiled) ->
          exists registry,
            main.pipeline_registry json_Unmarshal regexp_Compile Quote cfg
            = inl registry
            /\ forall line,
                 strings.TrimSpace line <> "" ->
                 Registry.Parse registry line
                 = (registry,
                    (Some (fst (RegexParser.Parse
                                  {| RegexParser.pattern := compiled;
                                     RegexParser.patternText :=
                                       main.Pattern cfg |} line)),
                     None)))
  end.
Proof.
  intros Hpattern. unfold main.pipeline_registry.
  rewrite (bool_decide_eq_false_2 _ Hpattern).
  rewrite andb_false_r. simpl negb. cbv iota.
  unfold RegexParser.NewRegexParser.
  destruct (regexp_Compile (main.Pattern cfg)) as [compiled|err];
    [|reflexivity].
  unfold RegexParser.New.
  destruct (existsb _ (SubexpNames compiled)) eqn:Hnamed; simpl.
  - split.
    { intros Hnone. exfalso. apply existsb_exists in Hnamed
        as (name & Hin & Hname).
      rewrite Forall_forall in Hnone.
      apply list_elem_of_In, Hnone in Hin. subst name. discriminate. }
    intros _. eexists. split; [reflexivity|]. intros line Hline.
    set (p := {| RegexParser.pattern := compiled;
                 RegexParser.patternText := main.Pattern cfg |}).
    rewrite (forced_delegates _ line (RegexParser.as_Parser p));
      [|discriminate| |exact Hline].
    + destruct (nil_error_Regex p line) as [-> _]. reflexivity.
    + unfold Registry.GetParser.
      change (Registry.parsers _)
        with (Registry.parsers
                (NewRegistry json_Unmarshal [WithForcedFormat "regex"])
              ++ [RegexParser.as_Parser p]).
      destruct (NewRegistry_parsers json_Unmarshal [WithForcedFormat "regex"])
        as [-> _]; [repeat constructor|].
      rewrite lookup_name_app, builtin_lookup. reflexivity.
  - split; [reflexivity|].
    intros Hsome. exfalso. apply Exists_exists in Hsome
      as (name & Hin & Hname).
    assert (Htrue : existsb (fun name => negb (bool_decide (name = "")))
                      (SubexpNames compiled) = true).
    { apply existsb_exists. exists name. split; [by apply list_elem_of_In|].
      by rewrite bool_decide_eq_false_2. }
    congruence.
Qed.

Lemma pipeline_pattern_first_witness :
  main.Pattern pattern_config <> ""
  /\ exists registry,
       main.pipeline_registry json_sample compile_sample quote pattern_config
       = inl registry
       /\ forall line,
            strings.TrimSpace line <> "" ->
            Registry.Parse registry line
            = (registry,
               (Some (fst (RegexParser.Parse parser_ab line)), None)).
Proof.
  assert (Hpattern : main.Pattern pattern_config <> "") by discriminate.
  split; [exact Hpattern|].
  pose proof (pipeline_pattern_first json_sample compile_sample quote
                pattern_config Hpattern) as [_ Hnamed].
  apply Hnamed. apply Exists_cons_tl, Exists_cons_hd. discriminate.
Defined.

(** X13.  Without a pattern, a forced format is checked before any line
    is read; the format is taken to be a name of ASCII bytes.  A name
    that is, in any case of its letters, one of json,
    kv, syslog, apache and generic gives a registry that hands every
    line that is not blank to the parser of that name, returns what
    that parser returns and never changes; any other name stops the
    pipeline with the unknown-format error. *)
Theorem pipeline_format_checked json_Unmarshal regexp_Compile Quote
  (cfg : main.Config) :
  main.Pattern cfg = "" ->
  main.Format cfg <> "" ->
  is_ascii (main.Format cfg) = true ->
  if bool_decide (strings.ToLower (main.Format cfg)
                  ∈ ["json"; "kv"; "syslog"; "apache"; "generic"])
  then
    exists registry p,
      main.pipeline_registry json_Unmarshal regexp_Compile Quote cfg
      = inl registry
      /\ p ∈ builtin_parsers json_Unmarshal
      /\ strings.ToLower (Name p) = strings.ToLower (main.Format cfg)
      /\ forall line,
           strings.TrimSpace line <> "" ->
           Registry.Parse registry line
           = (registry, (Some (fst (Parse p line)), snd (Parse p line)))
  else
    main.pipeline_registry json_Unmarshal regexp_Compile Quote cfg
    = inr (Errorf ("unknown format " ++ Quote (main.Format cfg)
                   ++ "; use --list to see available formats")).
Proof.
  intros Hpattern Hformat _. unfold main.pipeline_registry.
  rewrite (bool_decide_eq_true_2 _ Hpattern).
  rewrite (bool_decide_eq_false_2 _ Hformat).
  rewrite andb_true_r. simpl negb. cbv iota. simpl app.
  set (opts := if main.Adaptive cfg then _ else _).
  assert (Hopts : Forall known_option opts)
    by (subst opts; destruct (main.Adaptive cfg); repeat constructor).
  assert (Hforced : Registry.forcedFormat (NewRegistry json_Unmarshal opts)
                    = strings.ToLower (main.Format cfg))
    by (subst opts; by destruct (main.Adaptive cfg)).
  destruct (NewRegistry_parsers json_Unmarshal opts Hopts) as [Hps _].
  assert (Hfound :
            is_Some (Registry.GetParser (NewRegistry json_Unmarshal opts)
                       (main.Format cfg))
            <-> strings.ToLower (main.Format cfg)
                ∈ ["json"; "kv"; "syslog"; "apache"; "generic"]).
  { unfold Registry.GetParser. rewrite Hps. apply builtin_names. }
  rewrite (bool_decide_ext _ _ Hfound).
  case_bool_decide as Hknown; simpl; [|reflexivity].
  apply Hfound in Hknown as [p Hp].
  exists (NewRegistry json_Unmarshal opts), p.
  split; [reflexivity|].
  unfold Registry.GetParser in Hp. rewrite Hps in Hp.
  split; [by eapply lookup_name_Some|].
  split; [by eapply lookup_name_name|].
  intros line Hline. apply forced_delegates; [| |exact Hline].
  - rewrite Hforced. intros Hlow. by apply ToLower_empty in Hlow.
  - rewrite Hforced. unfold Registry.GetParser.
    by rewrite Hps, ToLower_ToLower.
Qed.

Lemma pipeline_format_checked_witness :
  exists registry p,
    main.pipeline_registry json_sample compile_sample quote apache_config
    = inl registry
    /\ p ∈ builtin_parsers json_sample
    /\ strings.ToLower (Name p) = "apache"
    /\ forall line,
         strings.TrimSpace line <> "" ->
         Registry.Parse registry line
         = (registry, (Some (fst (Parse p line)), snd (Parse p line))).
Proof.
  exact (pipeline_format_checked json_sample compile_sample quote
           apache_config eq_refl ltac:(discriminate) eq_refl).
Defined.

(** X14.  A run of the pipeline that gets past the checks of its
    configuration and does not omit entries hands the encoder one
    object for every line of the input, in the order of the lines,
    blank lines and lines that no parser takes included: no line is
    lost to a parse error.  The object of line [i+1] bears that number
    as [_lineNumber] and the text of the line as [_raw], when these are
    asked for.  The run returns no error; and when the encoder never
    fails, the only messages are the one for a read error that ends the
    input, unless the run is quiet, and the summary of a verbose run,
    which counts that read error alone. *)
Theorem runPipeline_one_object_per_line json_Unmarshal regexp_Compile Quote
  Encode clock (cfg : main.Config) (registry : Registry.t)
  (texts : list string) (err : option error) :
  main.pipeline_registry json_Unmarshal regexp_Compile Quote cfg
    = inl registry ->
  main.OmitEmpty cfg = false ->
  let run :=
    main.runPipeline json_Unmarshal regexp_Compile Quote Encode clock cfg
      (texts, err) in
  main.returned run = None
  /\ length (main.written run) = length texts
  /\ (forall i text,
        texts !! i = Some text ->
        exists object,
          main.written run !! i = Some object
          /\ (main.AddLineNumber cfg = true ->
              object !! "_lineNumber" = Some (VInt (Z.of_nat i + 1)))
          /\ (main.AddRaw cfg = true ->
              object !! "_raw" = Some (VString text)))
  /\ ((forall object, Encode object = None) ->
      main.messages run
      = match err with
        | Some e =>
            if main.Quiet cfg then []
            else [("read error at line "
                   ++ strconv.FormatInt (Z.of_nat (length texts) + 1)
                   ++ ": " ++ Error e ++ main.newline)%string]
        | None => []
        end
        ++ if main.Verbose cfg
           then [("processed "
                  ++ strconv.FormatInt
                       (Z.of_nat (length texts)
                        + match err with Some _ => 1 | None => 0 end)
                  ++ " lines, "
                  ++ strconv.FormatInt
                       match err with Some _ => 1 | None => 0 end
                  ++ " errors" ++ main.newline)%string]
           else []).
Proof.
  intros Hregistry Homit. unfold main.runPipeline. rewrite Hregistry.
  unfold reader.Lines, reader.New. cbn [reader.scanner reader.lineNumber fst snd].
  rewrite scan_loop_numbers.
  set (lines := imap _ texts).
  set (st0 := {| main.registry := registry; main.lineCount := 0;
                 main.errorCount := 0; main.out := [];
                 main.err_out := [] |}).
  assert (Hlines : Forall (fun line => reader.Err line = None) lines).
  { apply Forall_forall. intros line Hin.
    apply elem_of_lookup_imap_1 in Hin as (i & text & -> & _). reflexivity. }
  destruct (steps_emitted json_Unmarshal Encode clock cfg lines st0 Homit
              (pipeline_serving _ _ _ _ _ Hregistry) Hlines)
    as (_ & Hcount & (objects & Hout & Hobjects) & Herr).
  set (st1 := foldl (main.step Encode clock cfg) st0 lines) in *.
  simpl in Hout, Hcount.
  assert (Hlength : length lines = length texts)
    by (subst lines; apply length_imap).
  assert (Hwritten :
            forall st, main.out st = main.out st1 ->
              length (main.out st) = length texts
              /\ forall i text,
                   texts !! i = Some text ->
                   exists object,
                     main.out st !! i = Some object
                     /\ (main.AddLineNumber cfg = true ->
                         object !! "_lineNumber"
                         = Some (VInt (Z.of_nat i + 1)))
                     /\ (main.AddRaw cfg = true ->
                         object !! "_raw" = Some (VString text))).
  { intros st ->. rewrite Hout. split.
    - by rewrite <- (Forall2_length _ _ _ Hobjects).
    - intros i text Htext.
      assert (Hline : lines !! i
                      = Some {| reader.Text := text;
                                reader.Number := 0 + Z.of_nat i + 1;
                                reader.Err := None |}).
      { subst lines. by rewrite list_lookup_imap, Htext. }
      destruct (Forall2_lookup_l _ _ _ _ _ Hobjects Hline)
        as (object & Hobject & entry & Hraw & ->).
      exists (emitter.buildOutput (main.emitOpts cfg)
                (clock (0 + Z.of_nat i + 1))
                (set_LineNum (0 + Z.of_nat i + 1) entry)).
      split; [exact Hobject|]. split.
      + intros Hadd. rewrite buildOutput_lineNumber by exact Hadd.
        simpl; do 2 f_equal; lia.
      + intros Hadd. rewrite buildOutput_raw by exact Hadd.
        simpl in *. by rewrite Hraw. }
  destruct err as [e|].
  - rewrite foldl_app. fold st1. cbn [foldl].
    set (number := 0 + Z.of_nat (length texts) + 1).
    assert (Hlast :
              main.step Encode clock cfg st1
                {| reader.Text := ""; reader.Number := number;
                   reader.Err := Some e |}
              = {| main.registry := main.registry st1;
                   main.lineCount := main.lineCount st1 + 1;
                   main.errorCount := main.errorCount st1 + 1;
                   main.out := main.out st1;
                   main.err_out := main.warn cfg "read" number e st1 |})
      by reflexivity.
    rewrite Hlast. subst number.
    cbn [main.out main.err_out main.lineCount main.errorCount
         main.written main.messages main.returned].
    split; [reflexivity|].
    destruct (Hwritten st1 eq_refl) as [Hlen Hobj].
    split; [exact Hlen|]. split; [exact Hobj|].
    intros Hnever. unfold main.warn.
    destruct (Herr Hnever) as [-> ->]. simpl.
    rewrite Hcount, Hlength.
    replace (0 + Z.of_nat (length texts) + 1)
      with (Z.of_nat (length texts) + 1) by lia.
    replace (0 + Z.of_nat (length texts)) with (Z.of_nat (length texts))
      by lia.
    by destruct (main.Quiet cfg), (main.Verbose cfg).
  - fold st1.
    cbn [main.written main.messages main.returned].
    split; [reflexivity|].
    destruct (Hwritten st1 eq_refl) as [Hlen Hobj].
    split; [exact Hlen|]. split; [exact Hobj|].
    intros Hnever. destruct (Herr Hnever) as [-> ->]. simpl.
    rewrite Hcount, Hlength.
    replace (0 + Z.of_nat (length texts) + 0) with (0 + Z.of_nat (length texts))
      by lia.
    replace (Z.of_nat (length texts) + 0) with (0 + Z.of_nat (length texts))
      by lia.
    by destruct (main.Verbose cfg).
Qed.

Lemma runPipeline_one_object_per_line_witness :
  let run :=
    main.runPipeline json_sample compile_sample quote encode_sample
      clock_sample default_config ([json_line; ""; syslog_line], None) in
  main.pipeline_registry json_sample compile_sample quote default_config
    = inl strict_registry
  /\ main.returned run = None
  /\ length (main.written run) = 3%nat.
Proof.
  assert (Hregistry :
            main.pipeline_registry json_sample compile_sample quote
              default_config = inl strict_registry) by reflexivity.
  split; [exact Hregistry|].
  destruct (runPipeline_one_object_per_line json_sample compile_sample quote
              encode_sample clock_sample default_config strict_registry
              [json_line; ""; syslog_line] None Hregistry eq_refl)
    as (Hreturned & Hlength & _).
  split; [exact Hreturned|exact Hlength].
Defined.

(** X15.  With [OmitEmpty], a blank line leaves no trace but in the
    count of lines: whatever the registry is, the pipeline writes no
    object for it, prints no message, counts no error, and leaves the
    registry and its cache as they were. *)
Theorem step_blank_omitted Encode clock (cfg : main.Config) (st : main.Loop)
  (text : string) (number : Z) :
  main.OmitEmpty cfg = true ->
  strings.TrimSpace text = "" ->
  main.step Encode clock cfg st
    {| reader.Text := text; reader.Number := number; reader.Err := None |}
  = {| main.registry := main.registry st;
       main.lineCount := main.lineCount st + 1;
       main.errorCount := main.errorCount st;
       main.out := main.out st;
       main.err_out := main.err_out st |}.
Proof.
  intros Homit Hblank. unfold main.step. cbn [reader.Err reader.Text].
  unfold Registry.Parse. rewrite (bool_decide_eq_true_2 _ Hblank).
  unfold emitter.Emit. cbn [main.emitOpts emitter.OmitEmpty].
  rewrite Homit. simpl. reflexivity.
Qed.

Lemma step_blank_omitted_witness :
  main.step encode_sample clock_sample pattern_config
    {| main.registry := json_cached_registry; main.lineCount := 4;
       main.errorCount := 1; main.out := []; main.err_out := [] |}
    {| reader.Text := "   "; reader.Number := 5; reader.Err := None |}
  = {| main.registry := json_cached_registry; main.lineCount := 5;
       main.errorCount := 1; main.out := []; main.err_out := [] |}.
Proof.
  apply (step_blank_omitted encode_sample clock_sample pattern_config
           {| main.registry := json_cached_registry; main.lineCount := 4;
              main.errorCount := 1; main.out := []; main.err_out := [] |}
           "   " 5); reflexivity.
Defined.

(** ** The values of the generic parser *)

Lemma upper_upper_byte (c : ascii) :
  strings.upper_byte (strings.upper_byte c) = strings.upper_byte c.
Proof.
  destruct c as [[] [] [] [] [] [] [] []]; vm_compute; reflexivity.
Qed.

Lemma ToUpper_ToUpper (s : string) :
  strings.ToUpper (strings.ToUpper s) = strings.ToUpper s.
Proof.
  induction s as [|c s IH]; [reflexivity|].
  cbn [strings.ToUpper strings.map_bytes].
  f_equal; [apply upper_upper_byte|exact IH].
Qed.

Lemma ToUpper_empty (s : string) : strings.ToUpper s = "" -> s = "".
Proof. by destruct s. Qed.

Section GroupLoopValue.
Variable names : list string.
Variable skip : nat -> string -> bool.
Variable val : nat -> string -> value.
Variable body : nat -> string -> Entry -> Entry.

Hypothesis body_eq :
  forall i m entry,
    body i m entry =
      if skip i m then entry
      else set_field (name_at names i) (val i m) entry.

(** The value of a field after the loop was there before it, or is
    the value that the loop gives to a group of that name that it did
    not skip. *)
Lemma range_from_value (l : list string) (i0 : nat) (entry : Entry)
  (key : string) (v : value) :
  Fields (range_from i0 l body entry) !! key = Some v ->
  Fields entry !! key = Some v
  \/ exists j m, l !! j = Some m /\ skip (i0 + j)%nat m = false
                 /\ name_at names (i0 + j)%nat = key
                 /\ v = val (i0 + j)%nat m.
Proof.
  revert i0 entry. induction l as [|m l IH]; intros i0 entry; simpl;
    [by left|].
  intros Hkey.
  apply IH in Hkey as [Hkey | (j & m' & Hj & Hskip & Hname & Hv)].
  - rewrite body_eq in Hkey. destruct (skip i0 m) eqn:Hskip; [by left|].
    simpl in Hkey.
    destruct (decide (name_at names i0 = key)) as [Heq|Hne].
    + right. exists 0%nat, m. rewrite Nat.add_0_r.
      rewrite Heq, lookup_insert_eq in Hkey. by injection Hkey as <-.
    + left. by rewrite lookup_insert_ne in Hkey.
  - right. exists (S j), m'.
    replace (i0 + S j)%nat with (S i0 + j)%nat by lia. done.
Qed.
End GroupLoopValue.

Lemma try_patterns_values (ps : list Regexp) (line key : string)
  (entry : Entry) (v : value) :
  GenericParser.try_patterns ps line (NewEntry line) = Some entry ->
  Fields entry !! key = Some v ->
  exists m, m <> ""
            /\ v = VString (if bool_decide (key = "level")
                            then strings.ToUpper m else m).
Proof.
  induction ps as [|pattern ps IH]; simpl; [discriminate|].
  destruct (FindStringSubmatch pattern line) as [matches|]; [|exact IH].
  intros [= <-] Hkey.
  apply (range_from_value (SubexpNames pattern)
           (fun i m => bool_decide (i = 0%nat)
                       || bool_decide (name_at (SubexpNames pattern) i = "")
                       || bool_decide (m = ""))
           (fun i m =>
              VString (if bool_decide (name_at (SubexpNames pattern) i
                                       = "level")
                       then strings.ToUpper m else m)))
    in Hkey as [Hkey | (j & m & _ & Hskip & Hname & ->)];
    [| |reflexivity].
  - simpl in Hkey. by rewrite lookup_empty in Hkey.
  - exists m. rewrite Hname. split; [|reflexivity].
    apply orb_false_iff in Hskip as [_ Hm].
    by apply bool_decide_eq_false in Hm.
Qed.

(** X17.  Every value that the generic parser stores is a string, and
    it is not the empty string unless the line is blank: a group that
    matched nothing makes no field.  The level is stored in upper case:
    [ToUpper] leaves the value of [level] unchanged. *)
Theorem GenericParser_Parse_values (p : GenericParser.t)
  (line key : string) (v : value) :
  Fields (fst (GenericParser.Parse p line)) !! key = Some v ->
  exists s,
    v = VString s
    /\ (strings.TrimSpace line <> "" -> s <> "")
    /\ (key = "level" -> strings.ToUpper s = s).
Proof.
  unfold GenericParser.Parse. case_bool_decide as Hblank; simpl.
  - intros Hkey. apply lookup_insert_Some in Hkey as [[<- <-] | [_ Hkey]];
      [|by rewrite lookup_empty in Hkey].
    exists "". split; [reflexivity|]. split; [done|discriminate].
  - destruct (GenericParser.try_patterns _ _ _) as [entry|] eqn:Htry; simpl.
    + intros Hkey.
      destruct (try_patterns_values _ _ _ _ _ Htry Hkey) as (m & Hm & ->).
      eexists. split; [reflexivity|]. split.
      * intros _. case_bool_decide; [|done].
        intros Hup. by apply ToUpper_empty in Hup.
      * intros ->. rewrite bool_decide_eq_true_2 by done.
        apply ToUpper_ToUpper.
    + intros Hkey. apply lookup_insert_Some in Hkey as [[<- <-] | [_ Hkey]];
        [|by rewrite lookup_empty in Hkey].
      eexists. split; [reflexivity|]. split; [done|discriminate].
Qed.

Lemma GenericParser_Parse_values_witness :
  exists s,
    VString "INFO" = VString s
    /\ (strings.TrimSpace "INFO: started" <> "" -> s <> "")
    /\ ("level" = "level" -> strings.ToUpper s = s).
Proof.
  apply (GenericParser_Parse_values GenericParser.New "INFO: started"
           "level" (VString "INFO")).
  vm_compute. reflexivity.
Defined.
